(** * switchbot-reader: the ncurses console dashboard

    A shallow embedding of [tools/ai_generated_console_dash_ncurses.c] and
    the properties of its line queue, JSON decoder, device registry,
    aggregator, table and scroll handling.

    Conventions of the embedding.
    - C [int] and [long long] values are integers of [Z]; where the C code
      narrows a value or a value can leave its range (timestamps, the
      clock, the scroll offset), the wrap-around is written out with
      [wrap32] / [wrap64].  Counters bounded by the table size and the
      terminal geometry are left in [Z].
    - C strings are [string]s (bytes, no embedded NUL: jansson rejects NUL
      inside JSON strings unless asked otherwise).
    - A C [double] is a value of [double]: a real number, an infinity or
      NaN.  Comparisons follow IEEE 754 (every comparison with NaN is
      false, except [!=]).  The operations [d_add], [d_mul], [d_div] are
      those of the real numbers, without rounding; the value of the dew
      point is stated over any arithmetic [Arith] whose operations round
      within a relative error, of which the exact one is an instance.
    - The global device table [devices[0 .. device_count)] is a
      [list Device]; [time(NULL)] is the parameter [now]. *)

From Stdlib Require Import ZArith Reals Lra Lia Ascii String List Bool.
From Stdlib Require Import Permutation Sorted.
From Stdlib Require DecimalString DecimalPos.
From stdpp Require Import base list strings gmap.

Local Open Scope Z_scope.

(** ** Machine integers *)

Definition wrap (w : Z) (z : Z) : Z :=
  (z + 2 ^ (w - 1)) mod 2 ^ w - 2 ^ (w - 1).

Definition wrap32 : Z -> Z := wrap 32.
Definition wrap64 : Z -> Z := wrap 64.

Definition INT_MAX : Z := 2147483647.
Definition INT_MIN : Z := -2147483648.

(* static inline int imin(int a, int b){ return a < b ? a : b; } *)
Definition imin (a b : Z) : Z := if a <? b then a else b.
(* static inline int imax(int a, int b){ return a > b ? a : b; } *)
Definition imax (a b : Z) : Z := if a >? b then a else b.

(** ** Doubles *)

Inductive double : Type :=
| DFin (x : R)
| DInf (negative : bool)
| DNaN.

Definition Rltb (x y : R) : bool := if Rlt_dec x y then true else false.
Definition Rleb (x y : R) : bool := if Rle_dec x y then true else false.
Definition Reqb (x y : R) : bool := if Req_dec_T x y then true else false.

(* x < y *)
Definition d_lt (a b : double) : bool :=
  match a, b with
  | DNaN, _ | _, DNaN => false
  | DFin x, DFin y => Rltb x y
  | DFin _, DInf neg => negb neg
  | DInf neg, DFin _ => neg
  | DInf n1, DInf n2 => n1 && negb n2
  end.

(* x > y *)
Definition d_gt (a b : double) : bool := d_lt b a.

(* x <= y *)
Definition d_le (a b : double) : bool :=
  match a, b with
  | DNaN, _ | _, DNaN => false
  | DFin x, DFin y => Rleb x y
  | DFin _, DInf neg => negb neg
  | DInf neg, DFin _ => neg
  | DInf n1, DInf n2 => n1 || negb n2
  end.

(* x != y *)
Definition d_ne (a b : double) : bool :=
  match a, b with
  | DNaN, _ | _, DNaN => true
  | DFin x, DFin y => negb (Reqb x y)
  | DInf n1, DInf n2 => negb (eqb n1 n2)
  | _, _ => true
  end.

Definition d_neg (a : double) : double :=
  match a with
  | DFin x => DFin (- x)
  | DInf neg => DInf (negb neg)
  | DNaN => DNaN
  end.

Definition d_add (a b : double) : double :=
  match a, b with
  | DNaN, _ | _, DNaN => DNaN
  | DFin x, DFin y => DFin (x + y)
  | DFin _, DInf neg | DInf neg, DFin _ => DInf neg
  | DInf n1, DInf n2 => if eqb n1 n2 then DInf n1 else DNaN
  end.

Definition d_sub (a b : double) : double := d_add a (d_neg b).

Definition Rsign_neg (x : R) : bool := Rltb x 0.

Definition d_mul (a b : double) : double :=
  match a, b with
  | DNaN, _ | _, DNaN => DNaN
  | DFin x, DFin y => DFin (x * y)
  | DFin x, DInf neg | DInf neg, DFin x =>
      if Reqb x 0 then DNaN else DInf (xorb neg (Rsign_neg x))
  | DInf n1, DInf n2 => DInf (xorb n1 n2)
  end.

Definition d_div (a b : double) : double :=
  match a, b with
  | DNaN, _ | _, DNaN => DNaN
  | DFin x, DFin y =>
      if Reqb y 0
      then (if Reqb x 0 then DNaN else DInf (Rsign_neg x))
      else DFin (x / y)
  | DFin _, DInf _ => DFin 0
  | DInf neg, DFin y => DInf (xorb neg (Rsign_neg y))
  | DInf _, DInf _ => DNaN
  end.

(* log() of libm *)
Definition d_log (a : double) : double :=
  match a with
  | DNaN => DNaN
  | DFin x =>
      if Rltb x 0 then DNaN
      else if Reqb x 0 then DInf true
      else DFin (ln x)
  | DInf true => DNaN
  | DInf false => DInf false
  end.

(* (double)n for an integer n *)
Definition d_of_int (n : Z) : double := DFin (IZR n).

(* (long long)x: truncation toward zero; the C result is undefined for NaN,
   infinities and values out of range, 0 stands for the first two here *)
Definition d_to_ll (a : double) : Z :=
  match a with
  | DFin x => wrap64 (if Rleb 0 x then Int_part x else - Int_part (- x))
  | _ => 0
  end.

(* static inline int is_finite(double x){ return !(x!=x) && x>-1e300 && x<1e300; } *)
Definition is_finite (x : double) : bool :=
  negb (d_ne x x) && d_gt x (DFin (-1e300)) && d_lt x (DFin 1e300).

(** ** JSON values, as jansson's [json_t] *)

#[local] Set Warnings "-register-all".

Inductive json_t : Type :=
| JObject (members : gmap string json_t)
| JArray (items : list json_t)
| JString (s : string)
| JInteger (i : Z)
| JReal (x : double)
| JTrue
| JFalse
| JNull.

(** ** Strings *)

Local Open Scope string_scope.
Local Open Scope Z_scope.

Definition MAX_DEVICES : Z := 1024.
Definition MAX_ID_LEN : Z := 96.
Definition MAX_LOC_LEN : Z := 96.

(* isspace() and tolower() on an unsigned char, in the "C" and UTF-8
   locales (bytes above 127 are neither spaces nor letters there) *)
Definition isspace (c : ascii) : bool :=
  let n := N_of_ascii c in
  (n =? 32)%N || ((9 <=? n)%N && (n <=? 13)%N).

Definition tolower (c : ascii) : ascii :=
  let n := N_of_ascii c in
  if ((65 <=? n)%N && (n <=? 90)%N) then ascii_of_N (n + 32) else c.

Fixpoint skip_spaces (s : string) : string :=
  match s with
  | String c s' => if isspace c then skip_spaces s' else s
  | EmptyString => s
  end.

Fixpoint strip_trailing_spaces (s : string) : string :=
  match s with
  | String c s' =>
      match strip_trailing_spaces s' with
      | EmptyString => if isspace c then EmptyString else String c EmptyString
      | r => String c r
      end
  | EmptyString => EmptyString
  end.

(* static void trim_inplace(char *s): drop the leading spaces (memmove),
   then cut the trailing ones *)
Definition trim_inplace (s : string) : string :=
  strip_trailing_spaces (skip_spaces s).

(* static int equals_ci(const char *a, const char *b) *)
Fixpoint equals_ci (a b : string) : bool :=
  match a, b with
  | String ca a', String cb b' =>
      if Ascii.eqb (tolower ca) (tolower cb) then equals_ci a' b' else false
  | EmptyString, EmptyString => true
  | _, _ => false
  end.

Fixpoint str_take (n : nat) (s : string) : string :=
  match n, s with
  | S n', String c s' => String c (str_take n' s')
  | _, _ => EmptyString
  end.

(* snprintf(buf, size, "%s", s): at most size-1 bytes are stored *)
Definition snprintf_s (size : Z) (s : string) : string :=
  str_take (Z.to_nat (size - 1)) s.

(* strcmp(a, b): the sign of the first differing byte, as unsigned chars *)
Definition strcmp (a b : string) : comparison := String.compare a b.

(** ** Device model *)

Record Device : Type := mkDevice {
  id : string;
  location : string;
  ts : Z;
  temp : double;
  has_temp : bool;
  rh : double;
  has_rh : bool
}.

(* static int find_device(const char *id, const char *location):
   the scan of devices[i ..], starting at index i *)
Fixpoint find_device_from (i : Z) (devices : list Device)
    (id0 location0 : string) : Z :=
  match devices with
  | d :: rest =>
      if String.eqb (id d) id0 && String.eqb (location d) location0 then i
      else find_device_from (i + 1) rest id0 location0
  | [] => -1
  end.

Definition find_device (devices : list Device) (id0 location0 : string) : Z :=
  find_device_from 0 devices id0 location0.

(* static int add_device(const char *id, const char *location):
   the index of the new entry (or -1) and the table after the call *)
Definition add_device (devices : list Device) (id0 location0 : string)
    : Z * list Device :=
  let device_count := Z.of_nat (length devices) in
  if device_count >=? MAX_DEVICES then (-1, devices)
  else (device_count,
        (devices ++ [ {| id := snprintf_s MAX_ID_LEN id0;
                         location := snprintf_s MAX_LOC_LEN location0;
                         ts := 0;
                         temp := DFin 0; has_temp := false;
                         rh := DFin 0; has_rh := false |} ])%list).

(* static int excluded_location(const char *loc) *)
Definition excluded_location (loc : string) : bool := equals_ci loc "attic".

(** The values [process_json_line] has decoded when it reaches the
    registry update: [id_buf], [loc_buf], [ts], [temp], [has_temp], [rh],
    [has_rh]. *)
Record Reading : Type := mkReading {
  r_id : string;
  r_location : string;
  r_ts : Z;
  r_temp : double;
  r_has_temp : bool;
  r_rh : double;
  r_has_rh : bool
}.

Definition json_string (j : option json_t) : option string :=
  match j with Some (JString s) => Some s | _ => None end.

(* json_is_number / json_number_value *)
Definition json_number (j : option json_t) : option double :=
  match j with
  | Some (JInteger i) => Some (d_of_int i)
  | Some (JReal x) => Some x
  | _ => None
  end.

(* "if (json_is_integer(j)) ts = ...; else if (json_is_real(j)) ts = ..." *)
Definition json_ts (j : option json_t) (ts0 : Z) : Z :=
  match j with
  | Some (JInteger i) => i
  | Some (JReal x) => d_to_ll x
  | _ => ts0
  end.

Definition first_some {A} (a b : option A) : option A :=
  match a with Some _ => a | None => b end.

(* process_json_line, "// id": the identifier before normalisation *)
Definition json_id (root : gmap string json_t) : option string :=
  first_some (json_string (root !! "id")) (json_string (root !! "device_id")).

(* process_json_line, "// location" and "// normalize id/location":
   the contents of loc_buf after trim_inplace *)
Definition decoded_location (root : gmap string json_t) : string :=
  let location0 :=
    match first_some (json_string (root !! "location"))
                     (json_string (root !! "room")) with
    | Some l => l
    | None => "unknown"
    end in
  trim_inplace (snprintf_s MAX_LOC_LEN location0).

(* process_json_line, "// timestamp (try several fields)" *)
Definition decoded_ts (now : Z) (root : gmap string json_t) : Z :=
  let ts0 := json_ts (root !! "ts") 0 in
  let ts1 := if ts0 =? 0 then json_ts (root !! "time") ts0 else ts0 in
  if ts1 =? 0 then now else ts1.

(* process_json_line, from "// id" to "trim_inplace(loc_buf)" *)
Definition decode (now : Z) (root : gmap string json_t) : option Reading :=
  match json_id root with
  | None => None
  | Some id0 =>
      let t := first_some (json_number (root !! "temp"))
                 (first_some (json_number (root !! "temperature"))
                             (json_number (root !! "temperature_c"))) in
      let h := first_some (json_number (root !! "humidity"))
                          (json_number (root !! "humidity_pct")) in
      Some {| r_id := trim_inplace (snprintf_s MAX_ID_LEN id0);
              r_location := decoded_location root;
              r_ts := decoded_ts now root;
              r_temp := default DNaN t; r_has_temp := bool_decide (is_Some t);
              r_rh := default DNaN h; r_has_rh := bool_decide (is_Some h) |}
  end.

(* devices[idx].ts = ts; if (has_temp){...} if (has_rh){...} *)
Definition store (r : Reading) (d : Device) : Device :=
  {| id := id d;
     location := location d;
     ts := r_ts r;
     temp := if r_has_temp r then r_temp r else temp d;
     has_temp := if r_has_temp r then true else has_temp d;
     rh := if r_has_rh r then r_rh r else rh d;
     has_rh := if r_has_rh r then true else has_rh d |}.

(* process_json_line, "if (!excluded_location(loc_buf)){ ... }" *)
Definition upsert (r : Reading) (devices : list Device) : list Device :=
  if negb (excluded_location (r_location r)) then
    let idx := find_device devices (r_id r) (r_location r) in
    let '(idx, devices) :=
      if idx <? 0 then add_device devices (r_id r) (r_location r)
      else (idx, devices) in
    if idx >=? 0 then alter (store r) (Z.to_nat idx) devices
    else devices
  else devices.

Section Decoder.
(* json_loads(line, 0, &err) of jansson: None is the NULL of a line that
   does not parse *)
Variable json_loads : string -> option json_t.

(* process_json_line up to the registry update: the Reading of a line *)
Definition decode_line (now : Z) (line : string) : option Reading :=
  match json_loads line with
  | Some (JObject root) => decode now root
  | _ => None
  end.

(* static void process_json_line(const char *line) *)
Definition process_json_line (now : Z) (line : string)
    (devices : list Device) : list Device :=
  match decode_line now line with
  | Some r => upsert r devices
  | None => devices
  end.

(* the drain loop of main applied to the lines popped from the queue,
   each with the clock reading at its call *)
Definition process_lines (lines : list (Z * string))
    (devices : list Device) : list Device :=
  fold_left (fun devs '(now, line) => process_json_line now line devs)
            lines devices.
End Decoder.

(** ** Line queue (reader thread to UI loop)

    The mutex makes each call atomic; a call is one step of the model. *)

Record LineQueue : Type := mkQueue {
  buf : list (option string);   (* char **buf, NULL is None *)
  cap : Z;
  head : Z;
  tail : Z
}.

(* static LineQueue* q_create(int cap): calloc zeroes the slots and indices *)
Definition q_create (cap0 : Z) : LineQueue :=
  {| buf := replicate (Z.to_nat cap0) None; cap := cap0; head := 0; tail := 0 |}.

(* static void q_push(LineQueue *q, const char *line) *)
Definition q_push (q : LineQueue) (line : string) : LineQueue :=
  let next := Z.rem (tail q + 1) (cap q) in
  let q1 :=
    if next =? head q then
      {| buf := <[Z.to_nat (head q) := None]> (buf q);
         cap := cap q;
         head := Z.rem (head q + 1) (cap q);
         tail := tail q |}
    else q in
  {| buf := <[Z.to_nat (tail q1) := Some line]> (buf q1);
     cap := cap q1;
     head := head q1;
     tail := next |}.

(* static char* q_pop_nowait(LineQueue *q) *)
Definition q_pop_nowait (q : LineQueue) : option string * LineQueue :=
  if head q =? tail q then (None, q)
  else
    let s := default None (buf q !! Z.to_nat (head q)) in
    (s, {| buf := <[Z.to_nat (head q) := None]> (buf q);
           cap := cap q;
           head := Z.rem (head q + 1) (cap q);
           tail := tail q |}).

(* the drain loop of main: "for (;;){ line = q_pop_nowait(q);
   if (!line) break; ... }", at most [fuel] iterations *)
Fixpoint q_drain (fuel : nat) (q : LineQueue) : list string * LineQueue :=
  match fuel with
  | O => ([], q)
  | S fuel' =>
      match q_pop_nowait q with
      | (Some line, q') =>
          let '(lines, q'') := q_drain fuel' q' in (line :: lines, q'')
      | (None, q') => ([], q')
      end
  end.

Definition q_push_all (q : LineQueue) (lines : list string) : LineQueue :=
  fold_left q_push lines q.

(** ** Dew point (Magnus-Tetens, Celsius) *)

Local Open Scope R_scope.

(* static double dewpoint_c(double t_c, double rh_pct) *)
Definition dewpoint_c (t_c rh_pct : double) : double :=
  if negb (is_finite t_c) || negb (is_finite rh_pct)
     || d_le rh_pct (DFin 0.0) || d_gt rh_pct (DFin 100.0)
  then DNaN
  else
    let a := DFin 17.62 in
    let b := DFin 243.12 in
    let gamma := d_add (d_log (d_div rh_pct (DFin 100.0)))
                       (d_div (d_mul a t_c) (d_add b t_c)) in
    d_div (d_mul b gamma) (d_sub a gamma).

Local Close Scope R_scope.

(** ** Averages *)

Record Sums : Type := mkSums {
  sum_in_t : double; sum_in_h : double; nin_t : Z; nin_h : Z; cin : Z;
  sum_g_t : double;  sum_g_h : double;  ng_t : Z;  ng_h : Z;  cg : Z
}.

Definition sums0 : Sums :=
  {| sum_in_t := DFin 0; sum_in_h := DFin 0; nin_t := 0; nin_h := 0; cin := 0;
     sum_g_t := DFin 0;  sum_g_h := DFin 0;  ng_t := 0;  ng_h := 0;  cg := 0 |}.

(* the body of the loop of compute_averages after the freshness test; the
   counters stay below device_count <= MAX_DEVICES *)
Definition accumulate (s : Sums) (d : Device) : Sums :=
  let is_garden := equals_ci (location d) "garden" in
  if is_garden then
    {| sum_in_t := sum_in_t s; sum_in_h := sum_in_h s;
       nin_t := nin_t s; nin_h := nin_h s; cin := cin s;
       sum_g_t := if has_temp d then d_add (sum_g_t s) (temp d) else sum_g_t s;
       sum_g_h := if has_rh d then d_add (sum_g_h s) (rh d) else sum_g_h s;
       ng_t := if has_temp d then ng_t s + 1 else ng_t s;
       ng_h := if has_rh d then ng_h s + 1 else ng_h s;
       cg := if has_temp d || has_rh d then cg s + 1 else cg s |}
  else
    {| sum_in_t := if has_temp d then d_add (sum_in_t s) (temp d) else sum_in_t s;
       sum_in_h := if has_rh d then d_add (sum_in_h s) (rh d) else sum_in_h s;
       nin_t := if has_temp d then nin_t s + 1 else nin_t s;
       nin_h := if has_rh d then nin_h s + 1 else nin_h s;
       cin := if has_temp d || has_rh d then cin s + 1 else cin s;
       sum_g_t := sum_g_t s; sum_g_h := sum_g_h s;
       ng_t := ng_t s; ng_h := ng_h s; cg := cg s |}.

(* one iteration: "if (d->ts < cutoff) continue; ..." *)
Definition average_step (cutoff : Z) (s : Sums) (d : Device) : Sums :=
  if ts d <? cutoff then s else accumulate s d.

Record Averages : Type := mkAverages {
  in_t : double; in_h : double; in_n : Z;
  g_t : double;  g_h : double;  g_n : Z
}.

(* "n ? (sum/n) : NAN" *)
Definition mean_or_nan (sum : double) (n : Z) : double :=
  if n =? 0 then DNaN else d_div sum (d_of_int n).

(* long long cutoff = now_i() - g_stale_secs; *)
Definition cutoff_of (now g_stale_secs : Z) : Z := wrap64 (now - g_stale_secs).

(* the end of compute_averages: "*in_t = nin_t? (sum_in_t/nin_t) : NAN;" ... *)
Definition finish_averages (s : Sums) : Averages :=
  {| in_t := mean_or_nan (sum_in_t s) (nin_t s);
     in_h := mean_or_nan (sum_in_h s) (nin_h s);
     in_n := cin s;
     g_t := mean_or_nan (sum_g_t s) (ng_t s);
     g_h := mean_or_nan (sum_g_h s) (ng_h s);
     g_n := cg s |}.

(* static void compute_averages(...) *)
Definition compute_averages (now g_stale_secs : Z) (devices : list Device)
    : Averages :=
  let cutoff := cutoff_of now g_stale_secs in
  finish_averages (fold_left (average_step cutoff) devices sums0).

(** ** Table *)

(* attr_t bits of ncurses.h *)
Definition A_NORMAL : Z := 0.
Definition A_DIM : Z := Z.shiftl 1 20.
Definition A_BOLD : Z := Z.shiftl 1 21.
Definition COLOR_PAIR (n : Z) : Z := Z.land (Z.shiftl n 8) (Z.shiftl 255 8).
Definition CP_WARN : Z := 1.

(* static int cmp_rowref_by_id(const void *a, const void *b) *)
Definition cmp_rowref_by_id (a b : Device) : comparison :=
  match strcmp (id a) (id b) with
  | Eq => strcmp (location a) (location b)
  | c => c
  end.

Fixpoint sort_insert (d : Device) (rows : list Device) : list Device :=
  match rows with
  | [] => [d]
  | r :: rest =>
      match cmp_rowref_by_id d r with
      | Gt => r :: sort_insert d rest
      | _ => d :: rows
      end
  end.

(* qsort(rows, rc, sizeof(RowRef), cmp_rowref_by_id): libc fixes no
   algorithm; an insertion sort stands for it *)
Definition qsort (rows : list Device) : list Device :=
  fold_right sort_insert [] rows.

(* draw_table, "collect + sort (exclude attic)": rows[0 .. rc) *)
Definition collect_rows (devices : list Device) : list Device :=
  qsort (filter (fun d => excluded_location (location d) = false) devices).

(* what draw_table puts in one row; the text of the cells is the printf
   formatting of these values *)
Record Row : Type := mkRow {
  row_dev : Device;
  row_age : Z;
  row_stale : bool;
  row_is_garden : bool;
  row_dp : double;
  row_attr : Z;
  row_rh_attr : Z
}.

(* the body of the row loop of draw_table *)
Definition draw_row (now cutoff : Z) (g_has_colors : bool) (d : Device) : Row :=
  let age := imax 0 (wrap32 (wrap64 (now - ts d))) in
  let stale := ts d <? cutoff in
  let is_garden := equals_ci (location d) "garden" in
  let dp := if has_temp d && has_rh d then dewpoint_c (temp d) (rh d) else DNaN in
  let row_attr0 := if stale then A_DIM else A_NORMAL in
  let rh_alert :=
    negb is_garden && has_rh d
    && (d_lt (rh d) (DFin 30) || d_gt (rh d) (DFin 60)) in
  let rh_attr :=
    if g_has_colors && rh_alert
    then Z.lor (Z.lor (Z.land row_attr0 (Z.lnot A_DIM)) (COLOR_PAIR CP_WARN)) A_BOLD
    else row_attr0 in
  {| row_dev := d; row_age := age; row_stale := stale;
     row_is_garden := is_garden; row_dp := dp;
     row_attr := row_attr0; row_rh_attr := rh_attr |}.

Record TableView : Type := mkTableView {
  tv_rc : Z;              (* number of table rows *)
  tv_max_rows : Z;        (* rows that fit under the header *)
  tv_start : Z;           (* index of the first row drawn *)
  tv_rows : list Row;     (* the rows drawn, top to bottom *)
  tv_foot_first : Z;      (* footer: "showing first-last" *)
  tv_foot_last : Z
}.

(* static void draw_table(int y, int x, int h, int w, int scroll); the
   column widths and x, w only decide how cells are clipped *)
Definition draw_table (now g_stale_secs : Z) (g_has_colors : bool)
    (devices : list Device) (y h scroll : Z) : TableView :=
  let inner_top := y + 1 in
  let inner_bottom := y + h - 2 in
  let inner_h := imax 1 (inner_bottom - inner_top + 1) in
  let rows := collect_rows devices in
  let rc := Z.of_nat (length rows) in
  let max_rows := inner_h - 1 in
  let start := scroll in
  let start := if start <? 0 then 0 else start in
  let start := if start >? rc - max_rows then imax 0 (rc - max_rows) else start in
  let cutoff := cutoff_of now g_stale_secs in
  let stop := imin (start + max_rows) rc in
  {| tv_rc := rc;
     tv_max_rows := max_rows;
     tv_start := start;
     tv_rows := map (draw_row now cutoff g_has_colors)
                    (take (Z.to_nat (stop - start)) (drop (Z.to_nat start) rows));
     tv_foot_first := if rc =? 0 then 0 else start + 1;
     tv_foot_last := stop |}.

(** ** Main loop: configuration and keys *)



Definition LONG_MAX : Z := 9223372036854775807.
Definition LONG_MIN : Z := -9223372036854775808.




(* key codes of ncurses.h and of ASCII *)
Definition KEY_DOWN : Z := 258.
Definition KEY_UP : Z := 259.
Definition KEY_NPAGE : Z := 338.
Definition KEY_PPAGE : Z := 339.
Definition ch_q : Z := 113.
Definition ch_Q : Z := 81.
Definition ch_j : Z := 106.
Definition ch_k : Z := 107.

Record Ui : Type := mkUi { scroll : Z; running : bool }.

(* main, "// input": the effect of the key returned by getch() *)
Definition handle_key (ui : Ui) (ch : Z) : Ui :=
  if (ch =? ch_q) || (ch =? ch_Q) then {| scroll := scroll ui; running := false |}
  else if (ch =? KEY_DOWN) || (ch =? ch_j)
  then {| scroll := wrap32 (scroll ui + 1); running := running ui |}
  else if (ch =? KEY_UP) || (ch =? ch_k)
  then {| scroll := imax 0 (wrap32 (scroll ui - 1)); running := running ui |}
  else if ch =? KEY_NPAGE
  then {| scroll := wrap32 (scroll ui + 10); running := running ui |}
  else if ch =? KEY_PPAGE
  then {| scroll := imax 0 (wrap32 (scroll ui - 10)); running := running ui |}
  else ui.

(* the frames of "while (running)", one key per frame *)
Fixpoint run_keys (ui : Ui) (keys : list Z) : Ui :=
  match keys with
  | [] => ui
  | ch :: rest => if running ui then run_keys (handle_key ui ch) rest else ui
  end.

(* int scroll = 0; int running = 1; *)
Definition ui0 : Ui := {| scroll := 0; running := true |}.

(** ** Notions of the specification *)

(** The most recent [k] elements of [l]. *)
Definition keep_last {A} (k : nat) (l : list A) : list A :=
  drop (length l - k) l.

(** [q] holds the lines [l], oldest first: they sit in the slots
    [head], [head+1], ... (modulo [cap]) up to [tail]. *)
Definition q_holds (q : LineQueue) (l : list string) : Prop :=
  1 <= cap q /\
  length (buf q) = Z.to_nat (cap q) /\
  0 <= head q < cap q /\
  0 <= tail q < cap q /\
  Z.of_nat (length l) = (tail q - head q) mod cap q /\
  forall (i : nat) (x : string),
    l !! i = Some x ->
    buf q !! Z.to_nat ((head q + Z.of_nat i) mod cap q) = Some (Some x).

(** Lower-casing of a whole string. *)
Fixpoint lower (s : string) : string :=
  match s with
  | String c s' => String (tolower c) (lower s')
  | EmptyString => EmptyString
  end.

(** No entry of the registry has an excluded location. *)
Definition registry_ok (devices : list Device) : Prop :=
  Forall (fun d => excluded_location (location d) = false) devices.

(** The location decoded from a line is excluded. *)
Definition is_attic_line (json_loads : string -> option json_t)
    (line : string) : bool :=
  match json_loads line with
  | Some (JObject root) => excluded_location (decoded_location root)
  | _ => false
  end.

(** The key of an entry, and the registry invariant "at most one entry
    per key". *)
Definition has_key (id0 location0 : string) (d : Device) : Prop :=
  id d = id0 /\ location d = location0.

Definition keys_unique (devices : list Device) : Prop :=
  NoDup (map (fun d => (id d, location d)) devices).

(** Freshness and classes of the aggregator. *)
Definition fresh (now W : Z) (d : Device) : bool := now - W <=? ts d.

Definition is_garden (d : Device) : bool := equals_ci (location d) "garden".

Definition is_indoor (d : Device) : bool :=
  negb (is_garden d) && negb (excluded_location (location d)).

(** The mean of the values [l], undefined (NaN) when there is none: the
    values are added in order to 0.0 and the sum is divided by their
    number. *)
Definition mean_of (l : list double) : double :=
  match l with
  | [] => DNaN
  | _ => d_div (fold_left d_add l (DFin 0)) (d_of_int (Z.of_nat (length l)))
  end.

Definition temps_of (now W : Z) (class : Device -> bool)
    (devices : list Device) : list double :=
  map temp (filter (fun d => fresh now W d && class d && has_temp d = true)
                   devices).

Definition rhs_of (now W : Z) (class : Device -> bool)
    (devices : list Device) : list double :=
  map rh (filter (fun d => fresh now W d && class d && has_rh d = true)
                 devices).

Definition count_of (now W : Z) (class : Device -> bool)
    (devices : list Device) : Z :=
  Z.of_nat (length (filter (fun d => fresh now W d && class d
                                     && (has_temp d || has_rh d) = true)
                           devices)).

(** The sums and counters after the fresh entries of [devices] were
    accumulated, field by field. *)
Definition sums_agree (now W : Z) (devices : list Device) (s s' : Sums) : Prop :=
  sum_in_t s' = fold_left d_add (temps_of now W is_indoor devices) (sum_in_t s) /\
  sum_in_h s' = fold_left d_add (rhs_of now W is_indoor devices) (sum_in_h s) /\
  nin_t s' = nin_t s + Z.of_nat (length (temps_of now W is_indoor devices)) /\
  nin_h s' = nin_h s + Z.of_nat (length (rhs_of now W is_indoor devices)) /\
  cin s' = cin s + count_of now W is_indoor devices /\
  sum_g_t s' = fold_left d_add (temps_of now W is_garden devices) (sum_g_t s) /\
  sum_g_h s' = fold_left d_add (rhs_of now W is_garden devices) (sum_g_h s) /\
  ng_t s' = ng_t s + Z.of_nat (length (temps_of now W is_garden devices)) /\
  ng_h s' = ng_h s + Z.of_nat (length (rhs_of now W is_garden devices)) /\
  cg s' = cg s + count_of now W is_garden devices.

Local Open Scope R_scope.

(** The Magnus-Tetens formula over the reals. *)
Definition magnus_gamma (t r : R) : R :=
  ln (r / 100) + (17.62 * t) / (243.12 + t).

Definition magnus (t r : R) : R :=
  243.12 * magnus_gamma t r / (17.62 - magnus_gamma t r).

(** The dew point as the specification words it: undefined ([None]) if
    [r <= 0], [r > 100] or an input is not finite, else the formula. *)
Definition dewpoint_spec (t r : double) : option R :=
  match t, r with
  | DFin x, DFin y =>
      if Rleb y 0 || Rltb 100 y then None else Some (magnus x y)
  | _, _ => None
  end.

(** What [is_finite] refuses: NaN, the infinities and the magnitudes from
    1e300 on. *)
Definition out_of_range (a : double) : Prop :=
  match a with
  | DFin x => x <= -1e300 \/ 1e300 <= x
  | _ => True
  end.

Local Close Scope R_scope.

(** A loader for a few sample lines, for the examples. *)
Definition dq : string := String (ascii_of_nat 34) EmptyString.
Definition quoted (s : string) : string := (dq ++ s ++ dq)%string.

Definition attic_line : string :=
  ("{" ++ quoted "id" ++ ":" ++ quoted "A1" ++ ","
       ++ quoted "location" ++ ":" ++ quoted " Attic" ++ ","
       ++ quoted "temp" ++ ":21}")%string.

Definition sample_loads (line : string) : option json_t :=
  if String.eqb line attic_line
  then Some (JObject {[ "id" := JString "A1";
                        "location" := JString " Attic";
                        "temp" := JInteger 21 ]})
  else if String.eqb line "{}" then Some (JObject ∅)
  else if String.eqb line "[1,2]" then Some (JArray [JInteger 1; JInteger 2])
  else None.

(** ** Further parts of the program *)

Fixpoint str_drop (n : nat) (s : string) : string :=
  match n, s with
  | S n', String _ s' => str_drop n' s'
  | _, _ => s
  end.

Fixpoint spaces (n : nat) : string :=
  match n with
  | O => EmptyString
  | S n' => String " " (spaces n')
  end.

(* one call of mvaddnstr(y, x, s, n) under attron(attr): the bytes handed
   to curses and where *)
Record Draw : Type := mkDraw {
  at_y : Z;
  at_x : Z;
  text : string;
  with_attr : Z
}.

(* static void safe_addstr_xy(int y, int x, const char *s, attr_t attr) on
   a screen of H rows and W columns: the call of mvaddnstr it makes, if
   any.  A NULL s is None.  For x < 0 the pointer is advanced by -x, which
   is defined only while -x <= strlen(s). *)
Definition safe_addstr_xy (H W y x : Z) (s : option string) (attr : Z)
    : option Draw :=
  match s with
  | None => None
  | Some s0 =>
      if (y <? 0) || (y >=? H) || (x >=? W) then None
      else
        let '(s1, x1) :=
          if x <? 0 then (str_drop (Z.to_nat (- x)) s0, 0) else (s0, x) in
        let maxlen := W - x1 in
        if maxlen <=? 0 then None
        else Some {| at_y := y; at_x := x1;
                     text := str_take (Z.to_nat maxlen) s1;
                     with_attr := attr |}
  end.

Definition TABLE_MIN_H : Z := 8.
Definition PANEL_MIN_H : Z := 3.
Definition PANEL_MIN_W : Z := 24.

(* static void draw_box(int y, int x, int h, int w, const char *title):
   the height and width of the frame it draws, None when it returns
   before drawing *)
Definition draw_box_size (H W y x h w : Z) : option (Z * Z) :=
  if (y >=? H) || (x >=? W) then None
  else
    let h1 := imax PANEL_MIN_H (imin h (H - y)) in
    let w1 := imax 4 (imin w (W - x)) in
    if (h1 <? PANEL_MIN_H) || (w1 <? 4) then None else Some (h1, w1).

(* draw_table: the preferred widths of Room, Device, Temp, RH, DewPt, Age *)
Definition cols0 : list Z := [14; 18; 10; 7; 11; 8].

(* "total = 0; for (...) total += cols[i].w; total += ncol-1;" *)
Definition cols_total (cols : list Z) : Z := fold_left Z.add cols 0 + (6 - 1).

(* draw_table: int inner_w = imax(20, inner_right - inner_left + 1) *)
Definition table_inner_w (x w : Z) : Z :=
  let inner_left := x + 1 in
  let inner_right := x + w - 2 in
  imax 20 (inner_right - inner_left + 1).

(* draw_table, "if (total > inner_w){ ... }": the widths after fitting *)
Definition fit_columns (inner_w : Z) : list Z :=
  let total := cols_total cols0 in
  if total >? inner_w then
    let over := total - inner_w in
    let take_room := imin (Z.quot over 2) (imax 0 (14 - 8)) in
    let take_dev := imin (over - take_room) (imax 0 (18 - 10)) in
    [14 - take_room; 18 - take_dev; 10; 7; 11; 8]
  else cols0.

(* draw_table: the column x of each header and cell,
   "cx = inner_left; ... cx += cols[i].w + 1" *)
Fixpoint col_starts (cx : Z) (cols : list Z) : list Z :=
  match cols with
  | [] => []
  | w :: rest => cx :: col_starts (cx + w + 1) rest
  end.

(* printf "%-*.*s" with width and precision w: at most w bytes of s,
   padded with spaces on the right to w bytes *)
Definition fmt_left (w : Z) (s : string) : string :=
  let t := str_take (Z.to_nat w) s in
  (t ++ spaces (Z.to_nat w - String.length t))%string.

(* draw_table: snprintf(room, sizeof(room), "%-*.*s", cols[0].w, cols[0].w,
   d->location) and the same for dev with cols[1].w and d->id *)
Definition room_cell (cols : list Z) (d : Device) : string :=
  snprintf_s 64 (fmt_left (nth 0 cols 0) (location d)).

Definition dev_cell (cols : list Z) (d : Device) : string :=
  snprintf_s 128 (fmt_left (nth 1 cols 0) (id d)).

(* a numeric field of a panel or a row: the number (printed with a fixed
   number of decimals) or the placeholder *)
Inductive Field : Type :=
| FNumber (x : double)
| FPlaceholder.

(* "if (is_finite(v)) snprintf(..., v); else snprintf(..., "--")" of
   draw_averages_bar, and the same test on dp in draw_table *)
Definition finite_field (v : double) : Field :=
  if is_finite v then FNumber v else FPlaceholder.

(* draw_table: "if (d->has_temp) snprintf(tbuf, ..., d->temp);
   else snprintf(tbuf, ..., "-")", and the same for rh *)
Definition present_field (present : bool) (v : double) : Field :=
  if present then FNumber v else FPlaceholder.

(* the Temp, RH and DewPt fields of a table row *)
Definition row_fields (r : Row) : Field * Field * Field :=
  let d := row_dev r in
  (present_field (has_temp d) (temp d),
   present_field (has_rh d) (rh d),
   finite_field (row_dp r)).

(* static void draw_averages_bar(...): the Temp and RH fields, the device
   count and the window shown *)
Definition draw_averages_bar (t_avg h_avg : double) (cnt g_stale_secs : Z)
    : Field * Field * Z * Z :=
  (finite_field t_avg, finite_field h_avg, cnt, g_stale_secs).

(* main: the geometry of one frame on a terminal of H rows, W columns *)
Record Layout : Type := mkLayout {
  panel_w : Z;     (* width asked for the Inside panel, at x = 0 *)
  garden_x : Z;    (* x of the Garden panel *)
  garden_w : Z;    (* width asked for the Garden panel *)
  tbl_y : Z;
  tbl_h : Z
}.

Definition main_layout (H W : Z) : Layout :=
  let pw := imax PANEL_MIN_W (Z.quot (W - 3) 2) in
  let ty := 1 + 3 + 1 in
  {| panel_w := pw;
     garden_x := pw + 2;
     garden_w := W - (pw + 2);
     tbl_y := ty;
     tbl_h := imax TABLE_MIN_H (H - ty - 1) |}.

(* main, one frame: the two panels and the table drawn from the registry *)
Definition main_panels (now g_stale_secs : Z) (devices : list Device)
    : (Field * Field * Z * Z) * (Field * Field * Z * Z) :=
  let a := compute_averages now g_stale_secs devices in
  (draw_averages_bar (in_t a) (in_h a) (in_n a) g_stale_secs,
   draw_averages_bar (g_t a) (g_h a) (g_n a) g_stale_secs).

Definition main_table (now g_stale_secs : Z) (g_has_colors : bool)
    (devices : list Device) (H W scroll : Z) : TableView :=
  let l := main_layout H W in
  draw_table now g_stale_secs g_has_colors devices (tbl_y l) (tbl_h l) scroll.

Definition MAX_LINE_LEN : Z := 8192.

(* static void sleep_ms(int ms): tv_sec and tv_nsec handed to nanosleep *)
Definition sleep_ms (ms : Z) : Z * Z :=
  (Z.quot ms 1000, Z.rem ms 1000 * 1000000).

Definition newline : ascii := ascii_of_nat 10.

(* fgets(line, size, stdin) while bytes are left: at most k = size-1
   bytes are stored, the first newline included and ending the read; the
   bytes stored and the bytes left on the stream *)
Fixpoint fgets_bytes (k : nat) (input : string) : string * string :=
  match k, input with
  | S k', String c rest =>
      if Ascii.eqb c newline then (String c EmptyString, rest)
      else let '(l, r) := fgets_bytes k' rest in (String c l, r)
  | _, _ => (EmptyString, input)
  end.

(* fgets returns NULL (None) when no byte is left *)
Definition fgets (size : Z) (input : string) : option (string * string) :=
  match input with
  | EmptyString => None
  | _ => Some (fgets_bytes (Z.to_nat (size - 1)) input)
  end.

(* the C string that starts a buffer: the bytes before the first NUL, as
   strdup in q_push copies them *)
Fixpoint c_string (bytes : string) : string :=
  match bytes with
  | String c rest =>
      if Ascii.eqb c zero then EmptyString else String c (c_string rest)
  | EmptyString => EmptyString
  end.

(* static void* reader_main(void *arg): the lines it pushes, in order,
   until fgets finds the input at its end (it then sleeps and retries);
   at most [fuel] reads *)
Fixpoint reader_lines (fuel : nat) (input : string) : list string :=
  match fuel with
  | O => []
  | S fuel' =>
      match fgets MAX_LINE_LEN input with
      | None => []
      | Some (line, rest) => c_string line :: reader_lines fuel' rest
      end
  end.

Definition reader_main (fuel : nat) (input : string) (q : LineQueue)
    : LineQueue :=
  q_push_all q (reader_lines fuel input).

(** A string without the byte [c]. *)
Fixpoint lacks (c : ascii) (s : string) : bool :=
  match s with
  | String c' s' => negb (Ascii.eqb c' c) && lacks c s'
  | EmptyString => true
  end.

(** The text of a line of input: no newline, no NUL. *)
Definition line_text (s : string) : Prop :=
  lacks newline s = true /\ lacks zero s = true.

(** The lines of a stream, each followed by a newline. *)
Fixpoint stream_of (lines : list string) : string :=
  match lines with
  | [] => EmptyString
  | l :: rest => (l ++ String newline (stream_of rest))%string
  end.

(* the producer and the consumer of the queue, in any interleaving *)
Inductive q_op : Type :=
| OpPush (line : string)
| OpPop.

Fixpoint q_run (q : LineQueue) (ops : list q_op)
    : list (option string) * LineQueue :=
  match ops with
  | [] => ([], q)
  | OpPush line :: rest => q_run (q_push q line) rest
  | OpPop :: rest =>
      let '(out, q1) := q_pop_nowait q in
      let '(outs, q2) := q_run q1 rest in
      (out :: outs, q2)
  end.

(** A first-in first-out list of at most [k] lines that drops its oldest
    line when a line is added to a full list. *)
Definition fifo_push (k : nat) (l : list string) (x : string) : list string :=
  if (length l =? k)%nat then drop 1 (l ++ [x])%list else (l ++ [x])%list.

Fixpoint fifo_run (k : nat) (l : list string) (ops : list q_op)
    : list (option string) * list string :=
  match ops with
  | [] => ([], l)
  | OpPush line :: rest => fifo_run k (fifo_push k l line) rest
  | OpPop :: rest =>
      let '(outs, l') := fifo_run k (tl l) rest in
      (hd_error l :: outs, l')
  end.

(** Rows in the order of [cmp_rowref_by_id]: none is above a later one. *)
Definition row_le (a b : Device) : Prop := cmp_rowref_by_id a b <> Gt.

(** The identifier and location of an entry fit their 96-byte fields and
    carry no space on either side. *)
Definition entry_ok (d : Device) : Prop :=
  (String.length (id d) <= 95)%nat /\
  (String.length (location d) <= 95)%nat /\
  trim_inplace (id d) = id d /\
  trim_inplace (location d) = location d.

(** Only spaces. *)
Fixpoint all_spaces (s : string) : bool :=
  match s with
  | String c s' => isspace c && all_spaces s'
  | EmptyString => true
  end.

(** The last byte of a string. *)
Fixpoint last_byte (s : string) : option ascii :=
  match s with
  | EmptyString => None
  | String c EmptyString => Some c
  | String _ s' => last_byte s'
  end.

Definition first_byte (s : string) : option ascii :=
  match s with
  | EmptyString => None
  | String c _ => Some c
  end.

(** ** Dew point over a rounding arithmetic *)

Local Open Scope R_scope.

(** The arithmetic of [double]: the conversion of a decimal literal of
    the source, the four operations and [log] of libm. *)
Record Arith : Type := mkArith {
  f_lit : R -> double;
  f_add : double -> double -> double;
  f_sub : double -> double -> double;
  f_mul : double -> double -> double;
  f_div : double -> double -> double;
  f_log : double -> double
}.

(** The operations on real numbers, without rounding. *)
Definition exact_arith : Arith :=
  {| f_lit := DFin; f_add := d_add; f_sub := d_sub; f_mul := d_mul;
     f_div := d_div; f_log := d_log |}.

(* static double dewpoint_c(double t_c, double rh_pct), over an arithmetic;
   0.0 and 100.0 are doubles, 17.62 and 243.12 are not *)
Definition dewpoint_c_in (A : Arith) (t_c rh_pct : double) : double :=
  if negb (is_finite t_c) || negb (is_finite rh_pct)
     || d_le rh_pct (DFin 0.0) || d_gt rh_pct (DFin 100.0)
  then DNaN
  else
    let a := f_lit A 17.62 in
    let b := f_lit A 243.12 in
    let gamma := f_add A (f_log A (f_div A rh_pct (DFin 100.0)))
                         (f_div A (f_mul A a t_c) (f_add A b t_c)) in
    f_div A (f_mul A b gamma) (f_sub A a gamma).

(** The result [d] of an operation whose exact value is [v]: where [v] is
    of magnitude 1e300 at most, [d] is a number within the relative error
    [eps] of [v], up to 1e-300 (the standard model of floating-point
    arithmetic, with gradual underflow). *)
Definition near (eps v : R) (d : double) : Prop :=
  Rabs v <= 1e300 ->
  exists r : R, d = DFin r /\ Rabs (r - v) <= eps * Rabs v + 1e-300.

(** An arithmetic all of whose operations round within [eps]. *)
Definition rounds (eps : R) (A : Arith) : Prop :=
  (forall x, near eps x (f_lit A x)) /\
  (forall x y, near eps (x + y) (f_add A (DFin x) (DFin y))) /\
  (forall x y, near eps (x - y) (f_sub A (DFin x) (DFin y))) /\
  (forall x y, near eps (x * y) (f_mul A (DFin x) (DFin y))) /\
  (forall x y, y <> 0 -> near eps (x / y) (f_div A (DFin x) (DFin y))) /\
  (forall x, 0 < x -> near eps (ln x) (f_log A (DFin x))).

Local Close Scope R_scope.

(** ** The freshness-window setting, as text *)




(** * Properties *)

(** ** Integers *)

Lemma wrap32_small (z : Z) : INT_MIN <= z <= INT_MAX -> wrap32 z = z.
Proof.
  unfold wrap32, wrap, INT_MIN, INT_MAX. intros Hz.
  change (2 ^ (32 - 1)) with 2147483648. change (2 ^ 32) with 4294967296.
  rewrite Z.mod_small; lia.
Qed.

Lemma wrap64_small (z : Z) : LONG_MIN <= z <= LONG_MAX -> wrap64 z = z.
Proof.
  unfold wrap64, wrap, LONG_MIN, LONG_MAX. intros Hz.
  change (2 ^ (64 - 1)) with 9223372036854775808.
  change (2 ^ 64) with 18446744073709551616.
  rewrite Z.mod_small; lia.
Qed.

Lemma wrap32_range (z : Z) : INT_MIN <= wrap32 z <= INT_MAX.
Proof.
  unfold wrap32, wrap, INT_MIN, INT_MAX.
  change (2 ^ (32 - 1)) with 2147483648. change (2 ^ 32) with 4294967296.
  pose proof (Z.mod_pos_bound (z + 2147483648) 4294967296). lia.
Qed.

Lemma imax_max (a b : Z) : imax a b = Z.max a b.
Proof. unfold imax. destruct (Z.gtb_spec a b); lia. Qed.

Lemma imin_min (a b : Z) : imin a b = Z.min a b.
Proof. unfold imin. destruct (Z.ltb_spec a b); lia. Qed.

(** ** Scrolling *)

Lemma handle_key_scroll (ui : Ui) (ch : Z) :
  0 <= scroll ui -> scroll ui + 10 <= INT_MAX ->
  0 <= scroll (handle_key ui ch) <= scroll ui + 10.
Proof.
  intros H0 Hmax. unfold handle_key, INT_MAX in *.
  repeat match goal with
         | |- context [if ?b then _ else _] => destruct b
         end; cbn [scroll]; rewrite ?imax_max;
    rewrite ?wrap32_small by (unfold INT_MIN, INT_MAX; lia); lia.
Qed.

Lemma run_keys_scroll (keys : list Z) (ui : Ui) :
  0 <= scroll ui ->
  scroll ui + 10 * Z.of_nat (length keys) <= INT_MAX ->
  0 <= scroll (run_keys ui keys) <= scroll ui + 10 * Z.of_nat (length keys).
Proof.
  revert ui. induction keys as [|ch keys IH]; intros ui H0 Hmax.
  - cbn in *. lia.
  - cbn [run_keys]. rewrite length_cons, Nat2Z.inj_succ in Hmax.
    rewrite length_cons, Nat2Z.inj_succ.
    destruct (running ui); [|lia].
    pose proof (handle_key_scroll ui ch H0 ltac:(lia)) as Hk.
    specialize (IH (handle_key ui ch) ltac:(lia) ltac:(lia)). lia.
Qed.

Lemma draw_table_start (now W : Z) (colors : bool) (devices : list Device)
    (y h s : Z) :
  let tv := draw_table now W colors devices y h s in
  0 <= tv_max_rows tv /\
  0 <= tv_start tv <= Z.max 0 (tv_rc tv - tv_max_rows tv).
Proof.
  unfold draw_table; cbn [tv_max_rows tv_start tv_rc].
  rewrite !imax_max.
  set (rc := Z.of_nat (length (collect_rows devices))).
  assert (0 <= rc) by (unfold rc; lia).
  destruct (Z.ltb_spec s 0);
    match goal with |- context [?a >? ?b] => destruct (Z.gtb_spec a b) end;
    lia.
Qed.

(** C1, as stated, fails: one "scroll down" on an empty table leaves the
    scroll state at 1, above [max 0 (total_rows - visible_rows) = 0]. *)
Lemma scroll_state_unclamped :
  let ui := run_keys ui0 [KEY_DOWN] in
  let tv := draw_table 0 900 false [] 5 8 (scroll ui) in
  ~ (0 <= scroll ui <= Z.max 0 (tv_rc tv - tv_max_rows tv)).
Proof. vm_compute. intros [_ H]. apply H. reflexivity. Qed.

(** C1, amended: after any sequence of keys the row offset at which
    [draw_table] draws (the scroll state clamped there) lies in
    [[0, max 0 (total_rows - visible_rows)]]; the scroll state itself is
    only kept from going below 0, and grows by the scroll-down commands
    (up to 10 per key while the [int] does not overflow). *)
Theorem scroll_offset_drawn_clamped (now W : Z) (colors : bool)
    (devices : list Device) (y h : Z) (keys : list Z) :
  let ui := run_keys ui0 keys in
  let tv := draw_table now W colors devices y h (scroll ui) in
  0 <= tv_start tv <= Z.max 0 (tv_rc tv - tv_max_rows tv) /\
  (10 * Z.of_nat (length keys) <= INT_MAX ->
   0 <= scroll ui <= 10 * Z.of_nat (length keys)).
Proof.
  intros ui tv. split.
  - apply draw_table_start.
  - intros Hlen. apply (run_keys_scroll keys ui0); cbn; lia.
Qed.

Lemma scroll_offset_drawn_clamped_witness :
  let keys := [KEY_DOWN; ch_j; KEY_NPAGE; ch_k; KEY_PPAGE; KEY_NPAGE] in
  let ui := run_keys ui0 keys in
  let tv := draw_table 0 900 false [] 5 8 (scroll ui) in
  0 <= tv_start tv <= Z.max 0 (tv_rc tv - tv_max_rows tv) /\
  0 <= scroll ui <= 10 * Z.of_nat (length keys).
Proof.
  intros keys ui tv.
  destruct (scroll_offset_drawn_clamped 0 900 false [] 5 8 keys) as [H1 H2].
  split; [exact H1 | apply H2; vm_compute; discriminate].
Defined.

(** ** Age of a row *)

Lemma row_age_nonneg (now cutoff : Z) (colors : bool) (d : Device) :
  0 <= row_age (draw_row now cutoff colors d).
Proof. cbn [draw_row row_age]. rewrite imax_max. lia. Qed.

Lemma row_age_in_int_range (now cutoff : Z) (colors : bool) (d : Device) :
  INT_MIN <= now - ts d <= INT_MAX ->
  row_age (draw_row now cutoff colors d) = Z.max 0 (now - ts d).
Proof.
  intros H. cbn [draw_row row_age]. rewrite imax_max.
  rewrite wrap64_small by (unfold LONG_MIN, LONG_MAX, INT_MIN, INT_MAX in *; lia).
  rewrite wrap32_small by exact H. reflexivity.
Qed.

(** C10 at a failing input: the line
    {"id":"A1","location":"hall","ts":1702000000000} (a time in
    milliseconds) is processed and the table is drawn with the clock at
    1700000000.  [now - ts] goes through the [int] parameters of [imax]:
    the age drawn is 507049216, where [max 0 (now - ts)] is 0. *)
Theorem row_age_narrowed_to_int :
  let now := 1700000000 in
  let root : gmap string json_t :=
    {[ "id" := JString "A1"; "location" := JString "hall";
       "ts" := JInteger 1702000000000 ]} in
  exists r : Reading,
    decode now root = Some r /\
    let devices := upsert r [] in
    map ts devices = [1702000000000] /\
    map row_age (tv_rows (draw_table now 900 true devices 5 8 0))
      = [507049216] /\
    map (fun d => Z.max 0 (now - ts d)) devices = [0].
Proof.
  intros now root. eexists. split; [reflexivity|].
  cbv zeta. repeat split; reflexivity.
Qed.

(** ** The freshness-window setting *)
















(** ** Line queue *)

Lemma mod_window (c a : Z) :
  0 < c -> - c <= a < 2 * c ->
  a mod c = if a <? 0 then a + c else if a <? c then a else a - c.
Proof.
  intros Hc Ha.
  destruct (Z.ltb_spec a 0); [|destruct (Z.ltb_spec a c)].
  - symmetry. apply (Z.mod_unique_pos a c (-1)); lia.
  - apply Z.mod_small; lia.
  - symmetry. apply (Z.mod_unique_pos a c 1); lia.
Qed.

Lemma rem_next (c i : Z) :
  0 <= i < c -> Z.rem (i + 1) c = if i + 1 =? c then 0 else i + 1.
Proof.
  intros Hi. rewrite Z.rem_mod_nonneg by lia.
  destruct (Z.eqb_spec (i + 1) c) as [->|Hne].
  - apply Z_mod_same_full.
  - apply Z.mod_small; lia.
Qed.

Ltac mod_cases :=
  repeat match goal with
         | |- context [?a =? ?b] => destruct (Z.eqb_spec a b)
         end;
  repeat match goal with
         | |- context [?a mod ?c] => rewrite (mod_window c a) by lia
         end;
  repeat match goal with
         | |- context [?a <? ?b] => destruct (Z.ltb_spec a b)
         end.

Lemma q_holds_length (q : LineQueue) (l : list string) :
  q_holds q l -> Z.of_nat (length l) < cap q.
Proof.
  intros (Hc & _ & Hh & Ht & Hn & _).
  rewrite Hn. apply Z.mod_pos_bound. lia.
Qed.

Lemma q_create_holds (c : Z) : 1 <= c -> q_holds (q_create c) [].
Proof.
  intros Hc. unfold q_holds, q_create; cbn.
  split; [lia|]. split; [apply length_replicate|].
  split; [lia|]. split; [lia|]. split; [by rewrite Zmod_0_l|].
  intros i x Hx. discriminate.
Qed.

Lemma q_push_holds (q : LineQueue) (l : list string) (x : string) :
  q_holds q l ->
  q_holds (q_push q x)
    (if Z.of_nat (length l) =? cap q - 1 then drop 1 (l ++ [x])%list else (l ++ [x])%list).
Proof.
  intros Hq. pose proof (q_holds_length q l Hq) as Hlt.
  destruct Hq as (Hc & Hlen & Hh & Ht & Hn & Hel).
  unfold q_push. rewrite !rem_next by lia.
  destruct q as [b c h t]; cbn [buf cap head tail] in *.
  destruct (Z.eqb_spec (Z.of_nat (length l)) (c - 1)) as [Hfull|Hnot].
  - assert (Hnext : (if t + 1 =? c then 0 else t + 1) = h) by (revert Hn; mod_cases; lia).
    rewrite Hnext, Z.eqb_refl. cbn [buf cap head tail].
    unfold q_holds; cbn [buf cap head tail].
    split; [lia|]. split; [by rewrite !length_insert|].
    split; [revert Hn; mod_cases; lia|]. split; [lia|]. split.
    + rewrite length_drop, length_app; cbn [length]. revert Hn; mod_cases; lia.
    + intros i y Hy. rewrite lookup_drop in Hy.
      assert (Hi : (1 + i < length l + 1)%nat).
      { apply lookup_lt_Some in Hy. rewrite length_app in Hy. cbn in Hy. lia. }
      destruct (decide (1 + i < length l)%nat) as [Hin|Hlast].
      * rewrite lookup_app_l in Hy by lia. apply Hel in Hy.
        rewrite list_lookup_insert_ne, list_lookup_insert_ne.
        -- rewrite <- Hy. f_equal. f_equal. revert Hn; mod_cases; lia.
        -- revert Hn; mod_cases; lia.
        -- revert Hn; mod_cases; lia.
      * rewrite lookup_app_r in Hy by lia.
        replace (1 + i - length l)%nat with 0%nat in Hy by lia.
        cbn in Hy. inversion Hy; subst y.
        replace (Z.to_nat (((if h + 1 =? c then 0 else h + 1) + Z.of_nat i) mod c))
          with (Z.to_nat t) by (revert Hn; mod_cases; lia).
        apply list_lookup_insert_eq. rewrite length_insert. lia.
  - assert (Hnext : (if t + 1 =? c then 0 else t + 1) <> h)
      by (revert Hn; mod_cases; lia).
    apply Z.eqb_neq in Hnext. rewrite Hnext. cbn [buf cap head tail].
    unfold q_holds; cbn [buf cap head tail]. apply Z.eqb_neq in Hnext.
    split; [lia|]. split; [by rewrite length_insert|].
    split; [lia|]. split; [mod_cases; lia|]. split.
    + rewrite length_app; cbn [length]. revert Hn Hnext; mod_cases; lia.
    + intros i y Hy.
      destruct (decide (i < length l)%nat) as [Hin|Hlast].
      * rewrite lookup_app_l in Hy by lia. apply Hel in Hy.
        rewrite list_lookup_insert_ne; [exact Hy|].
        revert Hn; mod_cases; lia.
      * apply lookup_lt_Some in Hy as Hi. rewrite length_app in Hi. cbn in Hi.
        rewrite lookup_app_r in Hy by lia.
        replace (i - length l)%nat with 0%nat in Hy by lia.
        cbn in Hy. inversion Hy; subst y.
        replace (Z.to_nat ((h + Z.of_nat i) mod c))
          with (Z.to_nat t) by (revert Hn; mod_cases; lia).
        apply list_lookup_insert_eq. lia.
Qed.

Lemma q_pop_empty (q : LineQueue) :
  q_holds q [] -> q_pop_nowait q = (None, q).
Proof.
  intros (Hc & Hlen & Hh & Ht & Hn & Hel). unfold q_pop_nowait.
  assert (head q = tail q) as -> by (cbn [length] in Hn; revert Hn; mod_cases; lia).
  by rewrite Z.eqb_refl.
Qed.

Lemma q_pop_holds (q : LineQueue) (x : string) (l : list string) :
  q_holds q (x :: l) ->
  exists q', q_pop_nowait q = (Some x, q') /\ q_holds q' l.
Proof.
  intros (Hc & Hlen & Hh & Ht & Hn & Hel). unfold q_pop_nowait.
  rewrite rem_next by lia.
  destruct q as [b c h t]; cbn [buf cap head tail] in *.
  rewrite length_cons, Nat2Z.inj_succ in Hn.
  assert (Hne : h <> t) by (revert Hn; mod_cases; lia).
  apply Z.eqb_neq in Hne as Hne'. rewrite Hne'. clear Hne'.
  pose proof (Hel 0%nat x eq_refl) as H0.
  replace (Z.to_nat ((h + Z.of_nat 0) mod c)) with (Z.to_nat h) in H0
    by (mod_cases; lia).
  rewrite H0. cbn [default]. eexists. split; [reflexivity|].
  unfold q_holds; cbn [buf cap head tail].
  split; [lia|]. split; [by rewrite length_insert|].
  split; [mod_cases; lia|]. split; [lia|]. split.
  - revert Hn; mod_cases; lia.
  - intros i y Hy.
    assert (Hi : Z.of_nat i + 1 < (t - h) mod c).
    { apply lookup_lt_Some in Hy. lia. }
    assert (Hic : Z.of_nat i + 1 < c).
    { pose proof (Z.mod_pos_bound (t - h) c). lia. }
    specialize (Hel (S i) y Hy).
    rewrite list_lookup_insert_ne.
    + rewrite <- Hel. f_equal. f_equal. revert Hi Hn; mod_cases; lia.
    + revert Hi Hn; mod_cases; lia.
Qed.

Lemma q_drain_holds (fuel : nat) (q : LineQueue) (l : list string) :
  q_holds q l -> (length l <= fuel)%nat ->
  exists q', q_drain fuel q = (l, q') /\ q_holds q' [].
Proof.
  revert q l. induction fuel as [|fuel IH]; intros q l Hq Hfuel.
  - destruct l; [|cbn in Hfuel; lia]. exists q. by split.
  - destruct l as [|x l].
    + exists q. cbn [q_drain]. by rewrite q_pop_empty.
    + destruct (q_pop_holds q x l Hq) as (q' & Hpop & Hq').
      destruct (IH q' l Hq' ltac:(cbn in Hfuel; lia)) as (q'' & Hdrain & Hq'').
      exists q''. cbn [q_drain]. rewrite Hpop, Hdrain. by split.
Qed.

Lemma keep_last_push {A} (k : nat) (l rest : list A) (x : A) :
  (length l <= k)%nat ->
  keep_last k (l ++ x :: rest) =
  keep_last k ((if (length l =? k)%nat then drop 1 (l ++ [x]) else l ++ [x]) ++ rest).
Proof.
  intros Hl. unfold keep_last.
  destruct (Nat.eqb_spec (length l) k) as [Heq|Hne].
  - replace (l ++ x :: rest)%list with ((l ++ [x]) ++ rest)%list
      by (by rewrite <- app_assoc).
    rewrite !length_app, length_drop, length_app. cbn [length].
    replace (length l + 1 + length rest - k)%nat with (1 + length rest)%nat by lia.
    replace (length l + 1 - 1 + length rest - k)%nat with (length rest) by lia.
    rewrite <- drop_drop. f_equal.
    rewrite drop_app_le; [reflexivity|]. rewrite length_app. cbn. lia.
  - by rewrite <- app_assoc.
Qed.

Lemma q_push_cap (q : LineQueue) (x : string) : cap (q_push q x) = cap q.
Proof.
  unfold q_push. cbn [cap].
  by destruct (Z.rem (tail q + 1) (cap q) =? head q).
Qed.

Lemma q_push_all_cap (lines : list string) (q : LineQueue) :
  cap (q_push_all q lines) = cap q.
Proof.
  revert q. induction lines as [|x lines IH]; intros q; [reflexivity|].
  cbn [q_push_all fold_left]. unfold q_push_all in IH.
  by rewrite IH, q_push_cap.
Qed.

Lemma q_push_all_holds (lines : list string) (q : LineQueue) (l : list string) :
  q_holds q l ->
  q_holds (q_push_all q lines) (keep_last (Z.to_nat (cap q - 1)) (l ++ lines)).
Proof.
  revert q l. induction lines as [|x lines IH]; intros q l Hq.
  - cbn. rewrite app_nil_r. unfold keep_last.
    pose proof (q_holds_length q l Hq).
    replace (length l - Z.to_nat (cap q - 1))%nat with 0%nat by lia.
    exact Hq.
  - cbn [q_push_all fold_left].
    pose proof (q_holds_length q l Hq) as Hlt.
    pose proof (q_push_holds q l x Hq) as Hpush.
    specialize (IH _ _ Hpush).
    unfold q_push_all in IH. rewrite q_push_cap in IH.
    rewrite (keep_last_push (Z.to_nat (cap q - 1))) by lia.
    destruct (Z.eqb_spec (Z.of_nat (length l)) (cap q - 1)) as [He|Hne];
      destruct (Nat.eqb_spec (length l) (Z.to_nat (cap q - 1))); try lia;
      exact IH.
Qed.

Lemma queue_keeps_last (C : Z) (lines : list string) :
  1 <= C ->
  exists q',
    q_drain (Z.to_nat C) (q_push_all (q_create C) lines)
      = (keep_last (Z.to_nat (C - 1)) lines, q')
    /\ q_pop_nowait q' = (None, q').
Proof.
  intros HC.
  pose proof (q_push_all_holds lines _ _ (q_create_holds C HC)) as Hq.
  cbn [app] in Hq. change (cap (q_create C)) with C in Hq.
  pose proof (q_holds_length _ _ Hq) as Hlen.
  rewrite q_push_all_cap in Hlen. change (cap (q_create C)) with C in Hlen.
  destruct (q_drain_holds (Z.to_nat C) _ _ Hq ltac:(lia)) as (q' & Hd & Hq').
  exists q'. split; [exact Hd|]. by apply q_pop_empty.
Qed.

(** C2, as stated, fails: with 3 slots and 4 lines pushed, the lines popped
    are not the 3 most recent ones (they are "c" and "d"). *)
Lemma queue_holds_one_less :
  fst (q_drain 3 (q_push_all (q_create 3) ["a"; "b"; "c"; "d"]))
    <> keep_last 3 ["a"; "b"; "c"; "d"].
Proof. vm_compute. discriminate. Qed.

(** C2, amended: a queue created with [cap = C >= 1] slots holds at most
    [C - 1] lines (one slot stays free, which tells a full queue from an
    empty one).  Pushing [C + 1] lines into the new queue and popping until
    it is empty gives the [C - 1] most recent lines in the order they were
    pushed: the two oldest are dropped.  [q_push] is a total function. *)
Theorem queue_bound (C : Z) (lines : list string) :
  1 <= C ->
  Z.of_nat (length lines) = C + 1 ->
  exists q',
    q_drain (Z.to_nat C) (q_push_all (q_create C) lines) = (drop 2 lines, q')
    /\ q_pop_nowait q' = (None, q')
    /\ drop 2 lines = keep_last (Z.to_nat (C - 1)) lines
    /\ Z.of_nat (length (drop 2 lines)) = C - 1.
Proof.
  intros HC Hlen.
  destruct (queue_keeps_last C lines HC) as (q' & Hd & Hp).
  assert (Hk : keep_last (Z.to_nat (C - 1)) lines = drop 2 lines).
  { unfold keep_last. f_equal. lia. }
  exists q'. rewrite <- Hk. repeat split; try assumption.
  rewrite Hk, length_drop. lia.
Qed.

Lemma queue_bound_witness :
  exists q',
    q_drain 3 (q_push_all (q_create 3) ["a"; "b"; "c"; "d"]) = (["c"; "d"], q')
    /\ q_pop_nowait q' = (None, q')
    /\ ["c"; "d"] = keep_last 2 ["a"; "b"; "c"; "d"]
    /\ Z.of_nat (length ["c"; "d"]) = 3 - 1.
Proof.
  apply (queue_bound 3 ["a"; "b"; "c"; "d"]); [lia | reflexivity].
Defined.

(** ** Strings *)

Lemma str_take_length (n : nat) (s : string) :
  (String.length (str_take n s) <= n)%nat.
Proof.
  revert s. induction n as [|n IH]; intros [|c s]; cbn; try lia.
  specialize (IH s). lia.
Qed.

Lemma str_take_short (n : nat) (s : string) :
  (String.length s <= n)%nat -> str_take n s = s.
Proof.
  revert s. induction n as [|n IH]; intros [|c s] H; cbn in *; try lia;
    try reflexivity.
  f_equal. apply IH. lia.
Qed.

Lemma str_take_long (n : nat) (s : string) :
  (n <= String.length s)%nat -> String.length (str_take n s) = n.
Proof.
  revert s. induction n as [|n IH]; intros [|c s] H; cbn in *; try lia.
  f_equal. apply IH. lia.
Qed.

Lemma skip_spaces_length (s : string) :
  (String.length (skip_spaces s) <= String.length s)%nat.
Proof.
  induction s as [|c s IH]; cbn; [lia|].
  destruct (isspace c); cbn; lia.
Qed.

Lemma strip_trailing_spaces_length (s : string) :
  (String.length (strip_trailing_spaces s) <= String.length s)%nat.
Proof.
  induction s as [|c s IH]; cbn; [lia|].
  destruct (strip_trailing_spaces s); [destruct (isspace c)|]; cbn in *; lia.
Qed.

Lemma trim_inplace_length (s : string) :
  (String.length (trim_inplace s) <= String.length s)%nat.
Proof.
  unfold trim_inplace.
  pose proof (strip_trailing_spaces_length (skip_spaces s)).
  pose proof (skip_spaces_length s). lia.
Qed.

(** What the decoder leaves in [id_buf] and [loc_buf] fits the fields of
    a [Device]: [add_device] copies it unchanged. *)
Lemma snprintf_trimmed (size : Z) (s : string) :
  snprintf_s size (trim_inplace (snprintf_s size s))
    = trim_inplace (snprintf_s size s).
Proof.
  unfold snprintf_s. apply str_take_short.
  pose proof (trim_inplace_length (str_take (Z.to_nat (size - 1)) s)).
  pose proof (str_take_length (Z.to_nat (size - 1)) s). lia.
Qed.

Lemma equals_ci_lower (a b : string) :
  equals_ci a b = String.eqb (lower a) (lower b).
Proof.
  revert b. induction a as [|ca a IH]; intros [|cb b]; cbn; try reflexivity.
  rewrite IH. reflexivity.
Qed.

Lemma equals_ci_length (a b : string) :
  equals_ci a b = true -> String.length a = String.length b.
Proof.
  revert b. induction a as [|ca a IH]; intros [|cb b]; cbn; try discriminate;
    try reflexivity.
  destruct (Ascii.eqb _ _); [|discriminate]. intros H. f_equal. by apply IH.
Qed.

Lemma excluded_location_lower (s : string) :
  excluded_location s = true <-> lower s = "attic".
Proof.
  unfold excluded_location. rewrite equals_ci_lower. apply String.eqb_eq.
Qed.

Lemma excluded_snprintf (s : string) :
  excluded_location (snprintf_s MAX_LOC_LEN s) = excluded_location s.
Proof.
  unfold snprintf_s, MAX_LOC_LEN. change (Z.to_nat (96 - 1)) with 95%nat.
  destruct (le_lt_dec (String.length s) 95) as [Hs|Hl].
  - by rewrite str_take_short.
  - unfold excluded_location.
    destruct (equals_ci (str_take 95 s) "attic") eqn:E1.
    { apply equals_ci_length in E1. rewrite str_take_long in E1 by lia.
      cbn in E1. lia. }
    destruct (equals_ci s "attic") eqn:E2; [|reflexivity].
    apply equals_ci_length in E2. cbn in E2. lia.
Qed.

(** ** Registry *)

Lemma has_key_eqb (id0 location0 : string) (d : Device) :
  String.eqb (id d) id0 && String.eqb (location d) location0 = true
  <-> has_key id0 location0 d.
Proof.
  unfold has_key. rewrite andb_true_iff, !String.eqb_eq. tauto.
Qed.

Lemma find_device_from_range (i : Z) (devices : list Device) (id0 loc0 : string) :
  0 <= i ->
  find_device_from i devices id0 loc0 = -1
  \/ i <= find_device_from i devices id0 loc0 < i + Z.of_nat (length devices).
Proof.
  revert i. induction devices as [|d devices IH]; intros i Hi; cbn [find_device_from].
  - by left.
  - destruct (_ && _).
    + right. cbn [length]. lia.
    + destruct (IH (i + 1) ltac:(lia)) as [->|H]; [by left|].
      right. cbn [length]. lia.
Qed.

Lemma find_device_from_none (i : Z) (devices : list Device) (id0 loc0 : string) :
  0 <= i ->
  find_device_from i devices id0 loc0 = -1 ->
  forall d, d ∈ devices -> ~ has_key id0 loc0 d.
Proof.
  revert i. induction devices as [|d devices IH]; intros i Hi Hf d' Hd'.
  - by apply elem_of_nil in Hd'.
  - cbn [find_device_from] in Hf.
    destruct (_ && _) eqn:E; [lia|].
    apply elem_of_cons in Hd' as [->|Hd'].
    + rewrite <- has_key_eqb. congruence.
    + by apply (IH (i + 1) ltac:(lia) Hf).
Qed.

Lemma find_device_from_first (i : Z) (devices : list Device) (id0 loc0 : string)
    (k : nat) (d : Device) :
  devices !! k = Some d ->
  has_key id0 loc0 d ->
  (forall j d', (j < k)%nat -> devices !! j = Some d' -> ~ has_key id0 loc0 d') ->
  find_device_from i devices id0 loc0 = i + Z.of_nat k.
Proof.
  revert i k. induction devices as [|d0 devices IH]; intros i k Hk Hd Hfirst.
  - discriminate.
  - cbn [find_device_from]. destruct k as [|k].
    + cbn in Hk. inversion Hk; subst d0.
      apply has_key_eqb in Hd. rewrite Hd. lia.
    + destruct (_ && _) eqn:E.
      * apply has_key_eqb in E. by destruct (Hfirst 0%nat d0 ltac:(lia) eq_refl).
      * rewrite (IH (i + 1) k Hk Hd); [lia|].
        intros j d' Hj Hjd. apply (Hfirst (S j) d'); [lia|exact Hjd].
Qed.

Lemma keys_unique_first (devices : list Device) (k : nat) (d : Device) :
  keys_unique devices ->
  devices !! k = Some d ->
  forall j d', (j < k)%nat -> devices !! j = Some d' ->
               ~ has_key (id d) (location d) d'.
Proof.
  intros Hu Hk j d' Hj Hjd [Hid Hloc].
  unfold keys_unique in Hu.
  assert (j = k); [|lia].
  eapply NoDup_lookup; [exact Hu| |].
  - rewrite list_lookup_fmap, Hjd. reflexivity.
  - rewrite list_lookup_fmap, Hk. cbn. by rewrite Hid, Hloc.
Qed.

(** The entry after a Reading was merged into it. *)
Lemma store_fields (r : Reading) (d : Device) :
  id (store r d) = id d /\ location (store r d) = location d /\
  ts (store r d) = r_ts r /\
  temp (store r d) = (if r_has_temp r then r_temp r else temp d) /\
  has_temp (store r d) = (r_has_temp r || has_temp d) /\
  rh (store r d) = (if r_has_rh r then r_rh r else rh d) /\
  has_rh (store r d) = (r_has_rh r || has_rh d).
Proof.
  unfold store; cbn. repeat split; reflexivity.
Qed.

Lemma find_device_from_absent (i : Z) (devices : list Device) (id0 loc0 : string) :
  (forall d, d ∈ devices -> ~ has_key id0 loc0 d) ->
  find_device_from i devices id0 loc0 = -1.
Proof.
  revert i. induction devices as [|d devices IH]; intros i Hnone; [reflexivity|].
  cbn [find_device_from]. destruct (_ && _) eqn:E.
  - apply has_key_eqb in E. destruct (Hnone d); [apply elem_of_cons; by left|done].
  - apply IH. intros d' Hd'. apply Hnone. apply elem_of_cons. by right.
Qed.

Lemma upsert_excluded (r : Reading) (devices : list Device) :
  excluded_location (r_location r) = true -> upsert r devices = devices.
Proof. intros H. unfold upsert. by rewrite H. Qed.

Lemma upsert_found (r : Reading) (devices : list Device) (k : nat) (d : Device) :
  excluded_location (r_location r) = false ->
  devices !! k = Some d ->
  has_key (r_id r) (r_location r) d ->
  (forall j d', (j < k)%nat -> devices !! j = Some d' ->
                ~ has_key (r_id r) (r_location r) d') ->
  upsert r devices = <[k := store r d]> devices.
Proof.
  intros Hex Hk Hd Hfirst. unfold upsert, find_device. rewrite Hex. cbn [negb].
  rewrite (find_device_from_first 0 devices _ _ k d Hk Hd Hfirst).
  destruct (Z.ltb_spec (0 + Z.of_nat k) 0); [lia|].
  destruct (Z.geb_spec (0 + Z.of_nat k) 0); [|lia].
  replace (Z.to_nat (0 + Z.of_nat k)) with k by lia.
  apply list_eq. intros j. rewrite list_lookup_alter.
  case_decide as Hjk; [subst j|].
  - rewrite Hk. cbn. rewrite list_lookup_insert_eq; [done|].
    by apply lookup_lt_Some in Hk.
  - by rewrite list_lookup_insert_ne.
Qed.

Lemma upsert_new (r : Reading) (devices : list Device) :
  excluded_location (r_location r) = false ->
  (forall d, d ∈ devices -> ~ has_key (r_id r) (r_location r) d) ->
  upsert r devices =
    if Z.of_nat (length devices) >=? MAX_DEVICES then devices
    else (devices ++ [ store r {| id := snprintf_s MAX_ID_LEN (r_id r);
                                  location := snprintf_s MAX_LOC_LEN (r_location r);
                                  ts := 0; temp := DFin 0; has_temp := false;
                                  rh := DFin 0; has_rh := false |} ])%list.
Proof.
  intros Hex Hnone. unfold upsert, find_device. rewrite Hex. cbn [negb].
  rewrite (find_device_from_absent 0 _ _ _ Hnone). cbn [Z.ltb Z.compare]. unfold add_device.
  destruct (Z.geb_spec (Z.of_nat (length devices)) MAX_DEVICES); [reflexivity|].
  destruct (Z.geb_spec (Z.of_nat (length devices)) 0); [|lia].
  rewrite Nat2Z.id.
  apply list_eq. intros j. rewrite list_lookup_alter.
  case_decide as Hjk; [subst j|].
  - rewrite !lookup_app_r by lia. rewrite Nat.sub_diag. reflexivity.
  - destruct (decide (j < length devices)%nat).
    + by rewrite !lookup_app_l by lia.
    + rewrite !lookup_ge_None_2; [done| |]; rewrite length_app; cbn; lia.
Qed.

Lemma find_device_from_found (i : Z) (devices : list Device) (id0 loc0 : string) :
  find_device_from i devices id0 loc0 <> -1 ->
  0 <= i ->
  exists k d,
    find_device_from i devices id0 loc0 = i + Z.of_nat k /\
    devices !! k = Some d /\ has_key id0 loc0 d /\
    (forall j d', (j < k)%nat -> devices !! j = Some d' -> ~ has_key id0 loc0 d').
Proof.
  revert i. induction devices as [|d devices IH]; intros i Hf Hi.
  - by destruct Hf.
  - cbn [find_device_from] in *. destruct (_ && _) eqn:E.
    + exists 0%nat, d. split; [lia|]. split; [reflexivity|].
      split; [by apply has_key_eqb|]. intros; lia.
    + destruct (IH (i + 1) Hf ltac:(lia)) as (k & d' & Hk & Hd & Hkey & Hfirst).
      exists (S k), d'. split; [lia|]. split; [exact Hd|]. split; [exact Hkey|].
      intros [|j] d'' Hj Hjd.
      * cbn in Hjd. inversion Hjd; subst d''. rewrite <- has_key_eqb. congruence.
      * apply (Hfirst j d''); [lia|exact Hjd].
Qed.

(** The two cases of [upsert] on a location that is not excluded. *)
Lemma upsert_cases (r : Reading) (devices : list Device) :
  excluded_location (r_location r) = false ->
  (exists k d, devices !! k = Some d /\ has_key (r_id r) (r_location r) d /\
               upsert r devices = <[k := store r d]> devices)
  \/ ((forall d, d ∈ devices -> ~ has_key (r_id r) (r_location r) d) /\
      upsert r devices =
        if Z.of_nat (length devices) >=? MAX_DEVICES then devices
        else (devices ++ [ store r {| id := snprintf_s MAX_ID_LEN (r_id r);
                                      location := snprintf_s MAX_LOC_LEN (r_location r);
                                      ts := 0; temp := DFin 0; has_temp := false;
                                      rh := DFin 0; has_rh := false |} ])%list).
Proof.
  intros Hex.
  destruct (Z.eq_dec (find_device_from 0 devices (r_id r) (r_location r)) (-1))
    as [Hf|Hf].
  - right. pose proof (find_device_from_none 0 _ _ _ ltac:(lia) Hf) as Hnone.
    split; [exact Hnone|]. by apply upsert_new.
  - left. destruct (find_device_from_found 0 devices _ _ Hf ltac:(lia))
      as (k & d & _ & Hk & Hkey & Hfirst).
    exists k, d. split; [exact Hk|]. split; [exact Hkey|]. by apply upsert_found.
Qed.

Lemma upsert_registry_ok (r : Reading) (devices : list Device) :
  registry_ok devices -> registry_ok (upsert r devices).
Proof.
  intros Hok. destruct (excluded_location (r_location r)) eqn:Hex.
  { by rewrite upsert_excluded. }
  destruct (upsert_cases r devices Hex) as [(k & d & Hk & Hkey & ->)|[_ ->]].
  - unfold registry_ok in *. apply Forall_insert; [exact Hok|].
    cbn. by apply (Forall_lookup_1 _ _ _ _ Hok Hk).
  - destruct (_ >=? _); [exact Hok|].
    unfold registry_ok in *. apply Forall_app. split; [exact Hok|].
    apply Forall_singleton. cbn [location store]. by rewrite excluded_snprintf.
Qed.

Lemma upsert_keys_unique (r : Reading) (devices : list Device) :
  snprintf_s MAX_ID_LEN (r_id r) = r_id r ->
  snprintf_s MAX_LOC_LEN (r_location r) = r_location r ->
  keys_unique devices -> keys_unique (upsert r devices).
Proof.
  intros Hid Hloc Hu. destruct (excluded_location (r_location r)) eqn:Hex.
  { by rewrite upsert_excluded. }
  destruct (upsert_cases r devices Hex) as [(k & d & Hk & Hkey & ->)|[Hnone ->]].
  - unfold keys_unique in *. rewrite list_fmap_insert. cbn.
    rewrite list_insert_id; [exact Hu|]. by rewrite list_lookup_fmap, Hk.
  - destruct (_ >=? _); [exact Hu|].
    unfold keys_unique in *. rewrite fmap_app. cbn [fmap list_fmap id location store]. rewrite Hid, Hloc.
    apply NoDup_app. split; [exact Hu|]. split; [|apply NoDup_singleton].
    intros key Hin Hin'. apply list_elem_of_singleton in Hin'. subst key.
    apply list_elem_of_fmap in Hin as (d & Hd & Hin).
    apply (Hnone d Hin). inversion Hd. by split.
Qed.

Lemma decode_fits (now : Z) (root : gmap string json_t) (r : Reading) :
  decode now root = Some r ->
  snprintf_s MAX_ID_LEN (r_id r) = r_id r /\
  snprintf_s MAX_LOC_LEN (r_location r) = r_location r /\
  r_location r = decoded_location root.
Proof.
  unfold decode. destruct (json_id root); [|discriminate].
  intros H. inversion H; subst r; cbn.
  split; [apply snprintf_trimmed|]. split; [apply snprintf_trimmed|reflexivity].
Qed.

Section Registry.
Variable json_loads : string -> option json_t.

Lemma process_json_line_invariant (now : Z) (line : string)
    (devices : list Device) :
  registry_ok devices /\ keys_unique devices ->
  registry_ok (process_json_line json_loads now line devices) /\
  keys_unique (process_json_line json_loads now line devices).
Proof using Type.
  intros [Hok Hu]. unfold process_json_line, decode_line.
  destruct (json_loads line) as [[root| | | | | | |]|]; try by split.
  destruct (decode now root) as [r|] eqn:Hd; [|by split].
  destruct (decode_fits _ _ _ Hd) as (Hid & Hloc & _).
  split; [by apply upsert_registry_ok|by apply upsert_keys_unique].
Qed.

Lemma process_lines_invariant (lines : list (Z * string))
    (devices : list Device) :
  registry_ok devices /\ keys_unique devices ->
  registry_ok (process_lines json_loads lines devices) /\
  keys_unique (process_lines json_loads lines devices).
Proof using Type.
  revert devices. induction lines as [|[now line] lines IH]; intros devices H.
  - exact H.
  - cbn [process_lines fold_left]. apply IH.
    by apply process_json_line_invariant.
Qed.
End Registry.

Lemma registry_empty : registry_ok [] /\ keys_unique [].
Proof. split; [apply Forall_nil_2 | apply NoDup_nil_2]. Qed.

(** ** Merge on upsert *)

Lemma upsert_twice (X Y : string) (now1 now2 : Z) :
  let root1 : gmap string json_t :=
    {[ "id" := JString X; "location" := JString Y; "temp" := JInteger 20 ]} in
  let root2 : gmap string json_t :=
    {[ "id" := JString X; "location" := JString Y; "humidity" := JInteger 55 ]} in
  excluded_location (decoded_location root1) = false ->
  exists r1 r2,
    decode now1 root1 = Some r1 /\ decode now2 root2 = Some r2 /\
    upsert r2 (upsert r1 []) =
      [ {| id := trim_inplace (snprintf_s MAX_ID_LEN X);
           location := trim_inplace (snprintf_s MAX_LOC_LEN Y);
           ts := now2;
           temp := DFin 20; has_temp := true;
           rh := DFin 55; has_rh := true |} ].
Proof.
  intros root1 root2 Hex.
  change (decoded_location root1)
    with (trim_inplace (snprintf_s MAX_LOC_LEN Y)) in Hex.
  set (x := trim_inplace (snprintf_s MAX_ID_LEN X)).
  set (y := trim_inplace (snprintf_s MAX_LOC_LEN Y)) in *.
  exists {| r_id := x; r_location := y; r_ts := now1;
            r_temp := DFin 20; r_has_temp := true;
            r_rh := DNaN; r_has_rh := false |},
         {| r_id := x; r_location := y; r_ts := now2;
            r_temp := DNaN; r_has_temp := false;
            r_rh := DFin 55; r_has_rh := true |}.
  split; [reflexivity|]. split; [reflexivity|].
  rewrite (upsert_new _ []); [|exact Hex|intros d Hd; by apply elem_of_nil in Hd].
  change (Z.of_nat (length []) >=? MAX_DEVICES) with false. cbn iota.
  unfold store. cbn [r_id r_location r_ts r_temp r_has_temp r_rh r_has_rh
                     id location ts temp has_temp rh has_rh app].
  assert (Hx : snprintf_s MAX_ID_LEN x = x) by apply snprintf_trimmed.
  assert (Hy : snprintf_s MAX_LOC_LEN y = y) by apply snprintf_trimmed.
  rewrite Hx, Hy.
  match goal with
  | |- upsert ?r [?d] = _ => rewrite (upsert_found r [d] 0%nat d Hex eq_refl)
  end; [reflexivity| |].
  - by split.
  - intros j d' Hj. lia.
Qed.

(** C3: an upsert into the existing entry of its key (the location is not
    excluded, the registry has one entry per key) overwrites the timestamp
    with the incoming one whatever the two values are, overwrites the
    temperature only when the Reading carries one, and likewise the
    humidity; the other entries are untouched.  In particular the readings
    {id=X, loc=Y, temp=20} and then {id=X, loc=Y, rh=55} leave one entry,
    with temp=20 and rh=55. *)
Theorem upsert_merge :
  (forall (r : Reading) (devices : list Device) (k : nat) (d : Device),
     keys_unique devices ->
     excluded_location (r_location r) = false ->
     devices !! k = Some d ->
     has_key (r_id r) (r_location r) d ->
     upsert r devices =
       <[k := {| id := id d; location := location d;
                 ts := r_ts r;
                 temp := if r_has_temp r then r_temp r else temp d;
                 has_temp := r_has_temp r || has_temp d;
                 rh := if r_has_rh r then r_rh r else rh d;
                 has_rh := r_has_rh r || has_rh d |}]> devices) /\
  (forall (X Y : string) (now1 now2 : Z),
     let root1 : gmap string json_t :=
       {[ "id" := JString X; "location" := JString Y; "temp" := JInteger 20 ]} in
     let root2 : gmap string json_t :=
       {[ "id" := JString X; "location" := JString Y;
          "humidity" := JInteger 55 ]} in
     excluded_location (decoded_location root1) = false ->
     exists r1 r2,
       decode now1 root1 = Some r1 /\ decode now2 root2 = Some r2 /\
       upsert r2 (upsert r1 []) =
         [ {| id := trim_inplace (snprintf_s MAX_ID_LEN X);
              location := trim_inplace (snprintf_s MAX_LOC_LEN Y);
              ts := now2;
              temp := DFin 20; has_temp := true;
              rh := DFin 55; has_rh := true |} ]).
Proof.
  split.
  - intros r devices k d Hu Hex Hk Hkey.
    rewrite (upsert_found r devices k d Hex Hk Hkey); [reflexivity|].
    destruct Hkey as [Hid Hloc]. rewrite <- Hid, <- Hloc.
    by apply keys_unique_first.
  - apply upsert_twice.
Qed.

Lemma upsert_merge_witness :
  let old := {| id := "A1"; location := "hall"; ts := 1000;
                temp := DFin 20; has_temp := true;
                rh := DFin 40; has_rh := true |} in
  let other := {| id := "A1"; location := "garden"; ts := 7;
                  temp := DFin 3; has_temp := true;
                  rh := DFin 0; has_rh := false |} in
  let r := {| r_id := "A1"; r_location := "hall"; r_ts := 900;
              r_temp := DNaN; r_has_temp := false;
              r_rh := DFin 55; r_has_rh := true |} in
  upsert r [other; old] =
    [other; {| id := "A1"; location := "hall"; ts := 900;
               temp := DFin 20; has_temp := true;
               rh := DFin 55; has_rh := true |}].
Proof.
  intros old other r.
  apply (proj1 upsert_merge r [other; old] 1%nat old).
  - unfold keys_unique. cbn. apply NoDup_cons. split.
    + intros H. apply list_elem_of_singleton in H. discriminate.
    + apply NoDup_singleton.
  - reflexivity.
  - reflexivity.
  - by split.
Defined.

(** ** Table rows *)

Lemma sort_insert_perm (d : Device) (rows : list Device) :
  Permutation (sort_insert d rows) (d :: rows).
Proof.
  induction rows as [|r rows IH]; cbn [sort_insert]; [reflexivity|].
  destruct (cmp_rowref_by_id d r); try reflexivity.
  rewrite IH. apply perm_swap.
Qed.

Lemma qsort_perm (rows : list Device) : Permutation (qsort rows) rows.
Proof.
  induction rows as [|r rows IH]; cbn; [reflexivity|].
  fold (qsort rows). rewrite sort_insert_perm. by constructor.
Qed.

Lemma collect_rows_elem (devices : list Device) (d : Device) :
  d ∈ collect_rows devices
  <-> d ∈ devices /\ excluded_location (location d) = false.
Proof.
  unfold collect_rows. rewrite (qsort_perm _), list_elem_of_filter. tauto.
Qed.

Lemma tv_rows_elem (now W : Z) (colors : bool) (devices : list Device)
    (y h s : Z) (r : Row) :
  r ∈ tv_rows (draw_table now W colors devices y h s) ->
  exists d, d ∈ collect_rows devices /\
            r = draw_row now (cutoff_of now W) colors d.
Proof.
  unfold draw_table; cbn [tv_rows]. intros Hr.
  apply list_elem_of_fmap in Hr as (d & -> & Hd).
  exists d. split; [|reflexivity].
  by apply subseteq_take, subseteq_drop in Hd.
Qed.

(** A table row is drawn for the entry at index [i] of the sorted rows
    when [i] is inside the window that starts at [tv_start]. *)
Lemma tv_rows_lookup (now W : Z) (colors : bool) (devices : list Device)
    (y h s : Z) (i : nat) (d : Device) :
  let tv := draw_table now W colors devices y h s in
  collect_rows devices !! i = Some d ->
  tv_start tv <= Z.of_nat i < tv_start tv + tv_max_rows tv ->
  tv_rows tv !! (i - Z.to_nat (tv_start tv))%nat
    = Some (draw_row now (cutoff_of now W) colors d).
Proof.
  intros tv Hi Hwin.
  destruct (draw_table_start now W colors devices y h s) as [Hmax Hstart].
  fold tv in Hmax, Hstart. revert Hwin Hmax Hstart.
  unfold tv, draw_table; cbn [tv_rows tv_start tv_max_rows tv_rc].
  set (start := if _ >? _ then _ else _). set (mx := imax 1 _ - 1).
  intros Hwin Hmax Hstart.
  apply lookup_lt_Some in Hi as Hlt.
  rewrite list_lookup_fmap, lookup_take_lt, lookup_drop.
  - replace (Z.to_nat start + (i - Z.to_nat start))%nat with i by lia.
    by rewrite Hi.
  - rewrite imin_min. lia.
Qed.

(** ** Exclusion of "attic" *)

Lemma process_attic_line (json_loads : string -> option json_t) (now : Z)
    (line : string) (devices : list Device) :
  is_attic_line json_loads line = true ->
  process_json_line json_loads now line devices = devices.
Proof.
  unfold is_attic_line, process_json_line, decode_line.
  destruct (json_loads line) as [[root| | | | | | |]|]; try discriminate.
  intros Hex. destruct (decode now root) as [r|] eqn:Hd; [|reflexivity].
  destruct (decode_fits _ _ _ Hd) as (_ & _ & Hloc).
  apply upsert_excluded. by rewrite Hloc.
Qed.

Lemma process_lines_without_attic (json_loads : string -> option json_t)
    (lines : list (Z * string)) (devices : list Device) :
  process_lines json_loads lines devices =
  process_lines json_loads
    (filter (fun nl : Z * string => is_attic_line json_loads (snd nl) = false) lines)
    devices.
Proof.
  revert devices. induction lines as [|[now line] lines IH]; intros devices.
  - reflexivity.
  - destruct (is_attic_line json_loads line) eqn:Hat.
    + rewrite filter_cons_False by (cbn; congruence).
      cbn [process_lines fold_left]. rewrite process_attic_line by exact Hat.
      apply IH.
    + rewrite filter_cons_True by exact Hat.
      cbn [process_lines fold_left]. apply IH.
Qed.

(** C4, as stated, fails: a location of 95 spaces followed by "attic"
    equals "attic" once trimmed, but [loc_buf] has room for its first 95
    bytes only and trimming comes after the cut.  The line is registered,
    under the empty location, counted in the Inside panel and drawn as a
    row of the table. *)
Lemma attic_cut_before_trim :
  let loc := (spaces 95 ++ "attic")%string in
  let root : gmap string json_t :=
    {[ "id" := JString "A1"; "location" := JString loc;
       "temp" := JInteger 21 ]} in
  let now := 1700000000 in
  let devices :=
    process_json_line (fun _ => Some (JObject root)) now "line" [] in
  excluded_location (trim_inplace loc) = true /\
  map (fun d => (id d, location d)) devices = [("A1", EmptyString)] /\
  devices <> [] /\
  in_n (compute_averages now 900 devices) = 1 /\
  map (fun w => (id (row_dev w), location (row_dev w)))
      (tv_rows (draw_table now 900 true devices 5 8 0))
    = [("A1", EmptyString)].
Proof.
  intros loc root now devices.
  split; [reflexivity|]. split; [reflexivity|].
  split; [discriminate|]. split; reflexivity.
Qed.

(** C4, amended: a line whose location as [loc_buf] holds it (its first
    95 bytes, then trimmed) equals "attic" whatever the case of its
    letters leaves the registry as it is: no entry is created or updated.
    That is so for every location of at most 95 bytes that equals "attic"
    once trimmed.  Hence no entry of the registry ever has such a
    location, the registry (and with it the aggregates) is the one of the
    input without these lines, and no table row shows such a location. *)
Theorem attic_never_registered (json_loads : string -> option json_t) :
  (forall (now : Z) (line : string) (root : gmap string json_t)
          (devices : list Device),
     json_loads line = Some (JObject root) ->
     excluded_location (decoded_location root) = true ->
     process_json_line json_loads now line devices = devices) /\
  (forall (now : Z) (line raw : string) (root : gmap string json_t)
          (devices : list Device),
     json_loads line = Some (JObject root) ->
     first_some (json_string (root !! "location"))
                (json_string (root !! "room")) = Some raw ->
     decoded_location root = trim_inplace (str_take 95 raw) /\
     (excluded_location (trim_inplace (str_take 95 raw)) = true ->
      process_json_line json_loads now line devices = devices) /\
     ((String.length raw <= 95)%nat ->
      excluded_location (trim_inplace raw) = true ->
      process_json_line json_loads now line devices = devices)) /\
  (forall lines : list (Z * string),
     registry_ok (process_lines json_loads lines [])) /\
  (forall (lines : list (Z * string)) (now W : Z),
     let kept := filter (fun nl : Z * string =>
                           is_attic_line json_loads (snd nl) = false) lines in
     process_lines json_loads lines [] = process_lines json_loads kept [] /\
     compute_averages now W (process_lines json_loads lines [])
       = compute_averages now W (process_lines json_loads kept [])) /\
  (forall (lines : list (Z * string)) (now W : Z) (colors : bool)
          (y h s : Z) (r : Row),
     r ∈ tv_rows (draw_table now W colors
                    (process_lines json_loads lines []) y h s) ->
     excluded_location (location (row_dev r)) = false) /\
  (forall loc : string, excluded_location loc = true <-> lower loc = "attic") /\
  excluded_location "Attic" = true /\
  excluded_location "ATTIC" = true /\
  excluded_location "attic" = true.
Proof.
  assert (Hdrop : forall now line root devices,
            json_loads line = Some (JObject root) ->
            excluded_location (decoded_location root) = true ->
            process_json_line json_loads now line devices = devices).
  { intros now line root devices Hl Hex. apply process_attic_line.
    unfold is_attic_line. by rewrite Hl. }
  split; [exact Hdrop|]. split; [|split; [|split; [|split; [|split]]]].
  - intros now line raw root devices Hl Hraw.
    assert (Hdec : decoded_location root = trim_inplace (str_take 95 raw)).
    { unfold decoded_location. by rewrite Hraw. }
    split; [exact Hdec|]. split.
    + intros Hex. apply (Hdrop now line root devices Hl). by rewrite Hdec.
    + intros Hlen Hex. apply (Hdrop now line root devices Hl).
      rewrite Hdec, str_take_short by exact Hlen. exact Hex.
  - intros lines. apply process_lines_invariant, registry_empty.
  - intros lines now W kept. unfold kept.
    rewrite <- process_lines_without_attic. by split.
  - intros lines now W colors y h s r Hr.
    apply tv_rows_elem in Hr as (d & Hd & ->).
    apply collect_rows_elem in Hd as [_ Hd]. exact Hd.
  - apply excluded_location_lower.
  - repeat split; reflexivity.
Qed.

Lemma attic_never_registered_witness :
  process_json_line sample_loads 1700000000 attic_line [] = [] /\
  process_json_line sample_loads 1700000000 attic_line [] = [].
Proof.
  destruct (attic_never_registered sample_loads) as (Hdrop & Hraw & _).
  split.
  - apply (Hdrop 1700000000 attic_line
             {[ "id" := JString "A1"; "location" := JString " Attic";
                "temp" := JInteger 21 ]} []).
    + reflexivity.
    + reflexivity.
  - apply (Hraw 1700000000 attic_line " Attic"
             {[ "id" := JString "A1"; "location" := JString " Attic";
                "temp" := JInteger 21 ]} []).
    + reflexivity.
    + reflexivity.
    + vm_compute. lia.
    + reflexivity.
Defined.

(** ** Lines that carry no Reading *)

(** C9: a line that jansson does not parse, a line that parses to
    something else than an object, and an object with neither an "id" nor
    a "device_id" member that is a string, give no Reading and leave the
    registry unchanged. *)
Theorem malformed_line_discarded (json_loads : string -> option json_t)
    (now : Z) (line : string) (devices : list Device) :
  json_loads line = None
  \/ (exists v, json_loads line = Some v /\ forall root, v <> JObject root)
  \/ (exists root, json_loads line = Some (JObject root) /\
                   (forall s, root !! "id" <> Some (JString s)) /\
                   (forall s, root !! "device_id" <> Some (JString s))) ->
  decode_line json_loads now line = None /\
  process_json_line json_loads now line devices = devices.
Proof.
  intros H.
  assert (Hd : decode_line json_loads now line = None).
  { unfold decode_line.
    destruct H as [->|[(v & -> & Hv)|(root & -> & Hid & Hdid)]].
    - reflexivity.
    - destruct v; try reflexivity. by destruct (Hv members).
    - unfold decode, json_id.
      destruct (root !! "id") as [[]|]; cbn;
        try (destruct (root !! "device_id") as [[]|]; cbn; try reflexivity;
             by edestruct Hdid).
      by edestruct Hid. }
  split; [exact Hd|]. unfold process_json_line. by rewrite Hd.
Qed.

Lemma malformed_line_discarded_witness :
  let devices := [ {| id := "A1"; location := "hall"; ts := 1000;
                      temp := DFin 20; has_temp := true;
                      rh := DFin 40; has_rh := true |} ] in
  (decode_line sample_loads 1700000000 "{}" = None /\
   process_json_line sample_loads 1700000000 "{}" devices = devices) /\
  (decode_line sample_loads 1700000000 "[1,2]" = None /\
   process_json_line sample_loads 1700000000 "[1,2]" devices = devices) /\
  (decode_line sample_loads 1700000000 "{oops" = None /\
   process_json_line sample_loads 1700000000 "{oops" devices = devices).
Proof.
  intros devices. split; [|split].
  - apply (malformed_line_discarded sample_loads). right. right.
    exists ∅. split; [reflexivity|]. split; intros s; by rewrite lookup_empty.
  - apply (malformed_line_discarded sample_loads). right. left.
    eexists. split; [reflexivity|]. discriminate.
  - apply (malformed_line_discarded sample_loads). by left.
Defined.

(** ** Freshness *)

Lemma cutoff_of_exact (now W : Z) :
  LONG_MIN <= now - W <= LONG_MAX -> cutoff_of now W = now - W.
Proof. intros H. unfold cutoff_of. by apply wrap64_small. Qed.

Lemma stale_not_fresh (now W : Z) (d : Device) :
  LONG_MIN <= now - W <= LONG_MAX ->
  (ts d <? cutoff_of now W) = negb (fresh now W d).
Proof.
  intros H. rewrite cutoff_of_exact by exact H. unfold fresh.
  destruct (Z.ltb_spec (ts d) (now - W)), (Z.leb_spec (now - W) (ts d));
    cbn; lia || reflexivity.
Qed.

Lemma filter_bool_cons {A} (p : A -> bool) (x : A) (l : list A) :
  filter (fun a => p a = true) (x :: l) =
  if p x then x :: filter (fun a => p a = true) l
  else filter (fun a => p a = true) l.
Proof.
  rewrite filter_cons. destruct (p x); case_decide; congruence.
Qed.

Lemma average_step_fresh (now W : Z) (s : Sums) (d : Device) :
  LONG_MIN <= now - W <= LONG_MAX ->
  average_step (cutoff_of now W) s d =
    if fresh now W d then accumulate s d else s.
Proof.
  intros H. unfold average_step. rewrite stale_not_fresh by exact H.
  by destruct (fresh now W d).
Qed.

Lemma fold_average_step (now W : Z) (devices : list Device) (s : Sums) :
  LONG_MIN <= now - W <= LONG_MAX ->
  fold_left (average_step (cutoff_of now W)) devices s =
  fold_left accumulate (filter (fun d => fresh now W d = true) devices) s.
Proof.
  intros H. revert s. induction devices as [|d devices IH]; intros s.
  - reflexivity.
  - cbn [fold_left]. rewrite IH, filter_bool_cons, average_step_fresh by exact H.
    by destruct (fresh now W d).
Qed.

Lemma accumulate_counts (s : Sums) (d : Device) :
  cin (accumulate s d) + cg (accumulate s d) =
  cin s + cg s + (if has_temp d || has_rh d then 1 else 0).
Proof.
  unfold accumulate.
  destruct (equals_ci (location d) "garden"), (has_temp d), (has_rh d); cbn; lia.
Qed.

Lemma draw_row_attr (now W : Z) (colors : bool) (d : Device) :
  LONG_MIN <= now - W <= LONG_MAX ->
  row_dev (draw_row now (cutoff_of now W) colors d) = d /\
  row_stale (draw_row now (cutoff_of now W) colors d) = negb (fresh now W d) /\
  row_attr (draw_row now (cutoff_of now W) colors d) =
    (if fresh now W d then A_NORMAL else A_DIM).
Proof.
  intros H. cbn [draw_row row_dev row_stale row_attr].
  rewrite stale_not_fresh by exact H. by destruct (fresh now W d).
Qed.


(** ** Averages per class *)

Lemma fold_average_step_sums (now W : Z) (devices : list Device) (s : Sums) :
  LONG_MIN <= now - W <= LONG_MAX ->
  registry_ok devices ->
  sums_agree now W devices s (fold_left (average_step (cutoff_of now W)) devices s).
Proof.
  intros H Hok. revert s.
  induction devices as [|d devices IH]; intros s.
  - unfold sums_agree, temps_of, rhs_of, count_of. cbn. repeat split; first [reflexivity | lia].
  - apply Forall_cons in Hok as [Hd Hok].
    specialize (IH Hok (average_step (cutoff_of now W) s d)).
    cbn [fold_left].
    set (s' := fold_left _ devices _) in *.
    unfold sums_agree, temps_of, rhs_of, count_of in *.
    rewrite !filter_bool_cons.
    rewrite average_step_fresh in IH by exact H.
    unfold is_indoor, is_garden, accumulate in *. rewrite Hd.
    destruct IH as (I1 & I2 & I3 & I4 & I5 & I6 & I7 & I8 & I9 & I10).
    rewrite I1, I2, I3, I4, I5, I6, I7, I8, I9, I10.
    destruct (fresh now W d), (equals_ci (location d) "garden"),
      (has_temp d), (has_rh d);
      cbn [andb orb negb sum_in_t sum_in_h nin_t nin_h cin
           sum_g_t sum_g_h ng_t ng_h cg map fold_left length];
      repeat split; first [reflexivity | lia].
Qed.

Lemma mean_or_nan_mean_of (l : list double) :
  mean_or_nan (fold_left d_add l (DFin 0)) (0 + Z.of_nat (length l)) = mean_of l.
Proof.
  unfold mean_or_nan, mean_of. destruct l as [|x l]; [reflexivity|].
  destruct (Z.eqb_spec (0 + Z.of_nat (length (x :: l))) 0) as [E|E].
  - cbn [length] in E. lia.
  - reflexivity.
Qed.

Lemma Reqb_false (x y : R) : x <> y -> Reqb x y = false.
Proof. intros H. unfold Reqb. by destruct (Req_dec_T x y). Qed.

Lemma mean_of_one (x : R) : mean_of [DFin x] = DFin x.
Proof.
  unfold mean_of, d_of_int.
  change (Z.of_nat (length [DFin x])) with 1%Z.
  cbn [fold_left d_add d_div].
  rewrite Reqb_false by lra. f_equal. lra.
Qed.

Lemma compute_averages_means (now W : Z) (devices : list Device) :
  LONG_MIN <= now - W <= LONG_MAX ->
  registry_ok devices ->
  compute_averages now W devices =
    {| in_t := mean_of (temps_of now W is_indoor devices);
       in_h := mean_of (rhs_of now W is_indoor devices);
       in_n := count_of now W is_indoor devices;
       g_t := mean_of (temps_of now W is_garden devices);
       g_h := mean_of (rhs_of now W is_garden devices);
       g_n := count_of now W is_garden devices |}.
Proof.
  intros H Hok. unfold compute_averages, finish_averages.
  destruct (fold_average_step_sums now W devices sums0 H Hok)
    as (I1 & I2 & I3 & I4 & I5 & I6 & I7 & I8 & I9 & I10).
  rewrite I1, I2, I3, I4, I5, I6, I7, I8, I9, I10.
  cbn [sums0 sum_in_t sum_in_h nin_t nin_h cin sum_g_t sum_g_h ng_t ng_h cg].
  by rewrite !mean_or_nan_mean_of.
Qed.

Lemma filter_bool_idem {A} (p : A -> bool) (l : list A) :
  filter (fun a => p a = true) (filter (fun a => p a = true) l)
    = filter (fun a => p a = true) l.
Proof.
  induction l as [|x l IH]; [reflexivity|].
  rewrite filter_bool_cons. destruct (p x) eqn:E; [|exact IH].
  rewrite filter_bool_cons, E. by rewrite IH.
Qed.

Lemma compute_averages_fresh (now W : Z) (devices : list Device) :
  LONG_MIN <= now - W <= LONG_MAX ->
  compute_averages now W devices =
  compute_averages now W (filter (fun d => fresh now W d = true) devices).
Proof.
  intros H. unfold compute_averages.
  by rewrite !fold_average_step, filter_bool_idem by exact H.
Qed.

Lemma compute_averages_stale (now W : Z) (pre post : list Device) (d : Device) :
  LONG_MIN <= now - W <= LONG_MAX ->
  ts d < now - W ->
  compute_averages now W (pre ++ d :: post) = compute_averages now W (pre ++ post).
Proof.
  intros H Hd. unfold compute_averages. rewrite !fold_left_app.
  cbn [fold_left]. unfold average_step at 2.
  rewrite cutoff_of_exact by exact H.
  destruct (Z.ltb_spec (ts d) (now - W)); [reflexivity|lia].
Qed.

Lemma count_of_insert (now W : Z) (class : Device -> bool)
    (pre post : list Device) (d : Device) :
  count_of now W class (pre ++ d :: post) =
  count_of now W class (pre ++ post)
  + (if fresh now W d && class d && (has_temp d || has_rh d) then 1 else 0).
Proof.
  unfold count_of. rewrite !filter_app, filter_bool_cons, !length_app.
  destruct (fresh now W d && class d && (has_temp d || has_rh d));
    cbn [length]; lia.
Qed.

(** C5: the aggregates are taken over the entries with [ts >= now - W]
    and over no other.  Each mean is the mean of its field over the
    entries of the class with [ts >= now - W] and the field present, each
    count the number of such entries with a field: an entry is among
    these contributors iff [ts >= now - W].  So a stale entry can be
    removed without changing any aggregate, while a fresh entry with a
    field adds one to the count of its class.  A stale entry is still a
    row of the table (staleness removes no row), and where it is drawn
    its row has the attribute [A_DIM]. *)
Theorem freshness_window (now W : Z) (devices : list Device) :
  LONG_MIN <= now - W <= LONG_MAX ->
  registry_ok devices ->
  let contributors (class field : Device -> bool) : list Device :=
    filter (fun d => (now - W <=? ts d) && class d && field d = true) devices in
  let either := fun d : Device => has_temp d || has_rh d in
  let a := compute_averages now W devices in
  (in_t a = mean_of (map temp (contributors is_indoor has_temp)) /\
   in_h a = mean_of (map rh (contributors is_indoor has_rh)) /\
   in_n a = Z.of_nat (length (contributors is_indoor either)) /\
   g_t a = mean_of (map temp (contributors is_garden has_temp)) /\
   g_h a = mean_of (map rh (contributors is_garden has_rh)) /\
   g_n a = Z.of_nat (length (contributors is_garden either))) /\
  (forall (class field : Device -> bool) (d : Device),
     d ∈ contributors class field <->
     d ∈ devices /\ now - W <= ts d /\ class d = true /\ field d = true) /\
  a = compute_averages now W
        (filter (fun d => (now - W <=? ts d) = true) devices) /\
  (forall (pre post : list Device) (d : Device),
     devices = (pre ++ d :: post)%list ->
     let a' := compute_averages now W (pre ++ post) in
     (ts d < now - W -> a = a') /\
     (now - W <= ts d -> either d = true ->
      if is_garden d
      then g_n a = g_n a' + 1 /\ in_n a = in_n a'
      else in_n a = in_n a' + 1 /\ g_n a = g_n a')) /\
  (forall d : Device,
     d ∈ devices -> excluded_location (location d) = false ->
     d ∈ collect_rows devices) /\
  (forall (colors : bool) (y h s : Z) (i : nat) (d : Device),
     let tv := draw_table now W colors devices y h s in
     collect_rows devices !! i = Some d ->
     tv_start tv <= Z.of_nat i < tv_start tv + tv_max_rows tv ->
     exists r, tv_rows tv !! (i - Z.to_nat (tv_start tv))%nat = Some r /\
               row_dev r = d) /\
  (forall (colors : bool) (y h s : Z) (r : Row),
     r ∈ tv_rows (draw_table now W colors devices y h s) ->
     row_attr r = (if now - W <=? ts (row_dev r) then A_NORMAL else A_DIM)).
Proof.
  intros H Hok contributors either a.
  pose proof (compute_averages_means now W devices H Hok) as Heq.
  fold a in Heq.
  split; [|split; [|split; [|split; [|split; [|split]]]]].
  - rewrite Heq. repeat split; reflexivity.
  - intros class field d. unfold contributors.
    rewrite list_elem_of_filter, !andb_true_iff, Z.leb_le. tauto.
  - apply (compute_averages_fresh now W devices H).
  - intros pre post d Hdev a'. split.
    + intros Hd. unfold a, a'. rewrite Hdev.
      by apply compute_averages_stale.
    + intros Hd He.
      assert (Hok' : registry_ok (pre ++ post)).
      { unfold registry_ok in *. rewrite Hdev in Hok.
        apply Forall_app in Hok as [Hp Hq]. apply Forall_cons in Hq as [_ Hq].
        apply Forall_app. by split. }
      assert (Hex : excluded_location (location d) = false).
      { unfold registry_ok in Hok. rewrite Hdev in Hok.
        apply Forall_app in Hok as [_ Hq]. by apply Forall_cons in Hq as [Hq _]. }
      pose proof (compute_averages_means now W (pre ++ post) H Hok') as Heq'.
      fold a' in Heq'. rewrite Heq, Heq'. cbn [in_n g_n]. rewrite Hdev.
      rewrite !count_of_insert.
      assert (Hf : fresh now W d = true) by (unfold fresh; by apply Z.leb_le).
      unfold either in He. rewrite Hf, He. unfold is_indoor. rewrite Hex.
      destruct (is_garden d); cbn [andb negb]; lia.
  - intros d Hd Hex. by apply collect_rows_elem.
  - intros colors y h s i d tv Hi Hwin. eexists. split.
    + by apply tv_rows_lookup.
    + reflexivity.
  - intros colors y h s r Hr.
    apply tv_rows_elem in Hr as (d & _ & ->).
    destruct (draw_row_attr now W colors d H) as (-> & _ & ->). reflexivity.
Qed.

Lemma freshness_window_witness :
  let now := 1700000000 in
  let fresh_dev := {| id := "A"; location := "hall"; ts := now - 899;
                      temp := DFin 20; has_temp := true;
                      rh := DFin 0; has_rh := false |} in
  let stale_dev := {| id := "B"; location := "hall"; ts := now - 901;
                      temp := DFin 30; has_temp := true;
                      rh := DFin 0; has_rh := false |} in
  let devices := [fresh_dev; stale_dev] in
  let a := compute_averages now 900 devices in
  in_t a = DFin 20 /\ in_h a = DNaN /\ in_n a = 1 /\
  a = compute_averages now 900 [fresh_dev] /\
  in_n a = in_n (compute_averages now 900 [stale_dev]) + 1 /\
  stale_dev ∈ collect_rows devices /\
  map (fun r => (id (row_dev r), row_age r, row_attr r))
      (tv_rows (draw_table now 900 true devices 5 8 0))
    = [("A", 899, A_NORMAL); ("B", 901, A_DIM)].
Proof.
  intros now fresh_dev stale_dev devices a.
  assert (H : LONG_MIN <= now - 900 <= LONG_MAX) by (vm_compute; split; discriminate).
  assert (Hok : registry_ok devices) by (repeat constructor).
  destruct (freshness_window now 900 devices H Hok)
    as ((Ht & Hh & Hn & _) & _ & _ & Hins & Hrow & _ & _).
  fold a in Ht, Hh, Hn.
  split; [rewrite Ht; apply (mean_of_one 20)|].
  split; [rewrite Hh; reflexivity|].
  split; [rewrite Hn; reflexivity|].
  split; [apply (proj1 (Hins [fresh_dev] [] stale_dev eq_refl)); vm_compute; reflexivity|].
  split; [apply (proj2 (Hins [] [stale_dev] fresh_dev eq_refl));
          [vm_compute; discriminate|reflexivity]|].
  split; [apply Hrow; [|reflexivity]; apply elem_of_cons; right; apply elem_of_cons; by left|].
  reflexivity.
Defined.

(** C7: for each class the mean temperature is the mean over the fresh
    entries of the class whose temperature is present, the mean humidity
    the mean over those whose humidity is present, each undefined (NaN)
    when there is no such entry, and the count is the number of fresh
    entries of the class with at least one of the two fields.  With one
    temperature-only and one humidity-only entry in a class, both means
    are defined, each the value of its one contributor. *)
Theorem averages_per_class (now W : Z) (devices : list Device) :
  LONG_MIN <= now - W <= LONG_MAX ->
  registry_ok devices ->
  compute_averages now W devices =
    {| in_t := mean_of (temps_of now W is_indoor devices);
       in_h := mean_of (rhs_of now W is_indoor devices);
       in_n := count_of now W is_indoor devices;
       g_t := mean_of (temps_of now W is_garden devices);
       g_h := mean_of (rhs_of now W is_garden devices);
       g_n := count_of now W is_garden devices |} /\
  mean_of [] = DNaN /\
  (forall (d1 d2 : Device) (t h : R),
     devices = [d1; d2] ->
     location d1 = location d2 ->
     fresh now W d1 = true -> fresh now W d2 = true ->
     has_temp d1 = true -> temp d1 = DFin t -> has_rh d1 = false ->
     has_temp d2 = false -> has_rh d2 = true -> rh d2 = DFin h ->
     let a := compute_averages now W devices in
     if is_garden d1
     then g_t a = DFin t /\ g_h a = DFin h /\ g_n a = 2 /\
          in_t a = DNaN /\ in_h a = DNaN /\ in_n a = 0
     else in_t a = DFin t /\ in_h a = DFin h /\ in_n a = 2 /\
          g_t a = DNaN /\ g_h a = DNaN /\ g_n a = 0).
Proof.
  intros H Hok.
  assert (Heq : compute_averages now W devices =
    {| in_t := mean_of (temps_of now W is_indoor devices);
       in_h := mean_of (rhs_of now W is_indoor devices);
       in_n := count_of now W is_indoor devices;
       g_t := mean_of (temps_of now W is_garden devices);
       g_h := mean_of (rhs_of now W is_garden devices);
       g_n := count_of now W is_garden devices |}).
  { unfold compute_averages, finish_averages.
    destruct (fold_average_step_sums now W devices sums0 H Hok)
      as (I1 & I2 & I3 & I4 & I5 & I6 & I7 & I8 & I9 & I10).
    rewrite I1, I2, I3, I4, I5, I6, I7, I8, I9, I10.
    cbn [sums0 sum_in_t sum_in_h nin_t nin_h cin sum_g_t sum_g_h ng_t ng_h cg].
    by rewrite !mean_or_nan_mean_of. }
  split; [exact Heq|]. split; [reflexivity|].
  intros d1 d2 t h -> Hloc F1 F2 T1 Ht R1 T2 R2 Hh a.
  unfold a. rewrite Heq. cbn [in_t in_h in_n g_t g_h g_n].
  apply Forall_cons in Hok as [E1 Hok]. apply Forall_cons in Hok as [E2 _].
  unfold temps_of, rhs_of, count_of. rewrite !filter_bool_cons, !filter_nil.
  unfold is_indoor. rewrite E1, E2.
  assert (G2 : is_garden d2 = is_garden d1) by (unfold is_garden; by rewrite Hloc).
  rewrite G2, F1, F2, T1, T2, R1, R2.
  destruct (is_garden d1);
    cbn [andb orb negb map length Z.of_nat]; rewrite ?Ht, ?Hh, ?mean_of_one;
    repeat split; reflexivity.
Qed.

Lemma averages_per_class_witness :
  let now := 1700000000 in
  let d1 := {| id := "G1"; location := "Garden"; ts := now - 10;
               temp := DFin 18; has_temp := true;
               rh := DFin 0; has_rh := false |} in
  let d2 := {| id := "G2"; location := "Garden"; ts := now - 20;
               temp := DFin 0; has_temp := false;
               rh := DFin 70; has_rh := true |} in
  let a := compute_averages now 900 [d1; d2] in
  g_t a = DFin 18 /\ g_h a = DFin 70 /\ g_n a = 2 /\
  in_t a = DNaN /\ in_h a = DNaN /\ in_n a = 0.
Proof.
  intros now d1 d2.
  assert (H : LONG_MIN <= now - 900 <= LONG_MAX) by (vm_compute; split; discriminate).
  assert (Hok : registry_ok [d1; d2]) by (repeat constructor).
  destruct (averages_per_class now 900 [d1; d2] H Hok) as (_ & _ & Hex).
  apply (Hex d1 d2 18%R 70%R); reflexivity.
Defined.

(** ** Dew point *)

Section DewPoint.
Local Open Scope R_scope.

Lemma Rltb_true (x y : R) : x < y -> Rltb x y = true.
Proof. intros H. unfold Rltb. by destruct (Rlt_dec x y). Qed.

Lemma Rltb_false (x y : R) : y <= x -> Rltb x y = false.
Proof. intros H. unfold Rltb. destruct (Rlt_dec x y); [lra|done]. Qed.

Lemma Rleb_true (x y : R) : x <= y -> Rleb x y = true.
Proof. intros H. unfold Rleb. by destruct (Rle_dec x y). Qed.

Lemma Rleb_false (x y : R) : y < x -> Rleb x y = false.
Proof. intros H. unfold Rleb. destruct (Rle_dec x y); [lra|done]. Qed.

Lemma Reqb_refl (x : R) : Reqb x x = true.
Proof. unfold Reqb. by destruct (Req_dec_T x x). Qed.

Lemma is_finite_fin (x : R) :
  -1e300 < x < 1e300 -> is_finite (DFin x) = true.
Proof.
  intros [H1 H2]. unfold is_finite, d_ne, d_gt, d_lt.
  by rewrite Reqb_refl, !Rltb_true.
Qed.

Lemma is_finite_out_of_range (a : double) :
  out_of_range a -> is_finite a = false.
Proof.
  destruct a as [x|[]|]; try reflexivity.
  unfold out_of_range, is_finite, d_ne, d_gt, d_lt.
  rewrite Reqb_refl. intros [H|H].
  - by rewrite (Rltb_false (-1e300) x).
  - rewrite (Rltb_false x 1e300) by exact H. apply andb_false_r.
Qed.

Lemma is_finite_iff (a : double) :
  is_finite a = true <-> exists x, a = DFin x /\ -1e300 < x < 1e300.
Proof.
  split.
  - intros H. destruct a as [x|neg|].
    + exists x. split; [reflexivity|].
      destruct (Rlt_dec (-1e300) x) as [H1|H1], (Rlt_dec x 1e300) as [H2|H2];
        try lra; rewrite is_finite_out_of_range in H; try discriminate;
        unfold out_of_range; lra.
    + by rewrite is_finite_out_of_range in H.
    + by rewrite is_finite_out_of_range in H.
  - intros (x & -> & Hx). by apply is_finite_fin.
Qed.

(** The guard of [dewpoint_c]. *)
Lemma dewpoint_c_undefined (t r : double) :
  out_of_range t \/ out_of_range r \/
  (exists y, r = DFin y /\ (y <= 0 \/ 100 < y)) ->
  dewpoint_c t r = DNaN.
Proof.
  intros H. unfold dewpoint_c.
  destruct H as [H|[H|(y & -> & H)]].
  - by rewrite (is_finite_out_of_range t H).
  - rewrite (is_finite_out_of_range r H). cbn [negb]. by rewrite orb_true_r.
  - destruct H as [H|H].
    + unfold d_le at 1. rewrite (Rleb_true y 0.0) by lra.
      cbn [orb]. by rewrite !orb_true_r.
    + unfold d_gt, d_lt. rewrite (Rltb_true 100.0 y) by lra.
      by rewrite !orb_true_r.
Qed.

Lemma d_div_fin (x y : R) : y <> 0 -> d_div (DFin x) (DFin y) = DFin (x / y).
Proof. intros H. unfold d_div. by rewrite Reqb_false. Qed.

Lemma d_log_fin (x : R) : 0 < x -> d_log (DFin x) = DFin (ln x).
Proof.
  intros H. unfold d_log.
  rewrite Rltb_false, Reqb_false by lra. reflexivity.
Qed.

Lemma ln_le_mono (x y : R) : 0 < x -> x <= y -> ln x <= ln y.
Proof.
  intros Hx [H| ->]; [|lra]. apply Rlt_le, ln_increasing; assumption.
Qed.

Lemma ln_sq_upper (a b : R) : 0 < a -> 0 < b -> b <= a * a -> ln b <= 2 * ln a.
Proof.
  intros Ha Hb H. pose proof (ln_le_mono b (a * a) Hb H) as Hl.
  rewrite ln_mult in Hl by assumption. lra.
Qed.

Lemma ln_sq_lower (a b : R) : 0 < a -> a * a <= b -> 2 * ln a <= ln b.
Proof.
  intros Ha H.
  assert (Haa : 0 < a * a) by (apply Rmult_lt_0_compat; assumption).
  pose proof (ln_le_mono (a * a) b Haa H) as Hl.
  rewrite ln_mult in Hl by assumption. lra.
Qed.

Lemma ln_le_minus_1 (x : R) : 0 < x -> ln x <= x - 1.
Proof.
  intros Hx. pose proof (exp_ineq1_le (x - 1)) as He.
  rewrite <- (ln_exp (x - 1)). apply ln_le_mono; lra.
Qed.

Lemma ln_ge_1_minus_inv (x : R) : 0 < x -> 1 - / x <= ln x.
Proof.
  intros Hx. pose proof (ln_le_minus_1 (/ x) (Rinv_0_lt_compat x Hx)) as H.
  rewrite ln_Rinv in H by exact Hx. lra.
Qed.

Lemma ln_2_upper : ln 2 <= 0.6955.
Proof.
  pose proof (ln_le_mono 2 2.000940321 ltac:(lra) ltac:(lra)) as H7.
  pose proof (ln_sq_upper 1.414545977 2.000940321 ltac:(lra) ltac:(lra) ltac:(lra)) as H6.
  pose proof (ln_sq_upper 1.18934687 1.414545977 ltac:(lra) ltac:(lra) ltac:(lra)) as H5.
  pose proof (ln_sq_upper 1.090571809 1.18934687 ltac:(lra) ltac:(lra) ltac:(lra)) as H4.
  pose proof (ln_sq_upper 1.044304462 1.090571809 ltac:(lra) ltac:(lra) ltac:(lra)) as H3.
  pose proof (ln_sq_upper 1.02191216 1.044304462 ltac:(lra) ltac:(lra) ltac:(lra)) as H2.
  pose proof (ln_sq_upper 1.010896711 1.02191216 ltac:(lra) ltac:(lra) ltac:(lra)) as H1.
  pose proof (ln_sq_upper 1.00543359375 1.010896711 ltac:(lra) ltac:(lra) ltac:(lra)) as H0.
  pose proof (ln_le_minus_1 1.00543359375 ltac:(lra)) as Hl.
  lra.
Qed.

Lemma ln_2_lower : 0.6869 <= ln 2.
Proof.
  pose proof (ln_le_mono 1.995031704 2 ltac:(lra) ltac:(lra)) as H6.
  pose proof (ln_sq_lower 1.412455912 1.995031704 ltac:(lra) ltac:(lra)) as H5.
  pose proof (ln_sq_lower 1.188467884 1.412455912 ltac:(lra) ltac:(lra)) as H4.
  pose proof (ln_sq_lower 1.090168741 1.188467884 ltac:(lra) ltac:(lra)) as H3.
  pose proof (ln_sq_lower 1.04411146 1.090168741 ltac:(lra) ltac:(lra)) as H2.
  pose proof (ln_sq_lower 1.021817723 1.04411146 ltac:(lra) ltac:(lra)) as H1.
  pose proof (ln_sq_lower 1.01085 1.021817723 ltac:(lra) ltac:(lra)) as H0.
  pose proof (ln_ge_1_minus_inv 1.01085 ltac:(lra)) as Hl.
  assert (Hi : / 1.01085 <= 0.989267) .
  { apply (Rmult_le_reg_l 1.01085); [lra|]. rewrite Rinv_r by lra. lra. }
  lra.
Qed.

Lemma magnus_gamma_20_50 : 0.6438 <= magnus_gamma 20 50 <= 0.6525.
Proof.
  unfold magnus_gamma.
  replace (50 / 100) with (/ 2) by lra.
  rewrite ln_Rinv by lra.
  pose proof ln_2_upper. pose proof ln_2_lower.
  assert (Hq : 1.3393 <= 17.62 * 20 / (243.12 + 20) <= 1.3394).
  { replace (17.62 * 20 / (243.12 + 20)) with (352.4 * / 263.12) by lra.
    assert (Hi : 0.0038005 <= / 263.12 <= 0.0038006).
    { split.
      - apply (Rmult_le_reg_l 263.12); [lra|]. rewrite Rinv_r by lra. lra.
      - apply (Rmult_le_reg_l 263.12); [lra|]. rewrite Rinv_r by lra. lra. }
    lra. }
  lra.
Qed.

End DewPoint.

(** ** Dew point in rounded arithmetic *)

Section DewPointRounded.
Local Open Scope R_scope.

Lemma dewpoint_c_in_exact (t r : double) :
  dewpoint_c_in exact_arith t r = dewpoint_c t r.
Proof. reflexivity. Qed.

Lemma rounds_exact (eps : R) : 0 <= eps -> rounds eps exact_arith.
Proof.
  intros He.
  assert (H0 : forall v, Rabs (v - v) <= eps * Rabs v + 1e-300).
  { intros v. replace (v - v) with 0 by lra. rewrite Rabs_R0.
    pose proof (Rabs_pos v). nra. }
  repeat split; cbn [exact_arith f_lit f_add f_sub f_mul f_div f_log].
  - intros x _. exists x. by split.
  - intros x y _. exists (x + y). by split.
  - intros x y _. exists (x - y). split; [|apply H0].
    unfold d_sub, d_neg, d_add. f_equal.
  - intros x y _. exists (x * y). by split.
  - intros x y Hy _. exists (x / y). split; [by apply d_div_fin|apply H0].
  - intros x Hx _. exists (ln x). split; [by apply d_log_fin|apply H0].
Qed.

Lemma Rabs_bounds (a b : R) : Rabs a <= b -> - b <= a <= b.
Proof. unfold Rabs. destruct (Rcase_abs a); lra. Qed.

(** An operation of exact value [v] with [|v| <= M] is off by at most
    [1e-12 * (M + 1)]. *)
Lemma near_within (eps v M : R) (d : double) :
  0 <= eps <= 1e-12 -> near eps v d -> - M <= v <= M -> M <= 1e299 ->
  exists r : R, d = DFin r /\ - (1e-12 * (M + 1)) <= r - v <= 1e-12 * (M + 1).
Proof.
  intros He Hn Hv HM.
  assert (Hav : Rabs v <= M) by (apply Rabs_le; lra).
  destruct Hn as (r & Hd & Hr); [lra|].
  exists r. split; [exact Hd|]. apply Rabs_bounds.
  pose proof (Rabs_pos v). nra.
Qed.

Lemma quot_bound (a b e m : R) :
  0 < m -> m <= b -> - e <= a <= e -> - (e / m) <= a / b <= e / m.
Proof.
  intros Hm Hb Ha. unfold Rdiv.
  assert (Hp : 0 < / b) by (apply Rinv_0_lt_compat; lra).
  assert (Hq : / b <= / m) by (apply Rinv_le_contravar; lra).
  nra.
Qed.

Lemma div_close (x x' y y' ex ey Mx my : R) :
  0 < my -> my <= y -> my <= y' -> - Mx <= x <= Mx ->
  - ex <= x' - x <= ex -> - ey <= y' - y <= ey ->
  - (ex / my + Mx * ey / (my * my)) <= x' / y' - x / y
    <= ex / my + Mx * ey / (my * my).
Proof.
  intros Hm Hy Hy' Hx Hex Hey.
  replace (x' / y' - x / y)
    with ((x' - x) / y' + (x * (y - y')) / (y * y')) by (field; lra).
  pose proof (quot_bound (x' - x) y' ex my Hm Hy' Hex) as H1.
  assert (Hmm : 0 < my * my) by nra.
  assert (Hyy : my * my <= y * y') by nra.
  assert (Hnum : - (Mx * ey) <= x * (y - y') <= Mx * ey) by nra.
  pose proof (quot_bound (x * (y - y')) (y * y') (Mx * ey) (my * my)
                Hmm Hyy Hnum) as H2.
  lra.
Qed.

Lemma mul_close (x x' y y' ex ey Mx My : R) :
  - Mx <= x <= Mx -> - My <= y' <= My ->
  - ex <= x' - x <= ex -> - ey <= y' - y <= ey ->
  - (ex * My + Mx * ey) <= x' * y' - x * y <= ex * My + Mx * ey.
Proof.
  intros Hx Hy Hex Hey.
  replace (x' * y' - x * y) with ((x' - x) * y' + x * (y' - y)) by ring.
  assert (H1 : - (ex * My) <= (x' - x) * y' <= ex * My) by nra.
  assert (H2 : - (Mx * ey) <= x * (y' - y) <= Mx * ey) by nra.
  lra.
Qed.

Lemma ln_quot (x y : R) : 0 < x -> 0 < y -> ln (x / y) = ln x - ln y.
Proof.
  intros Hx Hy. unfold Rdiv.
  rewrite ln_mult by (try apply Rinv_0_lt_compat; lra).
  rewrite ln_Rinv by lra. lra.
Qed.

Lemma ln_close (x x' e m : R) :
  0 < m -> m <= x -> m <= x' -> - e <= x' - x <= e ->
  - (e / m) <= ln x' - ln x <= e / m.
Proof.
  intros Hm Hx Hx' He.
  assert (H1 : ln x' - ln x <= (x' - x) / x).
  { rewrite <- ln_quot by lra.
    pose proof (ln_le_minus_1 (x' / x) ltac:(apply Rdiv_lt_0_compat; lra)) as H.
    replace ((x' - x) / x) with (x' / x - 1) by (field; lra). exact H. }
  assert (H2 : ln x - ln x' <= (x - x') / x').
  { rewrite <- ln_quot by lra.
    pose proof (ln_le_minus_1 (x / x') ltac:(apply Rdiv_lt_0_compat; lra)) as H.
    replace ((x - x') / x') with (x / x' - 1) by (field; lra). exact H. }
  pose proof (quot_bound (x' - x) x e m Hm Hx He).
  pose proof (quot_bound (x - x') x' e m Hm Hx' ltac:(lra)).
  lra.
Qed.

Lemma ln_100_upper : ln 100 <= 5.
Proof.
  pose proof ln_2_upper as H2.
  pose proof (ln_le_mono 100 128 ltac:(lra) ltac:(lra)) as H.
  replace 128 with (2 * (2 * (2 * (2 * (2 * (2 * 2)))))) in H by lra.
  rewrite !ln_mult in H by lra. lra.
Qed.

Lemma ln_percent (r : R) : 1 <= r <= 100 -> -5 <= ln (r / 100) <= 0.
Proof.
  intros Hr. split.
  - pose proof ln_100_upper as H100.
    pose proof (ln_le_mono (/ 100) (r / 100) ltac:(lra) ltac:(lra)) as H.
    rewrite ln_Rinv in H by lra. lra.
  - rewrite <- ln_1. apply ln_le_mono; lra.
Qed.

Lemma magnus_quotient (t : R) :
  -100 <= t <= 100 -> -12.4 <= 17.62 * t / (243.12 + t) <= 5.2.
Proof.
  intros Ht.
  assert (Hs : 0 < 243.12 + t) by lra.
  split.
  - apply (Rmult_le_reg_r (243.12 + t)); [exact Hs|].
    unfold Rdiv. rewrite Rmult_assoc, Rinv_l by lra. lra.
  - apply (Rmult_le_reg_r (243.12 + t)); [exact Hs|].
    unfold Rdiv. rewrite Rmult_assoc, Rinv_l by lra. lra.
Qed.

(** In every arithmetic that rounds within 1e-12, the dew point of a
    temperature in [-100, 100] and a humidity in [1, 100] is a number
    within 1e-7 of the value of the Magnus formula. *)
Lemma dewpoint_c_in_accurate (A : Arith) (eps t r : R) :
  0 <= eps <= 1e-12 -> rounds eps A ->
  -100 <= t <= 100 -> 1 <= r <= 100 ->
  exists v : R,
    dewpoint_c_in A (DFin t) (DFin r) = DFin v /\
    Rabs (v - magnus t r) <= 1e-7.
Proof.
  intros He (Hlit & Hadd & Hsub & Hmul & Hdiv & Hlog) Ht Hr.
  unfold dewpoint_c_in.
  rewrite (is_finite_fin t), (is_finite_fin r) by lra.
  unfold d_le, d_gt, d_lt.
  rewrite (Rleb_false r 0.0), (Rltb_false 100.0 r) by lra.
  cbn [negb orb].
  pose proof (ln_percent r Hr) as HL.
  pose proof (magnus_quotient t Ht) as Hq.
  set (L := ln (r / 100)) in *.
  set (q := 17.62 * t / (243.12 + t)) in *.
  (* the literals *)
  destruct (near_within eps 17.62 18 _ He (Hlit 17.62) ltac:(lra) ltac:(lra))
    as (a' & -> & Ha).
  destruct (near_within eps 243.12 244 _ He (Hlit 243.12) ltac:(lra) ltac:(lra))
    as (b' & -> & Hb).
  (* rh_pct / 100.0 *)
  destruct (near_within eps (r / 100.0) 1 _ He (Hdiv r 100.0 ltac:(lra))
              ltac:(lra) ltac:(lra)) as (x1 & -> & Hx1).
  (* log *)
  assert (Hx1p : 0.009 <= x1) by lra.
  pose proof (ln_close (r / 100) x1 2e-12 0.009 ltac:(lra) ltac:(lra) Hx1p
                ltac:(lra)) as Hln.
  fold L in Hln.
  destruct (near_within eps (ln x1) 6 _ He (Hlog x1 ltac:(lra))
              ltac:(lra) ltac:(lra)) as (L' & -> & HL').
  assert (HLe : - 3e-10 <= L' - L <= 3e-10) by lra.
  (* a * t_c *)
  assert (Hat : - 1770 <= a' * t <= 1770) by nra.
  destruct (near_within eps (a' * t) 1770 _ He (Hmul a' t) Hat ltac:(lra))
    as (m' & -> & Hm').
  assert (Hme : - 4e-9 <= m' - 17.62 * t <= 4e-9) by nra.
  (* b + t_c *)
  destruct (near_within eps (b' + t) 345 _ He (Hadd b' t) ltac:(lra) ltac:(lra))
    as (s' & -> & Hs').
  assert (Hse : - 6e-10 <= s' - (243.12 + t) <= 6e-10) by lra.
  (* (a * t_c) / (b + t_c) *)
  pose proof (div_close (17.62 * t) m' (243.12 + t) s' 4e-9 6e-10 1762 143
                ltac:(lra) ltac:(lra) ltac:(lra) ltac:(lra) ltac:(lra) ltac:(lra)) as Hd.
  fold q in Hd.
  destruct (near_within eps (m' / s') 13 _ He (Hdiv m' s' ltac:(lra))
              ltac:(lra) ltac:(lra)) as (d' & -> & Hd').
  assert (Hde : - 1e-10 <= d' - q <= 1e-10) by lra.
  (* gamma *)
  destruct (near_within eps (L' + d') 18 _ He (Hadd L' d') ltac:(lra) ltac:(lra))
    as (g' & -> & Hg').
  set (g := magnus_gamma t r).
  assert (Hg : g = L + q) by reflexivity.
  assert (Hge : - 5e-10 <= g' - g <= 5e-10) by lra.
  assert (Hgb : - 17.4 <= g <= 5.2) by lra.
  (* b * gamma *)
  pose proof (mul_close 243.12 b' g g' 2.5e-10 5e-10 243.12 18
                ltac:(lra) ltac:(lra) ltac:(lra) ltac:(lra)) as Hn.
  destruct (near_within eps (b' * g') 4400 _ He (Hmul b' g') ltac:(nra) ltac:(lra))
    as (n' & -> & Hn').
  assert (Hne : - 1.4e-7 <= n' - 243.12 * g <= 1.4e-7) by lra.
  (* a - gamma *)
  destruct (near_within eps (a' - g') 36 _ He (Hsub a' g') ltac:(lra) ltac:(lra))
    as (D' & -> & HD').
  assert (HDe : - 6e-10 <= D' - (17.62 - g) <= 6e-10) by lra.
  (* the quotient *)
  pose proof (div_close (243.12 * g) n' (17.62 - g) D' 1.4e-7 6e-10 4300 12.4
                ltac:(lra) ltac:(lra) ltac:(lra) ltac:(lra) ltac:(lra) ltac:(lra)) as Hv.
  pose proof (quot_bound (243.12 * g) (17.62 - g) 4300 12.4
                ltac:(lra) ltac:(lra) ltac:(lra)) as Hmag.
  destruct (near_within eps (n' / D') 400 _ He (Hdiv n' D' ltac:(lra))
              ltac:(lra) ltac:(lra)) as (v & -> & Hv').
  exists v. split; [reflexivity|].
  unfold magnus. fold g. apply Rabs_le. lra.
Qed.
End DewPointRounded.

Local Open Scope R_scope.

Lemma magnus_20_50_tight : Rabs (magnus 20 50 - 9.3) <= 0.09.
Proof.
  pose proof magnus_gamma_20_50 as Hg. unfold magnus.
  set (g := magnus_gamma 20 50) in *.
  assert (HD : 0 < 17.62 - g) by lra.
  apply Rabs_le. split.
  - apply (Rmult_le_reg_r (17.62 - g)); [exact HD|].
    unfold Rdiv. rewrite Rmult_minus_distr_r, Rmult_assoc, Rinv_l by lra. nra.
  - apply (Rmult_le_reg_r (17.62 - g)); [exact HD|].
    unfold Rdiv. rewrite Rmult_minus_distr_r, Rmult_assoc, Rinv_l by lra. nra.
Qed.

(** The guard of [dewpoint_c], whatever the arithmetic. *)
Lemma dewpoint_c_in_undefined (A : Arith) (t r : double) :
  out_of_range t \/ out_of_range r \/
  (exists y, r = DFin y /\ (y <= 0 \/ 100 < y)) ->
  dewpoint_c_in A t r = DNaN.
Proof.
  intros H. unfold dewpoint_c_in.
  destruct H as [H|[H|(y & -> & H)]].
  - by rewrite (is_finite_out_of_range t H).
  - rewrite (is_finite_out_of_range r H). cbn [negb]. by rewrite orb_true_r.
  - destruct H as [H|H].
    + unfold d_le at 1. rewrite (Rleb_true y 0.0) by lra.
      cbn [orb]. by rewrite !orb_true_r.
    + unfold d_gt, d_lt. rewrite (Rltb_true 100.0 y) by lra.
      by rewrite !orb_true_r.
Qed.

(** C6, as stated, fails: 1e300 is a finite temperature and 50 a valid
    humidity, so the specification's dew point is the value of the
    formula, but [is_finite] refuses 1e300 and the code returns NaN. *)
Lemma dewpoint_c_refuses_1e300 :
  dewpoint_spec (DFin 1e300) (DFin 50) = Some (magnus 1e300 50) /\
  dewpoint_c (DFin 1e300) (DFin 50) = DNaN /\
  dewpoint_c (DFin 1e300) (DFin 50) <> DFin (magnus 1e300 50).
Proof.
  assert (H : dewpoint_c (DFin 1e300) (DFin 50) = DNaN).
  { apply dewpoint_c_undefined. left. unfold out_of_range. lra. }
  split; [|split; [exact H|rewrite H; discriminate]].
  unfold dewpoint_spec. by rewrite Rleb_false, Rltb_false by lra.
Qed.

(** C6, amended: the dew point is undefined (NaN) if [r <= 0], [r > 100],
    or an input is NaN, an infinity or of magnitude 1e300 or more (what
    [is_finite] refuses).  For the other inputs the code evaluates
    [243.12*g / (17.62 - g)] with [g = log (r/100) + 17.62*t / (243.12 + t)]
    in [double] arithmetic, so the result is the value of the formula up
    to rounding only: in every arithmetic whose literals, operations and
    [log] round within a relative error of 1e-12, the dew point of a
    temperature in [-100, 100] and a humidity in [1, 100] is a number
    within 1e-7 of the formula's value, and [dewpoint_c 20 50] is within
    0.1 of 9.3.  [dewpoint_c t 0] and [dewpoint_c t 101] are undefined for
    every [t]. *)
Theorem dewpoint_c_correct (A : Arith) :
  (forall t r : double,
     out_of_range t \/ out_of_range r \/
     (exists y, r = DFin y /\ (y <= 0 \/ 100 < y)) ->
     dewpoint_c_in A t r = DNaN) /\
  (forall eps t r : R,
     0 <= eps <= 1e-12 -> rounds eps A ->
     -100 <= t <= 100 -> 1 <= r <= 100 ->
     exists v : R,
       dewpoint_c_in A (DFin t) (DFin r) = DFin v /\
       Rabs (v - 243.12 * magnus_gamma t r / (17.62 - magnus_gamma t r))
         <= 1e-7) /\
  (forall eps : R,
     0 <= eps <= 1e-12 -> rounds eps A ->
     exists v : R,
       dewpoint_c_in A (DFin 20) (DFin 50) = DFin v /\
       Rabs (v - 9.3) <= 0.1) /\
  (forall t : double, dewpoint_c_in A t (DFin 0) = DNaN) /\
  (forall t : double, dewpoint_c_in A t (DFin 101) = DNaN).
Proof.
  split; [apply dewpoint_c_in_undefined|]. split; [|split; [|split]].
  - intros eps t r He HA Ht Hr.
    apply (dewpoint_c_in_accurate A eps t r He HA Ht Hr).
  - intros eps He HA.
    destruct (dewpoint_c_in_accurate A eps 20 50 He HA ltac:(lra) ltac:(lra))
      as (v & Hv & Hclose).
    exists v. split; [exact Hv|].
    pose proof magnus_20_50_tight as Hm.
    apply Rabs_bounds in Hclose. apply Rabs_bounds in Hm.
    apply Rabs_le. lra.
  - intros t. apply dewpoint_c_in_undefined. right. right.
    exists 0. split; [reflexivity|lra].
  - intros t. apply dewpoint_c_in_undefined. right. right.
    exists 101. split; [reflexivity|lra].
Qed.

Lemma dewpoint_c_correct_witness :
  (exists v : R,
     dewpoint_c (DFin 20) (DFin 50) = DFin v /\ Rabs (v - 9.3) <= 0.1) /\
  dewpoint_c (DFin 20) (DFin 120) = DNaN.
Proof.
  destruct (dewpoint_c_correct exact_arith) as (Hundef & _ & Hex & _).
  split.
  - apply (Hex 0); [lra|apply rounds_exact; lra].
  - apply (Hundef (DFin 20) (DFin 120)). right. right.
    exists 120. split; [reflexivity|lra].
Defined.

Local Close Scope R_scope.

(** * Further properties *)

(** ** Trimming and case-insensitive comparison *)

Lemma skip_spaces_split (s : string) :
  exists pre, s = (pre ++ skip_spaces s)%string /\ all_spaces pre = true.
Proof.
  induction s as [|c s (pre & Hs & Hpre)].
  - exists EmptyString. by split.
  - cbn [skip_spaces]. destruct (isspace c) eqn:Hc.
    + exists (String c pre). simpl. rewrite Hc, Hpre.
      split; [exact (f_equal (String c) Hs)|done].
    + exists EmptyString. by split.
Qed.

Lemma skip_spaces_first (s : string) (c : ascii) :
  first_byte (skip_spaces s) = Some c -> isspace c = false.
Proof.
  induction s as [|c0 s IH]; cbn; [discriminate|].
  destruct (isspace c0) eqn:Hc; [exact IH|].
  cbn. intros H. by inversion H; subst.
Qed.

Lemma strip_trailing_spaces_split (s : string) :
  exists post, s = (strip_trailing_spaces s ++ post)%string
               /\ all_spaces post = true.
Proof.
  induction s as [|c s (post & Hs & Hpost)].
  - exists EmptyString. by split.
  - cbn [strip_trailing_spaces].
    destruct (strip_trailing_spaces s) as [|c1 r] eqn:E.
    + destruct (isspace c) eqn:Hc.
      * exists (String c post). simpl in *. rewrite Hc, Hpost.
        split; [exact (f_equal (String c) Hs)|done].
      * exists post. split; [exact (f_equal (String c) Hs)|done].
    + exists post. split; [exact (f_equal (String c) Hs)|done].
Qed.

Lemma strip_trailing_spaces_last (s : string) (c : ascii) :
  last_byte (strip_trailing_spaces s) = Some c -> isspace c = false.
Proof.
  induction s as [|c0 s IH]; cbn [strip_trailing_spaces]; [discriminate|].
  destruct (strip_trailing_spaces s) as [|c1 r] eqn:E.
  - destruct (isspace c0) eqn:Hc; cbn; [discriminate|].
    intros H. by inversion H; subst.
  - exact IH.
Qed.

Lemma strip_trailing_spaces_first (s : string) (c : ascii) :
  first_byte s = Some c -> isspace c = false ->
  first_byte (strip_trailing_spaces s) = Some c.
Proof.
  destruct s as [|c0 s]; cbn [first_byte strip_trailing_spaces]; [discriminate|].
  intros H Hc. inversion H; subst c0.
  destruct (strip_trailing_spaces s); [by rewrite Hc|done].
Qed.

Lemma skip_spaces_id (s : string) :
  (forall c, first_byte s = Some c -> isspace c = false) -> skip_spaces s = s.
Proof.
  destruct s as [|c s]; [done|]. intros H. cbn.
  by rewrite (H c eq_refl).
Qed.

Lemma strip_trailing_spaces_idem (s : string) :
  strip_trailing_spaces (strip_trailing_spaces s) = strip_trailing_spaces s.
Proof.
  induction s as [|c s IH]; [done|]. cbn [strip_trailing_spaces].
  destruct (strip_trailing_spaces s) as [|c1 r] eqn:E.
  - destruct (isspace c) eqn:Hc; [done|]. cbn. by rewrite Hc.
  - cbn [strip_trailing_spaces]. cbn [strip_trailing_spaces] in IH.
    by rewrite IH.
Qed.

(** X1: [trim_inplace] removes spaces only, on the two sides: the input
    is spaces, then the result, then spaces; the result neither starts
    nor ends with a space, and trimming it again changes nothing. *)
Theorem trim_inplace_spec (s : string) :
  (exists pre post,
     s = (pre ++ trim_inplace s ++ post)%string /\
     all_spaces pre = true /\ all_spaces post = true) /\
  (forall c, first_byte (trim_inplace s) = Some c -> isspace c = false) /\
  (forall c, last_byte (trim_inplace s) = Some c -> isspace c = false) /\
  trim_inplace (trim_inplace s) = trim_inplace s.
Proof.
  assert (Hfirst : forall c, first_byte (trim_inplace s) = Some c ->
                             isspace c = false).
  { intros c Hc. unfold trim_inplace in Hc.
    destruct (first_byte (skip_spaces s)) as [c0|] eqn:E.
    - pose proof (skip_spaces_first s c0 E) as Hc0.
      rewrite (strip_trailing_spaces_first _ c0 E Hc0) in Hc. by inversion Hc; subst.
    - destruct (skip_spaces s); [discriminate Hc|discriminate E]. }
  split; [|split; [exact Hfirst|split]].
  - destruct (skip_spaces_split s) as (pre & Hs & Hpre).
    destruct (strip_trailing_spaces_split (skip_spaces s)) as (post & Ht & Hpost).
    exists pre, post. split; [|by split].
    unfold trim_inplace. by rewrite <- Ht.
  - apply strip_trailing_spaces_last.
  - unfold trim_inplace at 1. rewrite (skip_spaces_id _ Hfirst).
    unfold trim_inplace. apply strip_trailing_spaces_idem.
Qed.

Lemma lower_tolower_idem (c : ascii) : tolower (tolower c) = tolower c.
Proof.
  unfold tolower.
  destruct ((65 <=? N_of_ascii c)%N && (N_of_ascii c <=? 90)%N) eqn:E.
  - apply andb_true_iff in E as [E1 E2].
    apply N.leb_le in E1, E2.
    assert (H : (N_of_ascii c + 32 < 256)%N) by lia.
    rewrite N_ascii_embedding by exact H.
    destruct (N.leb_spec (N_of_ascii c + 32) 90); [lia|].
    by rewrite andb_false_r.
  - by rewrite E.
Qed.

(** X2: [equals_ci] is equality after lower-casing the ASCII letters, so
    it is reflexive, symmetric and transitive, it holds between a string
    and its lower-cased form, and strings it relates have the same
    length. *)
Theorem equals_ci_equivalence (a b c : string) :
  (equals_ci a b = true <-> lower a = lower b) /\
  equals_ci a a = true /\
  equals_ci a b = equals_ci b a /\
  (equals_ci a b = true -> equals_ci b c = true -> equals_ci a c = true) /\
  equals_ci a (lower a) = true /\
  (equals_ci a b = true -> String.length a = String.length b).
Proof.
  rewrite !equals_ci_lower.
  split; [apply String.eqb_eq|]. split; [apply String.eqb_refl|].
  split; [apply String.eqb_sym|]. split; [|split].
  - rewrite !String.eqb_eq. congruence.
  - apply String.eqb_eq. induction a as [|x a IH]; [done|].
    cbn [lower]. by rewrite lower_tolower_idem, <- IH.
  - rewrite <- equals_ci_lower. apply equals_ci_length.
Qed.

Lemma equals_ci_equivalence_witness :
  equals_ci "Garden" "gArDeN" = true /\ equals_ci "GARDEN" "gArDeN" = true.
Proof.
  destruct (equals_ci_equivalence "GARDEN" "garden" "gArDeN")
    as (_ & _ & Hsym & Htrans & _).
  split; [reflexivity|]. apply Htrans; reflexivity.
Defined.

Lemma trim_inplace_spec_witness :
  isspace "a" = false /\ isspace "b" = false.
Proof.
  destruct (trim_inplace_spec "  a b  ") as (_ & Hfirst & Hlast & _).
  split; [apply Hfirst | apply Hlast]; reflexivity.
Defined.

(** ** The queue under any interleaving *)

Lemma q_pop_cap (q : LineQueue) : cap (snd (q_pop_nowait q)) = cap q.
Proof. unfold q_pop_nowait. by destruct (head q =? tail q). Qed.

Lemma q_run_refines (ops : list q_op) (q : LineQueue) (l : list string) :
  q_holds q l ->
  fst (q_run q ops) = fst (fifo_run (Z.to_nat (cap q - 1)) l ops) /\
  q_holds (snd (q_run q ops)) (snd (fifo_run (Z.to_nat (cap q - 1)) l ops)).
Proof.
  revert q l. induction ops as [|[x|] ops IH]; intros q l Hq.
  - by split.
  - cbn [q_run fifo_run].
    pose proof (q_holds_length q l Hq) as Hlt.
    pose proof (q_push_holds q l x Hq) as Hpush.
    specialize (IH _ _ Hpush). rewrite q_push_cap in IH.
    unfold fifo_push.
    destruct (Z.eqb_spec (Z.of_nat (length l)) (cap q - 1));
      destruct (Nat.eqb_spec (length l) (Z.to_nat (cap q - 1))); try lia;
      exact IH.
  - cbn [q_run fifo_run]. destruct l as [|x l].
    + rewrite (q_pop_empty q Hq). specialize (IH q [] Hq).
      cbn [tl hd_error].
      destruct (q_run q ops), (fifo_run _ [] ops). cbn in *.
      destruct IH as [-> IH]. by split.
    + destruct (q_pop_holds q x l Hq) as (q' & Hpop & Hq').
      pose proof (q_pop_cap q) as Hcap. rewrite Hpop in *. cbn [snd] in Hcap.
      specialize (IH q' l Hq'). rewrite Hcap in IH.
      cbn [tl hd_error].
      destruct (q_run q' ops), (fifo_run _ l ops). cbn in *.
      destruct IH as [-> IH]. by split.
Qed.

Lemma q_run_cap (ops : list q_op) (q : LineQueue) :
  cap (snd (q_run q ops)) = cap q.
Proof.
  revert q. induction ops as [|[x|] ops IH]; intros q; [done| |].
  - cbn [q_run]. by rewrite IH, q_push_cap.
  - cbn [q_run]. pose proof (q_pop_cap q) as Hc.
    destruct (q_pop_nowait q) as [out q1]. specialize (IH q1).
    destruct (q_run q1 ops). cbn in *. congruence.
Qed.

(** X3: whatever the interleaving of pushes by the reader and pops by the
    UI loop, a queue created with [C >= 1] slots answers every pop as a
    first-in first-out list bounded to [C - 1] lines does, which drops its
    oldest line when a line is pushed while it is full: lines come out in
    the order they went in, none twice, and a pop on the empty queue
    gives NULL. *)
Theorem queue_is_bounded_fifo (C : Z) (ops : list q_op) :
  1 <= C ->
  fst (q_run (q_create C) ops) = fst (fifo_run (Z.to_nat (C - 1)) [] ops) /\
  q_holds (snd (q_run (q_create C) ops))
          (snd (fifo_run (Z.to_nat (C - 1)) [] ops)) /\
  Z.of_nat (length (snd (fifo_run (Z.to_nat (C - 1)) [] ops))) <= C - 1.
Proof.
  intros HC.
  destruct (q_run_refines ops (q_create C) [] (q_create_holds C HC)) as [H1 H2].
  change (cap (q_create C)) with C in *.
  split; [exact H1|]. split; [exact H2|].
  pose proof (q_holds_length _ _ H2) as Hlen.
  rewrite q_run_cap in Hlen. change (cap (q_create C)) with C in Hlen. lia.
Qed.

Lemma queue_is_bounded_fifo_witness :
  fst (q_run (q_create 3)
         [OpPop; OpPush "a"; OpPush "b"; OpPop; OpPush "c"; OpPush "d";
          OpPop; OpPop; OpPop])
    = [None; Some "a"; Some "c"; Some "d"; None].
Proof.
  destruct (queue_is_bounded_fifo 3
              [OpPop; OpPush "a"; OpPush "b"; OpPop; OpPush "c"; OpPush "d";
               OpPop; OpPop; OpPop] ltac:(lia)) as [H _].
  rewrite H. reflexivity.
Defined.

Lemma fifo_run_pops (k : nat) (l : list string) (n : nat) :
  (length l <= n)%nat ->
  fifo_run k l (replicate n OpPop)
    = ((map Some l ++ replicate (n - length l) None)%list, []).
Proof.
  revert l. induction n as [|n IH]; intros l Hl.
  - destruct l; [reflexivity|cbn in Hl; lia].
  - cbn [replicate fifo_run]. destruct l as [|x l].
    + cbn [tl hd_error]. rewrite (IH [] ltac:(cbn; lia)).
      cbn [length map app]. by rewrite !Nat.sub_0_r.
    + cbn [tl hd_error]. cbn [length] in Hl.
      rewrite (IH l ltac:(lia)). reflexivity.
Qed.

Lemma fifo_run_push_pop (k n : nat) (x : string) :
  (1 <= k)%nat ->
  fifo_run k [] (concat (replicate n [OpPush x; OpPop]))
    = (replicate n (Some x), []).
Proof.
  intros Hk. induction n as [|n IH]; [reflexivity|].
  cbn [replicate concat app fifo_run]. unfold fifo_push.
  destruct (Nat.eqb_spec (length (@nil string)) k) as [E|_]; [cbn in E; lia|].
  cbn [app tl hd_error]. by rewrite IH.
Qed.

(** X4: the drain loop of [main] pops until a pop finds the queue empty.
    While the reader pushes nothing, the pops give the lines that were
    queued, oldest first, and then NULL: the loop ends with the queue
    empty after fewer than [C] lines.  With the reader pushing between the
    pops there is no such bound: any number of pops in a row can
    succeed. *)
Theorem drain_while_reader_idle (C : Z) (ops : list q_op) (n : nat) :
  1 <= C -> C - 1 <= Z.of_nat n ->
  let q := snd (q_run (q_create C) ops) in
  let queued := snd (fifo_run (Z.to_nat (C - 1)) [] ops) in
  Z.of_nat (length queued) < C /\
  fst (q_run q (replicate n OpPop))
    = (map Some queued ++ replicate (n - length queued) None)%list /\
  (exists q', q_drain (S n) q = (queued, q') /\
              q_pop_nowait q' = (None, q') /\ head q' = tail q') /\
  (forall (k : nat) (x : string),
     2 <= C ->
     fst (q_run (q_create C) (concat (replicate k [OpPush x; OpPop])))
       = replicate k (Some x)).
Proof.
  intros HC Hn q queued.
  destruct (q_run_refines ops (q_create C) [] (q_create_holds C HC)) as [_ H2].
  change (cap (q_create C)) with C in *. fold q queued in H2.
  pose proof (q_holds_length _ _ H2) as Hlen.
  assert (Hcap : cap q = C) by (unfold q; by rewrite q_run_cap).
  rewrite Hcap in Hlen.
  split; [lia|]. split; [|split].
  - destruct (q_run_refines (replicate n OpPop) q queued H2) as [-> _].
    rewrite Hcap, fifo_run_pops by lia. reflexivity.
  - destruct (q_drain_holds (S n) _ _ H2 ltac:(lia)) as (q' & Hd & Hq').
    exists q'. split; [exact Hd|]. split; [by apply q_pop_empty|].
    destruct Hq' as (Hc & _ & Hh & Ht & Hl & _).
    cbn [length] in Hl. revert Hl. mod_cases; lia.
  - intros k x HC2.
    destruct (q_run_refines (concat (replicate k [OpPush x; OpPop]))
                (q_create C) [] (q_create_holds C HC)) as [-> _].
    change (cap (q_create C)) with C.
    rewrite fifo_run_push_pop by lia. reflexivity.
Qed.

Lemma drain_while_reader_idle_witness :
  let q := snd (q_run (q_create 3)
                  [OpPush "a"; OpPush "b"; OpPop; OpPush "c"; OpPush "d"]) in
  fst (q_run q (replicate 4 OpPop)) = [Some "c"; Some "d"; None; None] /\
  fst (q_run (q_create 3) (concat (replicate 5 [OpPush "x"; OpPop])))
    = replicate 5 (Some "x").
Proof.
  intros q.
  destruct (drain_while_reader_idle 3
              [OpPush "a"; OpPush "b"; OpPop; OpPush "c"; OpPush "d"] 4
              ltac:(lia) ltac:(lia)) as (_ & Hpops & _ & Hmore).
  split; [exact Hpops|apply Hmore; lia].
Defined.

(** ** The registry over its lifetime *)

Lemma trim_inplace_idem (s : string) :
  trim_inplace (trim_inplace s) = trim_inplace s.
Proof.
  assert (Hfirst : forall c, first_byte (trim_inplace s) = Some c ->
                             isspace c = false).
  { intros c Hc. unfold trim_inplace in Hc.
    destruct (first_byte (skip_spaces s)) as [c0|] eqn:E.
    - pose proof (skip_spaces_first s c0 E) as Hc0.
      rewrite (strip_trailing_spaces_first _ c0 E Hc0) in Hc. by inversion Hc; subst.
    - destruct (skip_spaces s); [discriminate Hc|discriminate E]. }
  unfold trim_inplace at 1. rewrite (skip_spaces_id _ Hfirst).
  unfold trim_inplace. apply strip_trailing_spaces_idem.
Qed.

Lemma snprintf_trim_length (size : Z) (s : string) :
  (String.length (trim_inplace (snprintf_s size s)) <= Z.to_nat (size - 1))%nat.
Proof.
  unfold snprintf_s.
  pose proof (trim_inplace_length (str_take (Z.to_nat (size - 1)) s)).
  pose proof (str_take_length (Z.to_nat (size - 1)) s). lia.
Qed.

(** X5: [find_device] returns -1 exactly when no entry has the key, and
    otherwise the index of the first entry that has it. *)
Theorem find_device_spec (devices : list Device) (id0 loc0 : string) :
  (find_device devices id0 loc0 = -1
   <-> forall d, d ∈ devices -> ~ has_key id0 loc0 d) /\
  (find_device devices id0 loc0 <> -1 ->
   exists (k : nat) (d : Device),
     find_device devices id0 loc0 = Z.of_nat k /\
     devices !! k = Some d /\ has_key id0 loc0 d /\
     forall j d', (j < k)%nat -> devices !! j = Some d' ->
                  ~ has_key id0 loc0 d').
Proof.
  unfold find_device. split; [split|].
  - by apply find_device_from_none.
  - apply find_device_from_absent.
  - intros Hf.
    destruct (find_device_from_found 0 devices id0 loc0 Hf ltac:(lia))
      as (k & d & Hk & Hd & Hkey & Hfirst).
    exists k, d. rewrite Hk.
    split; [lia|]. split; [exact Hd|]. split; [exact Hkey|exact Hfirst].
Qed.

Lemma find_device_spec_witness :
  let a := {| id := "A"; location := "hall"; ts := 1;
              temp := DFin 0; has_temp := false; rh := DFin 0; has_rh := false |} in
  let b := {| id := "B"; location := "hall"; ts := 2;
              temp := DFin 0; has_temp := false; rh := DFin 0; has_rh := false |} in
  exists (k : nat) (d : Device),
    find_device [a; b; b] "B" "hall" = Z.of_nat k /\
    [a; b; b] !! k = Some d /\ has_key "B" "hall" d /\
    forall j d', (j < k)%nat -> [a; b; b] !! j = Some d' ->
                 ~ has_key "B" "hall" d'.
Proof.
  intros a b.
  apply (proj2 (find_device_spec [a; b; b] "B" "hall")).
  vm_compute. discriminate.
Defined.

(** X6: [add_device] on a full table returns -1 and leaves the table;
    otherwise it appends one entry with both presence flags clear and
    returns its index, and when no older entry has the stored key
    [find_device] on that key returns this index. *)
Theorem add_device_spec (devices : list Device) (id0 loc0 : string) :
  (Z.of_nat (length devices) >= MAX_DEVICES ->
   add_device devices id0 loc0 = (-1, devices)) /\
  (Z.of_nat (length devices) < MAX_DEVICES ->
   exists d,
     add_device devices id0 loc0
       = (Z.of_nat (length devices), (devices ++ [d])%list) /\
     has_key (snprintf_s MAX_ID_LEN id0) (snprintf_s MAX_LOC_LEN loc0) d /\
     has_temp d = false /\ has_rh d = false /\
     ((forall d', d' ∈ devices ->
         ~ has_key (id d) (location d) d') ->
      find_device (devices ++ [d])%list (id d) (location d)
        = Z.of_nat (length devices))).
Proof.
  unfold add_device. split.
  - intros H. destruct (Z.geb_spec (Z.of_nat (length devices)) MAX_DEVICES); [done|lia].
  - intros H. destruct (Z.geb_spec (Z.of_nat (length devices)) MAX_DEVICES); [lia|].
    eexists. split; [reflexivity|]. cbn [id location has_temp has_rh].
    split; [by split|]. split; [done|]. split; [done|].
    intros Hnone. unfold find_device.
    erewrite (find_device_from_first 0 _ _ _ (length devices)); [lia| | |].
    + by rewrite lookup_app_r, Nat.sub_diag by lia.
    + by split.
    + intros j d' Hj Hjd. rewrite lookup_app_l in Hjd by lia.
      apply Hnone. by apply list_elem_of_lookup_2 in Hjd.
Qed.

Lemma add_device_spec_witness :
  let a := {| id := "A"; location := "hall"; ts := 1;
              temp := DFin 0; has_temp := false; rh := DFin 0; has_rh := false |} in
  add_device (replicate 1024 a) "B" "hall" = (-1, replicate 1024 a) /\
  exists d, add_device [a] "B" "hall" = (1, [a; d]) /\
            find_device [a; d] (id d) (location d) = 1.
Proof.
  intros a. split.
  - apply (proj1 (add_device_spec (replicate 1024 a) "B" "hall")).
    vm_compute. discriminate.
  - destruct (proj2 (add_device_spec [a] "B" "hall") ltac:(vm_compute; reflexivity))
      as (d & Hadd & Hkey & _ & _ & Hfind).
    exists d. split; [exact Hadd|]. apply Hfind.
    intros d' Hd' [Hid _]. apply list_elem_of_singleton in Hd'. subst d'.
    destruct Hkey as [Hk _]. rewrite Hk in Hid. discriminate Hid.
Defined.

Lemma upsert_length (r : Reading) (devices : list Device) :
  (length devices <= length (upsert r devices) <= length devices + 1)%nat /\
  (Z.of_nat (length devices) <= MAX_DEVICES ->
   Z.of_nat (length (upsert r devices)) <= MAX_DEVICES).
Proof.
  destruct (excluded_location (r_location r)) eqn:Hex.
  { rewrite upsert_excluded by exact Hex. split; lia. }
  destruct (upsert_cases r devices Hex) as [(k & d & Hk & Hkey & ->)|[_ ->]].
  - rewrite length_insert. split; lia.
  - destruct (Z.geb_spec (Z.of_nat (length devices)) MAX_DEVICES).
    + split; lia.
    + rewrite length_app. cbn [length]. split; lia.
Qed.

Lemma upsert_persist (r : Reading) (devices : list Device) (i : nat) (d : Device) :
  devices !! i = Some d ->
  exists d', upsert r devices !! i = Some d' /\
             id d' = id d /\ location d' = location d /\
             (has_temp d = true -> has_temp d' = true) /\
             (has_rh d = true -> has_rh d' = true).
Proof.
  intros Hi.
  destruct (excluded_location (r_location r)) eqn:Hex.
  { rewrite upsert_excluded by exact Hex. exists d. by repeat split. }
  destruct (upsert_cases r devices Hex) as [(k & d0 & Hk & Hkey & ->)|[_ ->]].
  - destruct (decide (i = k)) as [->|Hne].
    + rewrite Hk in Hi. inversion Hi; subst d0.
      exists (store r d). rewrite list_lookup_insert_eq by (by apply lookup_lt_Some in Hk).
      split; [done|]. cbn [store id location has_temp has_rh].
      split; [done|]. split; [done|]. split; intros ->.
      * by destruct (r_has_temp r).
      * by destruct (r_has_rh r).
    + exists d. rewrite list_lookup_insert_ne by done. by repeat split.
  - exists d. destruct (_ >=? _); [by repeat split|].
    rewrite lookup_app_l by (by apply lookup_lt_Some in Hi). by repeat split.
Qed.

Lemma upsert_entry_ok (r : Reading) (devices : list Device) :
  (String.length (r_id r) <= 95)%nat ->
  (String.length (r_location r) <= 95)%nat ->
  trim_inplace (r_id r) = r_id r ->
  trim_inplace (r_location r) = r_location r ->
  Forall entry_ok devices -> Forall entry_ok (upsert r devices).
Proof.
  intros H1 H2 H3 H4 Hok.
  destruct (excluded_location (r_location r)) eqn:Hex.
  { by rewrite upsert_excluded. }
  destruct (upsert_cases r devices Hex) as [(k & d & Hk & Hkey & ->)|[_ ->]].
  - apply Forall_insert; [exact Hok|].
    exact (Forall_lookup_1 _ _ _ _ Hok Hk).
  - destruct (_ >=? _); [exact Hok|].
    apply Forall_app. split; [exact Hok|]. apply Forall_singleton.
    unfold entry_ok. cbn [store id location].
    unfold snprintf_s, MAX_ID_LEN, MAX_LOC_LEN.
    change (Z.to_nat (96 - 1)) with 95%nat.
    rewrite !str_take_short by assumption. by repeat split.
Qed.

Lemma decode_reading_ok (now : Z) (root : gmap string json_t) (r : Reading) :
  decode now root = Some r ->
  (String.length (r_id r) <= 95)%nat /\
  (String.length (r_location r) <= 95)%nat /\
  trim_inplace (r_id r) = r_id r /\
  trim_inplace (r_location r) = r_location r.
Proof.
  unfold decode. destruct (json_id root); [|discriminate].
  intros H. inversion H; subst r; cbn [r_id r_location]. unfold decoded_location.
  split; [apply (snprintf_trim_length 96)|].
  split; [apply (snprintf_trim_length 96)|].
  split; apply trim_inplace_idem.
Qed.

(** X7: every registry the program can reach from the empty table has at
    most [MAX_DEVICES] entries, one entry per (id, location) key, and in
    every entry an identifier and a location of at most 95 bytes without
    a space on either side. *)
Theorem reachable_registry (json_loads : string -> option json_t)
    (lines : list (Z * string)) :
  let devices := process_lines json_loads lines [] in
  Z.of_nat (length devices) <= MAX_DEVICES /\
  keys_unique devices /\
  Forall entry_ok devices.
Proof.
  cbv zeta. split; [|split].
  - assert (H : forall devices,
               Z.of_nat (length devices) <= MAX_DEVICES ->
               Z.of_nat (length (process_lines json_loads lines devices))
                 <= MAX_DEVICES).
    { induction lines as [|[now line] lines IH]; intros devices Hd; [exact Hd|].
      cbn [process_lines fold_left]. apply IH.
      unfold process_json_line. destruct (decode_line _ _ _); [|exact Hd].
      by apply upsert_length. }
    apply H. cbn. unfold MAX_DEVICES. lia.
  - apply process_lines_invariant, registry_empty.
  - assert (H : forall devices,
               Forall entry_ok devices ->
               Forall entry_ok (process_lines json_loads lines devices)).
    { induction lines as [|[now line] lines IH]; intros devices Hd; [exact Hd|].
      cbn [process_lines fold_left]. apply IH.
      unfold process_json_line, decode_line.
      destruct (json_loads line) as [[root| | | | | | |]|]; try exact Hd.
      destruct (decode now root) as [r|] eqn:Hr; [|exact Hd].
      destruct (decode_reading_ok _ _ _ Hr) as (H1 & H2 & H3 & H4).
      by apply upsert_entry_ok. }
    apply H. apply Forall_nil_2.
Qed.

(** X8: no line ever deletes or moves an entry: an entry stays at its
    index with the same identifier and location, and a presence flag that
    is set is never cleared. *)
Theorem entries_persist (json_loads : string -> option json_t)
    (lines : list (Z * string)) (devices : list Device) (i : nat) (d : Device) :
  devices !! i = Some d ->
  exists d', process_lines json_loads lines devices !! i = Some d' /\
             id d' = id d /\ location d' = location d /\
             (has_temp d = true -> has_temp d' = true) /\
             (has_rh d = true -> has_rh d' = true).
Proof.
  revert devices d. induction lines as [|[now line] lines IH]; intros devices d Hi.
  - exists d. by repeat split.
  - cbn [process_lines fold_left].
    assert (Hstep : exists d1,
              process_json_line json_loads now line devices !! i = Some d1 /\
              id d1 = id d /\ location d1 = location d /\
              (has_temp d = true -> has_temp d1 = true) /\
              (has_rh d = true -> has_rh d1 = true)).
    { unfold process_json_line. destruct (decode_line _ _ _) as [r|].
      - by apply upsert_persist.
      - exists d. by repeat split. }
    destruct Hstep as (d1 & H1 & Hid & Hloc & Ht & Hh).
    destruct (IH _ _ H1) as (d' & H' & Hid' & Hloc' & Ht' & Hh').
    exists d'. split; [exact H'|]. rewrite Hid', Hloc'. repeat split; auto.
Qed.

Lemma entries_persist_witness :
  let a := {| id := "A1"; location := "hall"; ts := 1000;
              temp := DFin 20; has_temp := true; rh := DFin 40; has_rh := true |} in
  exists d', process_lines sample_loads
               [(1700000000, attic_line); (1700000001, "{}")] [a] !! 0%nat
               = Some d' /\
             id d' = "A1" /\ location d' = "hall" /\
             (has_temp a = true -> has_temp d' = true) /\
             (has_rh a = true -> has_rh d' = true).
Proof.
  intros a.
  apply (entries_persist sample_loads
           [(1700000000, attic_line); (1700000001, "{}")] [a] 0%nat a).
  reflexivity.
Defined.

(** X9: when the table is full ([MAX_DEVICES] entries) a Reading with a
    new key is dropped and the table is left as it is, while a Reading
    for the key of an entry is still merged into that entry. *)
Theorem registry_full (r : Reading) (devices : list Device) :
  Z.of_nat (length devices) >= MAX_DEVICES ->
  excluded_location (r_location r) = false ->
  ((forall d, d ∈ devices -> ~ has_key (r_id r) (r_location r) d) ->
   upsert r devices = devices) /\
  (forall (k : nat) (d : Device),
     keys_unique devices ->
     devices !! k = Some d -> has_key (r_id r) (r_location r) d ->
     upsert r devices = <[k := store r d]> devices /\
     ts (store r d) = r_ts r).
Proof.
  intros Hfull Hex. split.
  - intros Hnone. rewrite upsert_new by assumption.
    destruct (Z.geb_spec (Z.of_nat (length devices)) MAX_DEVICES); [done|lia].
  - intros k d Hu Hk Hkey. split; [|done].
    apply upsert_found; try assumption.
    destruct Hkey as [Hid Hloc]. rewrite <- Hid, <- Hloc.
    by apply keys_unique_first.
Qed.

Lemma registry_full_witness :
  let a := {| id := "A1"; location := "hall"; ts := 1000;
              temp := DFin 20; has_temp := true; rh := DFin 40; has_rh := true |} in
  let r := {| r_id := "B7"; r_location := "hall"; r_ts := 2000;
              r_temp := DFin 5; r_has_temp := true;
              r_rh := DNaN; r_has_rh := false |} in
  upsert r (replicate 1024 a) = replicate 1024 a.
Proof.
  intros a r.
  apply (proj1 (registry_full r (replicate 1024 a)
                  ltac:(vm_compute; discriminate) eq_refl)).
  intros d Hd [Hid _]. apply elem_of_replicate in Hd as [-> _].
  discriminate Hid.
Defined.

(** ** The decoder *)

(** X10: a JSON object gives a Reading exactly when its "id" or its
    "device_id" member is a string.  The Reading's identifier and location
    have at most 95 bytes and no space on either side; the location is
    "unknown" when neither "location" nor "room" is a string; the
    timestamp is never 0 unless the clock is (a "ts" or "time" of 0 counts
    as missing); and a field that is absent has its flag clear. *)
Theorem decode_spec (now : Z) (root : gmap string json_t) :
  (decode now root = None <->
   (forall s, root !! "id" <> Some (JString s)) /\
   (forall s, root !! "device_id" <> Some (JString s))) /\
  (forall r : Reading,
     decode now root = Some r ->
     (String.length (r_id r) <= 95)%nat /\
     (String.length (r_location r) <= 95)%nat /\
     trim_inplace (r_id r) = r_id r /\
     trim_inplace (r_location r) = r_location r /\
     (json_string (root !! "location") = None ->
      json_string (root !! "room") = None -> r_location r = "unknown") /\
     (now <> 0 -> r_ts r <> 0) /\
     (r_has_temp r = true <->
      exists x, json_number (root !! "temp") = Some x
                \/ json_number (root !! "temperature") = Some x
                \/ json_number (root !! "temperature_c") = Some x) /\
     (r_has_rh r = true <->
      exists x, json_number (root !! "humidity") = Some x
                \/ json_number (root !! "humidity_pct") = Some x)).
Proof.
  split.
  - unfold decode, json_id. split.
    + intros H. split; intros s Hs; rewrite Hs in H; cbn in H.
      * discriminate.
      * destruct (json_string (root !! "id")); discriminate.
    + intros [Hid Hdid].
      destruct (root !! "id") as [[]|]; cbn;
        try (destruct (root !! "device_id") as [[]|]; cbn; try reflexivity;
             by edestruct Hdid).
      by edestruct Hid.
  - intros r Hr.
    destruct (decode_reading_ok now root r Hr) as (H1 & H2 & H3 & H4).
    split; [exact H1|]. split; [exact H2|]. split; [exact H3|]. split; [exact H4|].
    unfold decode in Hr. destruct (json_id root); [|discriminate].
    inversion Hr; subst r; clear Hr;
      cbn [r_location r_ts r_has_temp r_has_rh].
    split; [|split; [|split]].
    + intros Hl Hroom. unfold decoded_location. rewrite Hl, Hroom. reflexivity.
    + intros Hnow. unfold decoded_ts.
      destruct (Z.eqb_spec (json_ts (root !! "ts") 0) 0) as [E0|E0].
      * destruct (Z.eqb_spec (json_ts (root !! "time") (json_ts (root !! "ts") 0)) 0);
          [exact Hnow|assumption].
      * rewrite (proj2 (Z.eqb_neq _ _) E0). exact E0.
    + rewrite bool_decide_eq_true.
      destruct (json_number (root !! "temp")) as [x|]; cbn.
      { split; [intros _; exists x; by left|intros _; by eexists]. }
      destruct (json_number (root !! "temperature")) as [x|]; cbn.
      { split; [intros _; exists x; right; by left|intros _; by eexists]. }
      destruct (json_number (root !! "temperature_c")) as [x|]; cbn.
      { split; [intros _; exists x; right; by right|intros _; by eexists]. }
      split; [intros [x Hx]; discriminate|].
      intros (x & [H|[H|H]]); discriminate.
    + rewrite bool_decide_eq_true.
      destruct (json_number (root !! "humidity")) as [x|]; cbn.
      { split; [intros _; exists x; by left|intros _; by eexists]. }
      destruct (json_number (root !! "humidity_pct")) as [x|]; cbn.
      { split; [intros _; exists x; by right|intros _; by eexists]. }
      split; [intros [x Hx]; discriminate|].
      intros (x & [H|H]); discriminate.
Qed.

Lemma decode_spec_witness :
  let root : gmap string json_t :=
    {[ "device_id" := JString "  B7 "; "id" := JInteger 3;
       "ts" := JInteger 0; "time" := JReal (DFin 0);
       "temperature" := JReal (DFin 21) ]} in
  exists r, decode 1700000000 root = Some r /\
            r_id r = "B7" /\ r_location r = "unknown" /\
            r_ts r <> 0 /\ r_has_temp r = true.
Proof.
  intros root. eexists. split; [reflexivity|].
  destruct (proj2 (decode_spec 1700000000 root) _ eq_refl)
    as (_ & _ & _ & _ & Hloc & Hts & Htemp & _).
  split; [reflexivity|]. split; [by apply Hloc|]. split; [by apply Hts|].
  apply Htemp. exists (DFin 21). right. by left.
Defined.

(** ** The panels *)

Lemma finite_field_number (v x : double) :
  finite_field v = FNumber x -> v = x /\ is_finite v = true.
Proof.
  unfold finite_field. destruct (is_finite v); [|discriminate].
  intros H. by inversion H.
Qed.

Lemma mean_of_number (l : list double) (x : double) :
  finite_field (mean_of l) = FNumber x -> l <> [].
Proof. intros H ->. cbn in H. discriminate. Qed.

Lemma filtered_map_nonempty {A} (f : Device -> A) (p : Device -> bool)
    (devices : list Device) :
  map f (filter (fun d => p d = true) devices) <> [] ->
  exists d, d ∈ devices /\ p d = true.
Proof.
  destruct (filter (fun d => p d = true) devices) as [|d l] eqn:E; [done|].
  intros _. exists d.
  assert (Hd : d ∈ filter (fun d => p d = true) devices)
    by (rewrite E; apply elem_of_cons; by left).
  apply list_elem_of_filter in Hd as [Hp Hd]. by split.
Qed.

(** X11: a panel prints a number for the temperature (humidity) only if
    the registry holds a fresh entry of its class with the temperature
    (humidity) present; the count it prints is the number of fresh entries
    of the class with a field, and the window it prints is the one in
    use. *)
Theorem panel_number_has_contributor (now W : Z) (devices : list Device) :
  LONG_MIN <= now - W <= LONG_MAX ->
  registry_ok devices ->
  forall ti hi ni wi tg hg ng wg,
    main_panels now W devices = ((ti, hi, ni, wi), (tg, hg, ng, wg)) ->
    (forall x, ti = FNumber x ->
       exists d, d ∈ devices /\ fresh now W d = true /\ is_indoor d = true
                 /\ has_temp d = true) /\
    (forall x, hi = FNumber x ->
       exists d, d ∈ devices /\ fresh now W d = true /\ is_indoor d = true
                 /\ has_rh d = true) /\
    (forall x, tg = FNumber x ->
       exists d, d ∈ devices /\ fresh now W d = true /\ is_garden d = true
                 /\ has_temp d = true) /\
    (forall x, hg = FNumber x ->
       exists d, d ∈ devices /\ fresh now W d = true /\ is_garden d = true
                 /\ has_rh d = true) /\
    ni = count_of now W is_indoor devices /\
    ng = count_of now W is_garden devices /\
    wi = W /\ wg = W.
Proof.
  intros H Hok ti hi ni wi tg hg ng wg Hp.
  unfold main_panels, draw_averages_bar in Hp.
  rewrite (compute_averages_means now W devices H Hok) in Hp.
  cbn [in_t in_h in_n g_t g_h g_n] in Hp.
  inversion Hp; subst; clear Hp.
  repeat split; try reflexivity; intros x Hx; apply mean_of_number in Hx;
    apply filtered_map_nonempty in Hx as (d & Hd & Hx);
    apply andb_true_iff in Hx as [Hx Hv]; apply andb_true_iff in Hx as [Hf Hc];
    exists d; by repeat split.
Qed.

Lemma panel_number_has_contributor_witness :
  let now := 1700000000 in
  let d1 := {| id := "K1"; location := "kitchen"; ts := now - 10;
               temp := DFin 21; has_temp := true;
               rh := DFin 0; has_rh := false |} in
  count_of now 900 is_indoor [d1] = 1 /\ count_of now 900 is_garden [d1] = 0.
Proof.
  intros now d1.
  assert (H : LONG_MIN <= now - 900 <= LONG_MAX) by (vm_compute; split; discriminate).
  assert (Hok : registry_ok [d1]) by (repeat constructor).
  destruct (main_panels now 900 [d1]) as [[[[ti hi] ni] wi] [[[tg hg] ng] wg]] eqn:E.
  destruct (panel_number_has_contributor now 900 [d1] H Hok _ _ _ _ _ _ _ _ E)
    as (_ & _ & _ & _ & Hni & Hng & _).
  rewrite <- Hni, <- Hng. unfold main_panels, draw_averages_bar in E.
  inversion E. split; reflexivity.
Defined.

(** X12: when every entry is stale (in particular while the registry is
    empty) both panels print the placeholder for temperature and humidity
    and a device count of 0. *)
Theorem panels_when_all_stale (now W : Z) (devices : list Device) :
  LONG_MIN <= now - W <= LONG_MAX ->
  (forall d, d ∈ devices -> ts d < now - W) ->
  main_panels now W devices =
    ((FPlaceholder, FPlaceholder, 0, W), (FPlaceholder, FPlaceholder, 0, W)).
Proof.
  intros H Hstale. unfold main_panels, compute_averages.
  rewrite fold_average_step by exact H.
  replace (filter (fun d => fresh now W d = true) devices) with (@nil Device).
  - reflexivity.
  - symmetry. induction devices as [|d devices IH]; [done|].
    rewrite filter_bool_cons.
    assert (Hd : fresh now W d = false).
    { unfold fresh. apply Z.leb_gt. apply Hstale. apply elem_of_cons. by left. }
    rewrite Hd. apply IH. intros d' Hd'. apply Hstale. apply elem_of_cons. by right.
Qed.

Lemma panels_when_all_stale_witness :
  let now := 1700000000 in
  let d1 := {| id := "K1"; location := "kitchen"; ts := now - 901;
               temp := DFin 21; has_temp := true;
               rh := DFin 50; has_rh := true |} in
  main_panels now 900 [d1] =
    ((FPlaceholder, FPlaceholder, 0, 900), (FPlaceholder, FPlaceholder, 0, 900)).
Proof.
  intros now d1. apply panels_when_all_stale.
  - vm_compute. split; discriminate.
  - intros d Hd. apply list_elem_of_singleton in Hd. subst d. vm_compute. reflexivity.
Defined.

(** ** The order of the table *)

Lemma string_compare_refl (a : string) : String.compare a a = Eq.
Proof.
  induction a as [|c a IH]; [done|]. cbn.
  unfold Ascii.compare. by rewrite N.compare_refl.
Qed.

Lemma string_compare_lt_trans (a b c : string) :
  String.compare a b = Lt -> String.compare b c = Lt -> String.compare a c = Lt.
Proof.
  revert b c. induction a as [|x a IH]; intros [|y b] [|z c]; cbn;
    try discriminate; try reflexivity.
  unfold Ascii.compare.
  destruct (N.compare_spec (N_of_ascii x) (N_of_ascii y)) as [Exy|Lxy|Gxy];
    try discriminate;
    destruct (N.compare_spec (N_of_ascii y) (N_of_ascii z)) as [Eyz|Lyz|Gyz];
    try discriminate; intros H1 H2.
  - rewrite Exy, Eyz, N.compare_refl. by apply (IH b c).
  - rewrite Exy. by apply N.compare_lt_iff in Lyz as ->.
  - rewrite <- Eyz. by apply N.compare_lt_iff in Lxy as ->.
  - assert (L : (N_of_ascii x < N_of_ascii z)%N) by lia.
    by apply N.compare_lt_iff in L as ->.
Qed.

Lemma cmp_rowref_eq (a b : Device) :
  cmp_rowref_by_id a b = Eq <-> id a = id b /\ location a = location b.
Proof.
  unfold cmp_rowref_by_id, strcmp. split.
  - destruct (String.compare (id a) (id b)) eqn:E; try discriminate.
    intros H. apply String.compare_eq_iff in E, H. by split.
  - intros [-> ->]. by rewrite !string_compare_refl.
Qed.

Lemma cmp_rowref_antisym (a b : Device) :
  cmp_rowref_by_id a b = CompOpp (cmp_rowref_by_id b a).
Proof.
  unfold cmp_rowref_by_id, strcmp.
  rewrite (String.compare_antisym (id b) (id a)).
  destruct (String.compare (id a) (id b)); cbn; try reflexivity.
  apply String.compare_antisym.
Qed.

Lemma cmp_rowref_lt (a b : Device) :
  cmp_rowref_by_id a b = Lt <->
  String.compare (id a) (id b) = Lt
  \/ (id a = id b /\ String.compare (location a) (location b) = Lt).
Proof.
  unfold cmp_rowref_by_id, strcmp.
  destruct (String.compare (id a) (id b)) eqn:E.
  - apply String.compare_eq_iff in E. split; [by right|].
    intros [H|[_ H]]; [discriminate|exact H].
  - split; [by left|done].
  - split; [discriminate|]. intros [H|[H _]]; [discriminate|].
    rewrite H, string_compare_refl in E. discriminate.
Qed.

Lemma cmp_rowref_lt_trans (a b c : Device) :
  cmp_rowref_by_id a b = Lt -> cmp_rowref_by_id b c = Lt ->
  cmp_rowref_by_id a c = Lt.
Proof.
  rewrite !cmp_rowref_lt. intros [H1|[E1 H1]] [H2|[E2 H2]].
  - left. by apply (string_compare_lt_trans _ (id b)).
  - left. by rewrite <- E2.
  - left. by rewrite E1.
  - right. split; [congruence|]. by apply (string_compare_lt_trans _ (location b)).
Qed.

Lemma row_le_cases (a b : Device) :
  row_le a b <-> cmp_rowref_by_id a b = Lt \/ cmp_rowref_by_id a b = Eq.
Proof. unfold row_le. destruct (cmp_rowref_by_id a b); intuition congruence. Qed.

Lemma row_le_trans (a b c : Device) : row_le a b -> row_le b c -> row_le a c.
Proof.
  rewrite !row_le_cases. intros [H1|H1] [H2|H2].
  - left. by apply (cmp_rowref_lt_trans a b c).
  - left. apply cmp_rowref_eq in H2 as [E1 E2].
    apply cmp_rowref_lt in H1. apply cmp_rowref_lt. by rewrite <- E1, <- E2.
  - left. apply cmp_rowref_eq in H1 as [E1 E2].
    apply cmp_rowref_lt in H2. apply cmp_rowref_lt. by rewrite E1, E2.
  - right. apply cmp_rowref_eq in H1 as [E1 E2], H2 as [E3 E4].
    apply cmp_rowref_eq. split; congruence.
Qed.

Lemma row_le_antisym (a b : Device) :
  row_le a b -> row_le b a -> id a = id b /\ location a = location b.
Proof.
  unfold row_le. rewrite (cmp_rowref_antisym b a).
  destruct (cmp_rowref_by_id a b) eqn:E; cbn; try done.
  intros _ _. by apply cmp_rowref_eq.
Qed.

Lemma sort_insert_sorted (d : Device) (rows : list Device) :
  StronglySorted row_le rows -> StronglySorted row_le (sort_insert d rows).
Proof.
  induction rows as [|r rows IH]; intros Hs; cbn [sort_insert].
  - repeat constructor.
  - apply StronglySorted_inv in Hs as [Hs Hr].
    destruct (cmp_rowref_by_id d r) eqn:E.
    + constructor; [by constructor|].
      assert (Hdr : row_le d r) by (unfold row_le; congruence).
      constructor; [exact Hdr|].
      eapply Forall_impl; [exact Hr|]. intros x Hx. by apply (row_le_trans d r x).
    + constructor; [by constructor|].
      assert (Hdr : row_le d r) by (unfold row_le; congruence).
      constructor; [exact Hdr|].
      eapply Forall_impl; [exact Hr|]. intros x Hx. by apply (row_le_trans d r x).
    + constructor; [by apply IH|].
      rewrite (sort_insert_perm d rows). constructor; [|exact Hr].
      unfold row_le. rewrite (cmp_rowref_antisym r d), E. discriminate.
Qed.

Lemma qsort_sorted (rows : list Device) : StronglySorted row_le (qsort rows).
Proof.
  induction rows as [|r rows IH]; cbn; [constructor|].
  fold (qsort rows). by apply sort_insert_sorted.
Qed.

Lemma sorted_perm_unique (l1 l2 : list Device) :
  StronglySorted row_le l1 -> StronglySorted row_le l2 ->
  Permutation l1 l2 -> keys_unique l1 -> l1 = l2.
Proof.
  revert l2. induction l1 as [|a l1 IH]; intros l2 S1 S2 P U.
  - by apply Permutation_nil in P.
  - destruct l2 as [|b l2]; [by apply Permutation_sym, Permutation_nil in P|].
    apply StronglySorted_inv in S1 as [S1 Ha], S2 as [S2 Hb].
    unfold keys_unique in U. cbn [map] in U. apply NoDup_cons in U as [Ua U].
    assert (Hab : a = b).
    { assert (Hin_a : a ∈ b :: l2) by (rewrite <- P; apply elem_of_cons; by left).
      assert (Hin_b : b ∈ a :: l1) by (rewrite P; apply elem_of_cons; by left).
      apply elem_of_cons in Hin_a as [->|Hin_a]; [done|].
      apply elem_of_cons in Hin_b as [->|Hin_b]; [done|].
      rewrite Forall_forall in Ha, Hb.
      destruct (row_le_antisym a b) as [Hid Hloc]; [by apply Ha|by apply Hb|].
      exfalso. apply Ua. rewrite Hid, Hloc.
      apply (list_elem_of_fmap_2 (fun d => (id d, location d)) l1 b Hin_b). }
    subst b. f_equal. apply IH; try assumption.
    by apply Permutation_cons_inv in P.
Qed.

Lemma filter_perm {A} (P : A -> Prop) `{forall x, Decision (P x)} (l1 l2 : list A) :
  Permutation l1 l2 -> Permutation (filter P l1) (filter P l2).
Proof. intros HP. by rewrite HP. Qed.

(** X13: the rows of the table are the entries whose location is not
    excluded, each once, in ascending order of identifier (bytes compared
    as unsigned) and, for equal identifiers, of location. *)
Theorem collect_rows_sorted (devices : list Device) :
  Permutation (collect_rows devices)
    (filter (fun d => excluded_location (location d) = false) devices) /\
  StronglySorted row_le (collect_rows devices) /\
  (forall a b : Device,
     row_le a b <->
     String.compare (id a) (id b) = Lt
     \/ (id a = id b /\ String.compare (location a) (location b) <> Gt)).
Proof.
  split; [apply qsort_perm|]. split; [apply qsort_sorted|].
  intros a b. unfold row_le, cmp_rowref_by_id, strcmp.
  destruct (String.compare (id a) (id b)) eqn:E.
  - apply String.compare_eq_iff in E. split; [by right|].
    intros [H|[_ H]]; [discriminate|exact H].
  - split; [by left|done].
  - split; [done|]. intros [H|[H _]]; [discriminate|].
    rewrite H, string_compare_refl in E. discriminate.
Qed.

Lemma collect_rows_sorted_witness :
  let a := {| id := "A"; location := "hall"; ts := 1;
              temp := DFin 0; has_temp := false; rh := DFin 0; has_rh := false |} in
  let b := {| id := "A"; location := "loft"; ts := 2;
              temp := DFin 0; has_temp := false; rh := DFin 0; has_rh := false |} in
  row_le a b /\ collect_rows [b; a] = [a; b].
Proof.
  intros a b.
  destruct (collect_rows_sorted [b; a]) as (_ & _ & Hle).
  split; [|reflexivity]. apply Hle. right. split; [reflexivity|discriminate].
Defined.

(** X14: the order of the table does not depend on the order in which the
    entries were created: two registries with the same entries, one per
    key, give the same rows in the same order. *)
Theorem collect_rows_deterministic (devices devices' : list Device) :
  keys_unique devices ->
  Permutation devices devices' ->
  collect_rows devices = collect_rows devices'.
Proof.
  intros U P. apply sorted_perm_unique.
  - apply qsort_sorted.
  - apply qsort_sorted.
  - unfold collect_rows. rewrite !qsort_perm. by apply filter_perm.
  - unfold keys_unique, collect_rows in *.
    rewrite (Permutation_map _ (qsort_perm _)).
    eapply sublist_NoDup; [exact U|].
    apply fmap_sublist. apply sublist_filter.
Qed.

Lemma collect_rows_deterministic_witness :
  let a := {| id := "A"; location := "hall"; ts := 1;
              temp := DFin 0; has_temp := false; rh := DFin 0; has_rh := false |} in
  let b := {| id := "B"; location := "Garden"; ts := 2;
              temp := DFin 0; has_temp := false; rh := DFin 0; has_rh := false |} in
  collect_rows [b; a] = collect_rows [a; b].
Proof.
  intros a b. apply collect_rows_deterministic.
  - unfold keys_unique. cbn. apply NoDup_cons. split.
    + intros H. apply list_elem_of_singleton in H. discriminate.
    + apply NoDup_singleton.
  - apply perm_swap.
Defined.

(** ** The window of rows drawn *)

Lemma take_min_length {A} (n : nat) (l : list A) :
  take (Nat.min n (length l)) l = take n l.
Proof.
  destruct (le_lt_dec n (length l)).
  - by rewrite Nat.min_l.
  - rewrite Nat.min_r by lia. by rewrite !take_ge by lia.
Qed.

(** X15: [draw_table] draws the rows [start, start+1, ...] of the sorted
    table, as many as fit under the header and are left after [start].
    A scroll offset inside [[0, rc - max_rows]] is used as it is; when
    the table has at least [max_rows] rows the page drawn is always
    full, and when it has fewer all of them are drawn from the first.
    The footer's last row number is [start] plus the rows drawn. *)
Theorem table_window (now W : Z) (colors : bool) (devices : list Device)
    (y h s : Z) :
  let tv := draw_table now W colors devices y h s in
  let rows := collect_rows devices in
  tv_rc tv = Z.of_nat (length rows) /\
  tv_rows tv = map (draw_row now (cutoff_of now W) colors)
                   (take (Z.to_nat (tv_max_rows tv))
                         (drop (Z.to_nat (tv_start tv)) rows)) /\
  Z.of_nat (length (tv_rows tv))
    = Z.min (tv_max_rows tv) (tv_rc tv - tv_start tv) /\
  tv_foot_last tv = tv_start tv + Z.of_nat (length (tv_rows tv)) /\
  (tv_max_rows tv <= tv_rc tv ->
   Z.of_nat (length (tv_rows tv)) = tv_max_rows tv) /\
  (tv_rc tv <= tv_max_rows tv ->
   tv_start tv = 0 /\ Z.of_nat (length (tv_rows tv)) = tv_rc tv) /\
  (0 <= s <= tv_rc tv - tv_max_rows tv -> tv_start tv = s).
Proof.
  intros tv rows.
  destruct (draw_table_start now W colors devices y h s) as [Hmax Hstart].
  fold tv in Hmax, Hstart.
  assert (Hrc : tv_rc tv = Z.of_nat (length rows)) by reflexivity.
  assert (Hrows : tv_rows tv = map (draw_row now (cutoff_of now W) colors)
                   (take (Z.to_nat (tv_max_rows tv))
                         (drop (Z.to_nat (tv_start tv)) rows))).
  { unfold tv, draw_table; cbn [tv_rows tv_start tv_max_rows]. fold rows.
    set (start := if _ >? _ then _ else _). set (mx := imax 1 _ - 1).
    assert (Hs : 0 <= start <= Z.max 0 (Z.of_nat (length rows) - mx)) by apply Hstart.
    assert (Hm : 0 <= mx) by apply Hmax.
    f_equal. rewrite imin_min. rewrite <- (take_min_length (Z.to_nat mx)).
    f_equal. rewrite length_drop. lia. }
  assert (Hlen : Z.of_nat (length (tv_rows tv))
                 = Z.min (tv_max_rows tv) (tv_rc tv - tv_start tv)).
  { rewrite Hrows, length_map, length_take, length_drop, Hrc. lia. }
  assert (Hfoot : tv_foot_last tv = tv_start tv + Z.of_nat (length (tv_rows tv))).
  { rewrite Hlen. unfold tv, draw_table; cbn [tv_foot_last tv_start tv_max_rows tv_rc].
    rewrite imin_min. fold rows.
    set (start := if _ >? _ then _ else _). set (mx := imax 1 _ - 1). lia. }
  split; [exact Hrc|]. split; [exact Hrows|]. split; [exact Hlen|].
  split; [exact Hfoot|]. split; [|split].
  - intros Hfull. rewrite Hlen. lia.
  - intros Hfew. rewrite Hlen. lia.
  - unfold tv, draw_table; cbn [tv_start tv_max_rows tv_rc]. fold rows.
    intros Hin.
    destruct (Z.ltb_spec s 0); [lia|].
    match goal with |- context [?a >? ?b] => destruct (Z.gtb_spec a b) end; lia.
Qed.

Lemma table_window_witness :
  let d := fun n => {| id := n; location := "hall"; ts := 1;
                       temp := DFin 0; has_temp := false;
                       rh := DFin 0; has_rh := false |} in
  let devices := [d "a"; d "b"; d "c"; d "d"; d "e"; d "f"; d "g"] in
  let tv := draw_table 1700000000 900 false devices 5 8 99 in
  tv_start tv = 2 /\ Z.of_nat (length (tv_rows tv)) = 5 /\
  tv_start (draw_table 1700000000 900 false devices 5 8 1) = 1.
Proof.
  intros d devices tv.
  destruct (table_window 1700000000 900 false devices 5 8 99)
    as (_ & _ & _ & _ & Hfull & _ & _).
  destruct (table_window 1700000000 900 false devices 5 8 1)
    as (_ & _ & _ & _ & _ & _ & Hin).
  split; [reflexivity|]. split.
  - apply Hfull. vm_compute. discriminate.
  - apply Hin. vm_compute. split; discriminate.
Defined.

(** ** Row attributes and fields *)

(** The humidity lies outside [30, 60]: an infinity does, NaN does not. *)
Lemma rh_outside_spec (v : double) :
  d_lt v (DFin 30) || d_gt v (DFin 60) = true <->
  match v with
  | DFin x => (x < 30 \/ 60 < x)%R
  | DInf _ => True
  | DNaN => False
  end.
Proof.
  destruct v as [x|[]|]; cbn [d_lt d_gt negb orb andb]; try tauto;
    try (split; [discriminate|tauto]).
  unfold Rltb. destruct (Rlt_dec x 30), (Rlt_dec 60 x); cbn; split;
    try tauto; try discriminate; intros [?|?]; lra.
Qed.

(** X16: the humidity cell of a row takes the alert attribute (colour pair
    [CP_WARN], bold, never dim) exactly when the terminal has colours, the
    row is not a Garden row, the humidity is present and it is below 30 or
    above 60; the bounds 30 and 60 themselves do not alert.  In every
    other case the cell has the attribute of its row. *)
Theorem rh_alert_spec (now cutoff : Z) (colors : bool) (d : Device) :
  let r := draw_row now cutoff colors d in
  let alert := colors && negb (is_garden d) && has_rh d
               && (d_lt (rh d) (DFin 30) || d_gt (rh d) (DFin 60)) in
  row_rh_attr r = (if alert then Z.lor (COLOR_PAIR CP_WARN) A_BOLD
                   else row_attr r) /\
  Z.land (Z.lor (COLOR_PAIR CP_WARN) A_BOLD) A_DIM = 0 /\
  (is_garden d = true -> row_rh_attr r = row_attr r) /\
  (forall x : R, rh d = DFin x -> (30 <= x <= 60)%R ->
                 row_rh_attr r = row_attr r) /\
  (forall x : R, colors = true -> is_garden d = false -> has_rh d = true ->
                 rh d = DFin x -> (x < 30 \/ 60 < x)%R ->
                 row_rh_attr r = Z.lor (COLOR_PAIR CP_WARN) A_BOLD).
Proof.
  intros r alert.
  assert (H : row_rh_attr r = (if alert then Z.lor (COLOR_PAIR CP_WARN) A_BOLD
                               else row_attr r)).
  { unfold r, alert, draw_row, is_garden; cbn [row_rh_attr row_attr].
    rewrite <- !andb_assoc.
    destruct colors; cbn [andb]; [|reflexivity].
    destruct (negb _ && _); [|reflexivity].
    by destruct (ts d <? cutoff). }
  split; [exact H|]. split; [reflexivity|]. split; [|split].
  - intros Hg. rewrite H. unfold alert. rewrite Hg. cbn [negb andb].
    by rewrite andb_false_r.
  - intros x Hx Hin. rewrite H. unfold alert.
    assert (Hout : d_lt (rh d) (DFin 30) || d_gt (rh d) (DFin 60) = false).
    { apply not_true_is_false. rewrite rh_outside_spec, Hx. lra. }
    rewrite Hout. by rewrite andb_false_r.
  - intros x -> Hg Hh Hx Hout. rewrite H. unfold alert.
    rewrite Hg, Hh. cbn [negb andb].
    by rewrite (proj2 (rh_outside_spec (rh d))) by (rewrite Hx; exact Hout).
Qed.

Lemma rh_alert_spec_witness :
  let d := fun loc v => {| id := "A"; location := loc; ts := 1;
                           temp := DFin 0; has_temp := false;
                           rh := DFin v; has_rh := true |} in
  row_rh_attr (draw_row 10 0 true (d "GARDEN" 10%R))
    = row_attr (draw_row 10 0 true (d "GARDEN" 10%R)) /\
  row_rh_attr (draw_row 10 0 true (d "hall" 30%R))
    = row_attr (draw_row 10 0 true (d "hall" 30%R)) /\
  row_rh_attr (draw_row 10 0 true (d "hall" 61%R))
    = Z.lor (COLOR_PAIR CP_WARN) A_BOLD.
Proof.
  intros d.
  destruct (rh_alert_spec 10 0 true (d "GARDEN" 10%R)) as (_ & _ & Hg & _).
  destruct (rh_alert_spec 10 0 true (d "hall" 30%R)) as (_ & _ & _ & Hin & _).
  destruct (rh_alert_spec 10 0 true (d "hall" 61%R)) as (_ & _ & _ & _ & Hout).
  split; [by apply Hg|]. split.
  - apply (Hin 30%R); [reflexivity|lra].
  - apply (Hout 61%R); try reflexivity. lra.
Defined.

Lemma dewpoint_c_finite_inputs (t r : double) :
  is_finite (dewpoint_c t r) = true ->
  exists x y : R, t = DFin x /\ r = DFin y /\
                  (-1e300 < x < 1e300)%R /\ (0 < y <= 100)%R.
Proof.
  unfold dewpoint_c.
  destruct (is_finite t) eqn:Ht; [|cbn; discriminate].
  destruct (is_finite r) eqn:Hr; [|cbn; discriminate].
  apply is_finite_iff in Ht as (x & -> & Hx), Hr as (y & -> & Hy).
  cbn [negb orb]. unfold d_le, d_gt, d_lt, Rleb, Rltb.
  destruct (Rle_dec y 0.0); [cbn; discriminate|].
  destruct (Rlt_dec 100.0 y); [cbn; discriminate|].
  intros _. exists x, y. repeat split; try apply Hx; lra.
Qed.

(** X17: a row shows a dew point only when the entry has both a
    temperature and a humidity, the temperature is a number of magnitude
    below 1e300 and the humidity lies in (0, 100]; its temperature and
    humidity fields show the placeholder exactly when the value is
    absent. *)
Theorem row_fields_spec (now cutoff : Z) (colors : bool) (d : Device) :
  let '(tf, hf, dpf) := row_fields (draw_row now cutoff colors d) in
  (tf = FPlaceholder <-> has_temp d = false) /\
  (hf = FPlaceholder <-> has_rh d = false) /\
  (forall v, dpf = FNumber v ->
     has_temp d = true /\ has_rh d = true /\
     v = dewpoint_c (temp d) (rh d) /\
     exists x y : R, temp d = DFin x /\ rh d = DFin y /\
                     (-1e300 < x < 1e300)%R /\ (0 < y <= 100)%R).
Proof.
  unfold row_fields, draw_row; cbn [row_dev row_dp].
  split; [|split].
  - unfold present_field. destruct (has_temp d); split; done.
  - unfold present_field. destruct (has_rh d); split; done.
  - intros v Hv. apply finite_field_number in Hv as [Hv Hfin].
    destruct (has_temp d), (has_rh d); cbn [andb] in *; try discriminate.
    split; [done|]. split; [done|]. split; [done|].
    by apply dewpoint_c_finite_inputs.
Qed.

Lemma row_fields_spec_witness :
  let d := {| id := "A"; location := "hall"; ts := 1;
              temp := DFin 20; has_temp := true;
              rh := DFin 0; has_rh := false |} in
  row_fields (draw_row 10 0 true d) = (FNumber (DFin 20), FPlaceholder, FPlaceholder).
Proof.
  intros d.
  pose proof (row_fields_spec 10 0 true d) as H.
  destruct (row_fields (draw_row 10 0 true d)) as [[tf hf] dpf] eqn:E.
  destruct H as (_ & Hh & Hdp).
  rewrite (proj2 Hh eq_refl).
  assert (tf = FNumber (DFin 20)) as -> by (by inversion E).
  f_equal. destruct dpf as [v|]; [|reflexivity].
  destruct (Hdp v eq_refl) as (_ & Hrh & _). discriminate Hrh.
Defined.

(** X18: the age drawn is never negative and never above [INT_MAX]; it is
    [max 0 (now - ts)] whenever [now - ts] fits an [int], so a timestamp
    at most 2^31 seconds ahead of the clock is drawn with age 0. *)
Theorem row_age_spec (now cutoff : Z) (colors : bool) (d : Device) :
  0 <= row_age (draw_row now cutoff colors d) <= INT_MAX /\
  (INT_MIN <= now - ts d <= INT_MAX ->
   row_age (draw_row now cutoff colors d) = Z.max 0 (now - ts d)) /\
  (now <= ts d <= now + 2147483648 ->
   row_age (draw_row now cutoff colors d) = 0).
Proof.
  split; [|split].
  - cbn [draw_row row_age]. rewrite imax_max.
    pose proof (wrap32_range (wrap64 (now - ts d))). unfold INT_MAX in *. lia.
  - apply row_age_in_int_range.
  - intros H. rewrite row_age_in_int_range; unfold INT_MIN, INT_MAX; lia.
Qed.

Lemma row_age_spec_witness :
  let d := fun t => {| id := "A"; location := "hall"; ts := t;
                       temp := DFin 0; has_temp := false;
                       rh := DFin 0; has_rh := false |} in
  row_age (draw_row 1700000000 0 true (d 1699999900)) = 100 /\
  row_age (draw_row 1700000000 0 true (d 1700000060)) = 0.
Proof.
  intros d.
  destruct (row_age_spec 1700000000 0 true (d 1699999900)) as (_ & H1 & _).
  destruct (row_age_spec 1700000000 0 true (d 1700000060)) as (_ & _ & H2).
  split.
  - rewrite H1; [reflexivity|]. vm_compute. split; discriminate.
  - apply H2. vm_compute. split; discriminate.
Defined.

(** ** Columns *)

Lemma fit_columns_widths (inner_w : Z) :
  exists room dev : Z,
    fit_columns inner_w = [room; dev; 10; 7; 11; 8] /\
    8 <= room <= 14 /\ 10 <= dev <= 18 /\
    cols_total (fit_columns inner_w) = Z.max 59 (Z.min 73 inner_w) /\
    (14 - room <= 18 - dev <= 14 - room + 2).
Proof.
  unfold fit_columns. change (cols_total cols0) with 73.
  destruct (Z.gtb_spec 73 inner_w) as [Hover|Hfit].
  - rewrite !imin_min, !imax_max.
    change (Z.max 0 (14 - 8)) with 6. change (Z.max 0 (18 - 10)) with 8.
    eexists _, _. split; [reflexivity|].
    assert (Hq : 2 * Z.quot (73 - inner_w) 2 <= 73 - inner_w
                 < 2 * Z.quot (73 - inner_w) 2 + 2).
    { rewrite Z.quot_div_nonneg by lia.
      pose proof (Z.div_mod (73 - inner_w) 2 ltac:(lia)).
      pose proof (Z.mod_pos_bound (73 - inner_w) 2 ltac:(lia)). lia. }
    set (q := Z.quot (73 - inner_w) 2) in *.
    unfold cols_total. cbn [fold_left]. repeat split; lia.
  - exists 14, 18. unfold cols0, cols_total. cbn [fold_left].
    repeat split; lia.
Qed.

(** X19: for every viewport width the fitted columns keep the preferred
    widths of the four numeric columns, a Room column of 8 to 14 and a
    Device column of 10 to 18 bytes; the widths with their separators add
    up to 73 when that fits, to the width available when it is between 59
    and 73, and to 59 (more than is available) below.  The Device column
    gives up as much as the Room column, or up to 2 bytes more. *)
Theorem fit_columns_spec (inner_w : Z) :
  exists room dev : Z,
    fit_columns inner_w = [room; dev; 10; 7; 11; 8] /\
    8 <= room <= 14 /\ 10 <= dev <= 18 /\
    cols_total (fit_columns inner_w) = Z.max 59 (Z.min 73 inner_w) /\
    (14 - room <= 18 - dev <= 14 - room + 2).
Proof. apply fit_columns_widths. Qed.

Lemma string_app_length (a b : string) :
  String.length (a ++ b)%string = (String.length a + String.length b)%nat.
Proof.
  induction a as [|c a IH]; [done|].
  change (S (String.length (a ++ b)%string)
          = S (String.length a + String.length b)).
  by rewrite IH.
Qed.

Lemma str_take_spaces_length (w : nat) (s : string) :
  String.length (str_take w s ++ spaces (w - String.length (str_take w s)))%string = w.
Proof.
  assert (Hsp : forall n, String.length (spaces n) = n)
    by (induction n; cbn; congruence).
  rewrite string_app_length, Hsp. pose proof (str_take_length w s). lia.
Qed.

(** X20: with the fitted columns, the Room cell of a row has exactly the
    width of its column: the location cut to that width, then spaces; a
    location that fits is shown whole.  The same holds for the Device
    cell and the identifier. *)
Theorem name_cells_spec (inner_w : Z) (d : Device) :
  let cols := fit_columns inner_w in
  Z.of_nat (String.length (room_cell cols d)) = nth 0 cols 0 /\
  Z.of_nat (String.length (dev_cell cols d)) = nth 1 cols 0 /\
  (exists n, room_cell cols d
             = (str_take (Z.to_nat (nth 0 cols 0)) (location d) ++ spaces n)%string) /\
  (exists n, dev_cell cols d
             = (str_take (Z.to_nat (nth 1 cols 0)) (id d) ++ spaces n)%string) /\
  (Z.of_nat (String.length (location d)) <= nth 0 cols 0 ->
   exists n, room_cell cols d = (location d ++ spaces n)%string) /\
  (Z.of_nat (String.length (id d)) <= nth 1 cols 0 ->
   exists n, dev_cell cols d = (id d ++ spaces n)%string).
Proof.
  intros cols.
  destruct (fit_columns_widths inner_w) as (room & dev & Hc & Hr & Hd & _).
  unfold cols. rewrite Hc. cbn [nth].
  assert (Hroom : room_cell [room; dev; 10; 7; 11; 8] d
                  = fmt_left room (location d)).
  { unfold room_cell, snprintf_s. cbn [nth]. apply str_take_short.
    unfold fmt_left. rewrite str_take_spaces_length. lia. }
  assert (Hdev : dev_cell [room; dev; 10; 7; 11; 8] d = fmt_left dev (id d)).
  { unfold dev_cell, snprintf_s. cbn [nth]. apply str_take_short.
    unfold fmt_left. rewrite str_take_spaces_length. lia. }
  rewrite Hroom, Hdev. unfold fmt_left.
  rewrite !str_take_spaces_length.
  split; [lia|]. split; [lia|]. split; [by eexists|]. split; [by eexists|].
  split; intros Hfit; rewrite str_take_short by lia; by eexists.
Qed.

Lemma name_cells_spec_witness :
  let d := {| id := "A1"; location := "conservatory"; ts := 1;
              temp := DFin 0; has_temp := false;
              rh := DFin 0; has_rh := false |} in
  exists n, dev_cell (fit_columns 60) d = ("A1" ++ spaces n)%string.
Proof.
  intros d.
  destruct (name_cells_spec 60 d) as (_ & _ & _ & _ & _ & H).
  apply H. vm_compute. discriminate.
Defined.

(** ** Drawing on the screen *)

Lemma str_drop_length (n : nat) (s : string) :
  String.length (str_drop n s) = (String.length s - n)%nat.
Proof.
  revert s. induction n as [|n IH]; intros [|c s]; cbn; try lia. apply IH.
Qed.

(** X21: [safe_addstr_xy] draws nothing when the row is off the screen or
    the column is at or beyond the right edge; what it does hand to
    curses starts on the screen and holds at most the bytes left up to
    the right edge, with the attribute asked for.  For a column [x >= 0]
    that is the text cut at the right edge. *)
Theorem safe_addstr_xy_on_screen (H W y x : Z) (s : string) (attr : Z) :
  - x <= Z.of_nat (String.length s) ->
  (safe_addstr_xy H W y x (Some s) attr = None
   <-> y < 0 \/ H <= y \/ W <= x \/ W <= 0) /\
  (forall dr : Draw,
     safe_addstr_xy H W y x (Some s) attr = Some dr ->
     at_y dr = y /\ 0 <= at_y dr < H /\
     at_x dr = Z.max 0 x /\
     at_x dr + Z.of_nat (String.length (text dr)) <= W /\
     with_attr dr = attr /\
     (0 <= x -> text dr = str_take (Z.to_nat (W - x)) s)).
Proof.
  intros Hptr. unfold safe_addstr_xy.
  destruct (Z.ltb_spec y 0) as [Hy0|Hy0]; cbn [orb].
  { split; [split; [intros _; by left|done]|discriminate]. }
  destruct (Z.geb_spec y H) as [HyH|HyH]; cbn [orb].
  { split; [split; [intros _; right; by left|done]|discriminate]. }
  destruct (Z.geb_spec x W) as [HxW|HxW]; cbn [orb].
  { split; [split; [intros _; right; right; by left|done]|discriminate]. }
  destruct (Z.ltb_spec x 0) as [Hx0|Hx0].
  - destruct (Z.leb_spec (W - 0) 0) as [HW|HW].
    + split; [split; [intros _; right; right; right; lia|done]|discriminate].
    + split; [split; [discriminate|lia]|].
      intros dr Hdr. inversion Hdr; subst dr; cbn [at_y at_x text with_attr].
      pose proof (str_take_length (Z.to_nat (W - 0))
                    (str_drop (Z.to_nat (- x)) s)).
      repeat split; lia.
  - destruct (Z.leb_spec (W - x) 0) as [HW|HW]; [lia|].
    split; [split; [discriminate|lia]|].
    intros dr Hdr. inversion Hdr; subst dr; cbn [at_y at_x text with_attr].
    pose proof (str_take_length (Z.to_nat (W - x)) s).
    repeat split; lia.
Qed.

Lemma safe_addstr_xy_on_screen_witness :
  safe_addstr_xy 24 10 3 7 (Some "Sensors") A_BOLD
    = Some {| at_y := 3; at_x := 7; text := "Sen"; with_attr := A_BOLD |} /\
  safe_addstr_xy 24 10 24 0 (Some "Sensors") A_BOLD = None.
Proof.
  destruct (safe_addstr_xy_on_screen 24 10 24 0 "Sensors" A_BOLD
              ltac:(vm_compute; discriminate)) as [Hnone _].
  split; [reflexivity|]. apply Hnone. right. left. reflexivity.
Defined.

(** X22: [draw_box] draws no frame exactly when its corner is below the
    last row or right of the last column; the test that follows the
    clamping never stops it.  The frame drawn has at least 3 rows and 4
    columns: it stays inside the screen, and inside the size asked for,
    when at least 3 rows and 4 columns were asked for and are left from
    the corner, and otherwise it has the minimal size even where the
    screen has no room for it. *)
Theorem draw_box_size_spec (H W y x h w : Z) :
  (draw_box_size H W y x h w = None <-> H <= y \/ W <= x) /\
  (forall h1 w1 : Z,
     draw_box_size H W y x h w = Some (h1, w1) ->
     h1 = Z.max 3 (Z.min h (H - y)) /\ w1 = Z.max 4 (Z.min w (W - x)) /\
     (3 <= h -> 3 <= H - y -> h1 <= h /\ y + h1 <= H) /\
     (4 <= w -> 4 <= W - x -> w1 <= w /\ x + w1 <= W) /\
     (H - y < 3 -> h1 = 3) /\ (W - x < 4 -> w1 = 4)).
Proof.
  unfold draw_box_size, PANEL_MIN_H. rewrite !imax_max, !imin_min.
  destruct (Z.geb_spec y H) as [Hy|Hy]; cbn [orb].
  { split; [split; [intros _; by left|done]|discriminate]. }
  destruct (Z.geb_spec x W) as [Hx|Hx]; cbn [orb].
  { split; [split; [intros _; by right|done]|discriminate]. }
  destruct (Z.ltb_spec (Z.max 3 (Z.min h (H - y))) 3); [lia|].
  destruct (Z.ltb_spec (Z.max 4 (Z.min w (W - x))) 4); [lia|].
  cbn [orb]. split; [split; [discriminate|lia]|].
  intros h1 w1 Hb. inversion Hb; subst. repeat split; lia.
Qed.

Lemma draw_box_size_spec_witness :
  draw_box_size 24 80 1 0 3 38 = Some (3, 38) /\
  draw_box_size 3 80 1 0 3 38 = Some (3, 38) /\
  draw_box_size 24 80 1 80 3 38 = None.
Proof.
  destruct (draw_box_size_spec 24 80 1 80 3 38) as [Hnone _].
  split; [reflexivity|]. split; [reflexivity|]. apply Hnone. by right.
Defined.

(** X23: on every terminal [main] puts the table at row 5 with a height
    of at least 8, so [draw_table] always has [max 5 (H - 9)] rows under
    its header, also where the terminal is too short to show them.  The
    Inside panel is asked at least 24 columns; from 51 columns on the two
    panels are drawn side by side, two columns apart, up to the right
    edge; on 26 columns or fewer the Garden panel is not drawn. *)
Theorem main_layout_spec (H W : Z) :
  let l := main_layout H W in
  tbl_y l = 5 /\ 8 <= tbl_h l /\
  (forall now g_stale_secs colors devices s,
     tv_max_rows (main_table now g_stale_secs colors devices H W s)
       = Z.max 5 (H - 9)) /\
  24 <= panel_w l /\ garden_x l = panel_w l + 2 /\
  (51 <= W -> 4 <= H ->
   draw_box_size H W 1 0 3 (panel_w l) = Some (3, panel_w l) /\
   draw_box_size H W 1 (garden_x l) 3 (garden_w l) = Some (3, garden_w l) /\
   garden_x l + garden_w l = W /\ panel_w l <= garden_w l <= panel_w l + 2) /\
  (W <= 26 -> draw_box_size H W 1 (garden_x l) 3 (garden_w l) = None).
Proof.
  intros l. unfold l, main_layout, TABLE_MIN_H, PANEL_MIN_W.
  cbn [tbl_y tbl_h panel_w garden_x garden_w]. rewrite !imax_max.
  split; [reflexivity|]. split; [lia|]. split; [|split; [lia|split; [lia|split]]].
  - intros now g colors devices s. unfold main_table, main_layout, draw_table.
    cbn [tbl_y tbl_h tv_max_rows]. unfold TABLE_MIN_H. rewrite !imax_max. lia.
  - intros HW HH.
    assert (Hq : 2 * Z.quot (W - 3) 2 <= W - 3 < 2 * Z.quot (W - 3) 2 + 2).
    { rewrite Z.quot_div_nonneg by lia.
      pose proof (Z.div_mod (W - 3) 2 ltac:(lia)).
      pose proof (Z.mod_pos_bound (W - 3) 2 ltac:(lia)). lia. }
    set (q := Z.quot (W - 3) 2) in *.
    unfold draw_box_size, PANEL_MIN_H. rewrite !imax_max, !imin_min.
    repeat match goal with
           | |- context [?a >=? ?b] => destruct (Z.geb_spec a b); try lia
           | |- context [?a <? ?b] => destruct (Z.ltb_spec a b); try lia
           end; cbn [orb].
    repeat split; try lia; f_equal; f_equal; lia.
  - intros HW. unfold draw_box_size.
    destruct (Z.geb_spec 1 H); cbn [orb]; [reflexivity|].
    destruct (Z.geb_spec (Z.max 24 (Z.quot (W - 3) 2) + 2) W); [reflexivity|lia].
Qed.

Lemma main_layout_spec_witness :
  draw_box_size 24 80 1 0 3 (panel_w (main_layout 24 80)) = Some (3, 38) /\
  draw_box_size 24 80 1 40 3 (garden_w (main_layout 24 80)) = Some (3, 40) /\
  draw_box_size 24 20 1 (garden_x (main_layout 24 20)) 3
                (garden_w (main_layout 24 20)) = None.
Proof.
  destruct (main_layout_spec 24 80) as (_ & _ & _ & _ & _ & Hwide & _).
  destruct (main_layout_spec 24 20) as (_ & _ & _ & _ & _ & _ & Hnarrow).
  destruct (Hwide ltac:(lia) ltac:(lia)) as (H1 & H2 & _).
  split; [exact H1|]. split; [exact H2|]. apply Hnarrow. lia.
Defined.

(** ** Keys *)

Lemma run_keys_app (k1 k2 : list Z) (ui : Ui) :
  run_keys ui (k1 ++ k2) = run_keys (run_keys ui k1) k2.
Proof.
  revert ui. induction k1 as [|ch k1 IH]; intros ui; [done|].
  cbn [app run_keys]. destruct (running ui) eqn:E; [apply IH|].
  destruct k2; cbn [run_keys]; by rewrite ?E.
Qed.

Lemma run_keys_stopped (keys : list Z) (ui : Ui) :
  running ui = false -> run_keys ui keys = ui.
Proof. intros H. destruct keys; cbn [run_keys]; by rewrite ?H. Qed.

(** X24: a key other than q, Q, the arrows, j, k and the page keys (also
    the "no key" of getch) changes nothing.  After q or Q the loop takes
    no further key, and the offset stays what it was.  "Down" then "up"
    brings the offset back, as "page down" then "page up" does, while the
    [int] does not overflow; "up" and "page up" at offset 0 leave it at
    0; j and k act as the arrows. *)
Theorem handle_key_spec (ui : Ui) :
  (forall ch, ch <> ch_q -> ch <> ch_Q -> ch <> KEY_DOWN -> ch <> ch_j ->
              ch <> KEY_UP -> ch <> ch_k -> ch <> KEY_NPAGE -> ch <> KEY_PPAGE ->
              handle_key ui ch = ui) /\
  (forall k1 k2 quit, quit = ch_q \/ quit = ch_Q ->
     run_keys ui (k1 ++ quit :: k2)
       = (let u := run_keys ui k1 in
          if running u then {| scroll := scroll u; running := false |} else u)) /\
  (0 <= scroll ui < INT_MAX ->
   handle_key (handle_key ui KEY_DOWN) KEY_UP = ui) /\
  (0 <= scroll ui <= INT_MAX - 10 ->
   handle_key (handle_key ui KEY_NPAGE) KEY_PPAGE = ui) /\
  (scroll ui = 0 ->
   handle_key ui KEY_UP = ui /\ handle_key ui KEY_PPAGE = ui) /\
  handle_key ui ch_j = handle_key ui KEY_DOWN /\
  handle_key ui ch_k = handle_key ui KEY_UP.
Proof.
  split; [|split; [|split; [|split; [|split; [|split]]]]].
  - intros ch H1 H2 H3 H4 H5 H6 H7 H8. unfold handle_key.
    repeat match goal with
           | |- context [?a =? ?b] => destruct (Z.eqb_spec a b); [congruence|]
           end. reflexivity.
  - intros k1 k2 quit Hq. rewrite run_keys_app. cbv zeta.
    set (u := run_keys ui k1). cbn [run_keys].
    destruct (running u) eqn:E; [|reflexivity].
    assert (Hk : handle_key u quit = {| scroll := scroll u; running := false |})
      by (destruct Hq as [-> | ->]; reflexivity).
    rewrite Hk. by apply run_keys_stopped.
  - intros Hs. destruct ui as [s r]. cbn [scroll] in Hs.
    unfold handle_key. cbn. rewrite imax_max.
    rewrite (wrap32_small (s + 1)) by (unfold INT_MIN, INT_MAX in *; lia).
    rewrite wrap32_small by (unfold INT_MIN, INT_MAX in *; lia).
    f_equal. lia.
  - intros Hs. destruct ui as [s r]. cbn [scroll] in Hs.
    unfold handle_key. cbn. rewrite imax_max.
    rewrite (wrap32_small (s + 10)) by (unfold INT_MIN, INT_MAX in *; lia).
    rewrite wrap32_small by (unfold INT_MIN, INT_MAX in *; lia).
    f_equal. lia.
  - intros Hs. destruct ui as [s r]. cbn [scroll] in Hs. subst s. by split.
  - reflexivity.
  - reflexivity.
Qed.

Lemma handle_key_spec_witness :
  handle_key ui0 (-1) = ui0 /\
  scroll (run_keys ui0 [KEY_DOWN; ch_q; KEY_DOWN; KEY_DOWN]) = 1 /\
  handle_key (handle_key {| scroll := 7; running := true |} KEY_DOWN) KEY_UP
    = {| scroll := 7; running := true |}.
Proof.
  destruct (handle_key_spec ui0) as (Hother & Hquit & _).
  destruct (handle_key_spec {| scroll := 7; running := true |})
    as (_ & _ & Hround & _).
  split; [apply Hother; discriminate|]. split.
  - change [KEY_DOWN; ch_q; KEY_DOWN; KEY_DOWN]
      with ([KEY_DOWN] ++ ch_q :: [KEY_DOWN; KEY_DOWN])%list.
    rewrite (Hquit [KEY_DOWN] [KEY_DOWN; KEY_DOWN] ch_q); [reflexivity|by left].
  - apply Hround. vm_compute. split; [discriminate|reflexivity].
Defined.

(** ** One reading, end to end *)

Lemma finite_field_fin (x : R) :
  (-1e300 < x < 1e300)%R -> finite_field (DFin x) = FNumber (DFin x).
Proof. intros H. unfold finite_field. by rewrite is_finite_fin. Qed.

(** X26: one line with identifier X, location "Garden", a temperature t,
    a humidity h and a timestamp T, decoded into the empty registry and
    shown while it is fresh (at a clock [now] with [0 <= now - T <= W]):
    the Garden panel prints t, h and one device, the Inside panel prints
    placeholders and no device, and the table has one row, for X, of age
    [now - T], not dimmed, whose humidity cell never alerts. *)
Theorem garden_reading_end_to_end (X : string) (t h : R)
    (T now0 now W H Wd : Z) :
  T <> 0 ->
  LONG_MIN <= now - W <= LONG_MAX ->
  0 <= now - T <= W -> W <= INT_MAX ->
  (-1e300 < t < 1e300)%R -> (-1e300 < h < 1e300)%R ->
  let root : gmap string json_t :=
    {[ "id" := JString X; "location" := JString "Garden";
       "temp" := JReal (DFin t); "humidity" := JReal (DFin h);
       "ts" := JInteger T ]} in
  exists (r : Reading) (row : Row),
    decode now0 root = Some r /\
    main_panels now W (upsert r []) =
      ((FPlaceholder, FPlaceholder, 0, W),
       (FNumber (DFin t), FNumber (DFin h), 1, W)) /\
    tv_rows (main_table now W true (upsert r []) H Wd 0) = [row] /\
    id (row_dev row) = trim_inplace (snprintf_s MAX_ID_LEN X) /\
    location (row_dev row) = "Garden" /\
    row_age row = now - T /\
    row_attr row = A_NORMAL /\ row_rh_attr row = A_NORMAL /\
    row_fields row = (FNumber (DFin t), FNumber (DFin h),
                      finite_field (dewpoint_c (DFin t) (DFin h))).
Proof.
  intros HT Hrange Hfresh HW Ht Hh root.
  set (x := trim_inplace (snprintf_s MAX_ID_LEN X)).
  set (r := {| r_id := x; r_location := "Garden"; r_ts := T;
               r_temp := DFin t; r_has_temp := true;
               r_rh := DFin h; r_has_rh := true |}).
  set (d := {| id := x; location := "Garden"; ts := T;
               temp := DFin t; has_temp := true;
               rh := DFin h; has_rh := true |}).
  assert (Hdec : decode now0 root = Some r).
  { unfold decode. change (json_id root) with (Some X). cbv iota beta.
    change (decoded_location root) with "Garden".
    assert (Hts : decoded_ts now0 root = T).
    { unfold decoded_ts. change (root !! "ts") with (Some (JInteger T)).
      cbn [json_ts]. cbv zeta.
      rewrite (proj2 (Z.eqb_neq T 0) HT). by rewrite (proj2 (Z.eqb_neq T 0) HT). }
    rewrite Hts. reflexivity. }
  assert (Hup : upsert r [] = [d]).
  { rewrite upsert_new; [|reflexivity|intros d' Hd'; by apply elem_of_nil in Hd'].
    change (Z.of_nat (length []) >=? MAX_DEVICES) with false. cbv iota.
    unfold store, r; cbn [r_id r_location r_ts r_temp r_has_temp r_rh r_has_rh
                          id location ts temp has_temp rh has_rh app].
    assert (Hx : snprintf_s MAX_ID_LEN x = x) by apply snprintf_trimmed.
    rewrite Hx. reflexivity. }
  assert (Hf : fresh now W d = true).
  { unfold fresh. apply Z.leb_le. cbn [ts d]. lia. }
  exists r, (draw_row now (cutoff_of now W) true d).
  split; [exact Hdec|]. rewrite Hup. split; [|split].
  - unfold main_panels, compute_averages. cbn [fold_left].
    rewrite average_step_fresh, Hf by exact Hrange.
    unfold accumulate, d; cbn [location has_temp has_rh temp rh].
    change (equals_ci "Garden" "garden") with true. cbv iota.
    unfold finish_averages, sums0, draw_averages_bar;
      cbn [sum_in_t sum_in_h nin_t nin_h cin sum_g_t sum_g_h ng_t ng_h cg
           in_t in_h in_n g_t g_h g_n orb].
    unfold mean_or_nan. change (0 =? 0) with true. change (0 + 1 =? 0) with false.
    cbv iota. unfold d_of_int. cbn [d_add]. change (0 + 1) with 1.
    rewrite !d_div_fin by (cbn; lra).
    replace ((0 + t) / 1)%R with t by (cbn; lra).
    replace ((0 + h) / 1)%R with h by (cbn; lra).
    rewrite !finite_field_fin by assumption. reflexivity.
  - unfold main_table, draw_table. cbn [tv_rows].
    change (collect_rows [d]) with [d]. cbn [length Z.of_nat Pos.of_succ_nat].
    unfold main_layout, TABLE_MIN_H; cbn [tbl_y tbl_h]. rewrite !imax_max, !imin_min.
    change (0 <? 0) with false. cbv iota.
    set (mx := Z.max 1 _ - 1).
    assert (Hmx : 5 <= mx) by (unfold mx; lia).
    change (Z.of_nat 1) with 1.
    destruct (Z.gtb_spec 0 (1 - mx)); [|lia].
    rewrite (Z.max_l 0 (1 - mx)) by lia.
    replace (Z.to_nat (Z.min (0 + mx) 1 - 0)) with 1%nat by lia.
    reflexivity.
  - cbn [draw_row row_dev row_age row_attr row_rh_attr d id location ts].
    split; [reflexivity|]. split; [reflexivity|]. split; [|split; [|split]].
    + rewrite imax_max.
      rewrite wrap64_small by (unfold LONG_MIN, LONG_MAX, INT_MAX in *; lia).
      rewrite wrap32_small by (unfold INT_MIN, INT_MAX in *; lia). lia.
    + assert (Hs : (T <? cutoff_of now W) = false).
      { change T with (ts d). rewrite stale_not_fresh by exact Hrange. by rewrite Hf. }
      by rewrite Hs.
    + assert (Hs : (T <? cutoff_of now W) = false).
      { change T with (ts d). rewrite stale_not_fresh by exact Hrange. by rewrite Hf. }
      rewrite Hs. change (equals_ci "Garden" "garden") with true.
      cbn [negb andb]. reflexivity.
    + reflexivity.
Qed.

Lemma garden_reading_end_to_end_witness :
  let root : gmap string json_t :=
    {[ "id" := JString "A1"; "location" := JString "Garden";
       "temp" := JReal (DFin 22.5); "humidity" := JReal (DFin 60);
       "ts" := JInteger 1700000000 ]} in
  exists (r : Reading) (row : Row),
    decode 1700000001 root = Some r /\
    main_panels 1700000100 900 (upsert r []) =
      ((FPlaceholder, FPlaceholder, 0, 900),
       (FNumber (DFin 22.5), FNumber (DFin 60), 1, 900)) /\
    tv_rows (main_table 1700000100 900 true (upsert r []) 24 80 0) = [row] /\
    id (row_dev row) = trim_inplace (snprintf_s MAX_ID_LEN "A1") /\
    location (row_dev row) = "Garden" /\
    row_age row = 1700000100 - 1700000000 /\
    row_attr row = A_NORMAL /\ row_rh_attr row = A_NORMAL /\
    row_fields row = (FNumber (DFin 22.5), FNumber (DFin 60),
                      finite_field (dewpoint_c (DFin 22.5) (DFin 60))).
Proof.
  apply (garden_reading_end_to_end "A1" 22.5 60 1700000000 1700000001
           1700000100 900 24 80).
  - discriminate.
  - vm_compute. split; discriminate.
  - vm_compute. split; discriminate.
  - vm_compute. discriminate.
  - lra.
  - lra.
Defined.

(** ** The reader *)

Lemma fgets_bytes_line (k : nat) (l rest : string) :
  lacks newline l = true -> (String.length l < k)%nat ->
  fgets_bytes k (l ++ String newline rest)
    = ((l ++ String newline EmptyString)%string, rest).
Proof.
  revert k. induction l as [|c l IH]; intros k Hl Hk.
  - destruct k; [cbn in Hk; lia|]. reflexivity.
  - destruct k; [cbn in Hk; lia|].
    cbn [lacks] in Hl. apply andb_true_iff in Hl as [Hc Hl].
    apply negb_true_iff in Hc.
    change (String c l ++ String newline rest)%string
      with (String c (l ++ String newline rest)).
    cbn [fgets_bytes]. rewrite Hc, (IH k Hl) by (cbn in Hk; lia).
    reflexivity.
Qed.

Lemma fgets_bytes_long (k : nat) (l rest : string) :
  lacks newline l = true -> (k <= String.length l)%nat ->
  fgets_bytes k (l ++ rest) = (str_take k l, (str_drop k l ++ rest)%string).
Proof.
  revert k. induction l as [|c l IH]; intros k Hl Hk.
  - destruct k; [|cbn in Hk; lia]. by destruct rest.
  - destruct k; [reflexivity|].
    cbn [lacks] in Hl. apply andb_true_iff in Hl as [Hc Hl].
    apply negb_true_iff in Hc.
    change (String c l ++ rest)%string with (String c (l ++ rest)).
    cbn [fgets_bytes str_take str_drop]. rewrite Hc, (IH k Hl) by (cbn in Hk; lia).
    reflexivity.
Qed.

Lemma fgets_bytes_tail (k : nat) (l : string) :
  lacks newline l = true -> (String.length l <= k)%nat ->
  fgets_bytes k l = (l, EmptyString).
Proof.
  revert k. induction l as [|c l IH]; intros k Hl Hk.
  - by destruct k.
  - destruct k; [cbn in Hk; lia|].
    cbn [lacks] in Hl. apply andb_true_iff in Hl as [Hc Hl].
    apply negb_true_iff in Hc.
    cbn [fgets_bytes]. rewrite Hc, (IH k Hl) by (cbn in Hk; lia). reflexivity.
Qed.

Lemma c_string_id (s : string) : lacks zero s = true -> c_string s = s.
Proof.
  induction s as [|c s IH]; [done|]. cbn [lacks c_string].
  intros H. apply andb_true_iff in H as [Hc Hs]. apply negb_true_iff in Hc.
  by rewrite Hc, IH.
Qed.

Lemma lacks_app (c : ascii) (a b : string) :
  lacks c (a ++ b) = lacks c a && lacks c b.
Proof.
  induction a as [|x a IH]; [done|].
  change (String x a ++ b)%string with (String x (a ++ b)).
  cbn [lacks]. by rewrite IH, andb_assoc.
Qed.

Lemma string_app_assoc (a b c : string) :
  ((a ++ b) ++ c)%string = (a ++ (b ++ c))%string.
Proof.
  induction a as [|x a IH]; [done|].
  change (String x ((a ++ b) ++ c)%string = String x (a ++ (b ++ c))%string).
  by rewrite IH.
Qed.

Lemma reader_lines_stream (lines : list string) (last : string) (fuel : nat) :
  Forall (fun l => line_text l /\
                   Z.of_nat (String.length l) < MAX_LINE_LEN - 1) lines ->
  line_text last -> Z.of_nat (String.length last) <= MAX_LINE_LEN - 1 ->
  (length lines < fuel)%nat ->
  reader_lines fuel (stream_of lines ++ last)
    = (map (fun l => (l ++ String newline EmptyString)%string) lines
       ++ (if String.eqb last EmptyString then [] else [last]))%list.
Proof.
  intros Hlines [Hnl Hz] Hlen. revert fuel.
  induction Hlines as [|l lines [[Hl1 Hl2] Hl3] _ IH]; intros fuel Hfuel.
  - destruct fuel as [|fuel]; [cbn in Hfuel; lia|].
    change (stream_of [] ++ last)%string with last. cbn [map app].
    destruct last as [|c last]; [reflexivity|].
    cbn [reader_lines fgets].
    rewrite fgets_bytes_tail by (assumption || lia).
    rewrite c_string_id by exact Hz.
    destruct fuel; reflexivity.
  - destruct fuel as [|fuel]; [cbn in Hfuel; lia|].
    cbn [stream_of]. rewrite string_app_assoc.
    change (String newline (stream_of lines) ++ last)%string
      with (String newline (stream_of lines ++ last)).
    cbn [reader_lines map app]. unfold fgets.
    rewrite fgets_bytes_line by (assumption || lia).
    destruct (l ++ String newline (stream_of lines ++ last))%string eqn:E.
    { destruct l; discriminate E. }
    rewrite c_string_id.
    + f_equal. apply IH. cbn [length] in Hfuel. lia.
    + rewrite lacks_app, Hl2. reflexivity.
Qed.

(** X27: the reader pushes one queue element per line of input, with
    its newline, as long as a line has at most 8190 bytes before the
    newline; a last line without newline is pushed when the input ends.
    A line of 8191 bytes or more before its newline is cut: the first
    read takes its first 8191 bytes and leaves the rest to the next. *)
Theorem reader_delivers_lines (lines : list string) (last : string)
    (long rest : string) (q : LineQueue) :
  Forall (fun l => line_text l /\
                   Z.of_nat (String.length l) < MAX_LINE_LEN - 1) lines ->
  line_text last -> Z.of_nat (String.length last) <= MAX_LINE_LEN - 1 ->
  lacks newline long = true ->
  MAX_LINE_LEN - 1 <= Z.of_nat (String.length long) ->
  let k := Z.to_nat (MAX_LINE_LEN - 1) in
  reader_lines (S (length lines)) (stream_of lines ++ last)
    = (map (fun l => (l ++ String newline EmptyString)%string) lines
       ++ (if String.eqb last EmptyString then [] else [last]))%list /\
  reader_main (S (length lines)) (stream_of lines ++ last) q
    = q_push_all q
        (map (fun l => (l ++ String newline EmptyString)%string) lines
         ++ (if String.eqb last EmptyString then [] else [last]))%list /\
  fgets MAX_LINE_LEN (long ++ rest)
    = Some (str_take k long, (str_drop k long ++ rest)%string) /\
  Z.of_nat (String.length (str_take k long)) = 8191.
Proof.
  intros Hlines Hlast Hlen Hlong Hlonglen k.
  assert (H : reader_lines (S (length lines)) (stream_of lines ++ last)
    = (map (fun l => (l ++ String newline EmptyString)%string) lines
       ++ (if String.eqb last EmptyString then [] else [last]))%list)
    by (apply reader_lines_stream; try assumption; lia).
  split; [exact H|]. split; [unfold reader_main; by rewrite H|].
  assert (Hk : Z.of_nat k = 8191) by (unfold k, MAX_LINE_LEN; lia).
  split.
  - unfold fgets. fold k.
    destruct (long ++ rest)%string eqn:E.
    { destruct long; [unfold MAX_LINE_LEN in Hlonglen; cbn in Hlonglen; lia
                     |discriminate E]. }
    rewrite <- E. f_equal. apply fgets_bytes_long; [exact Hlong|].
    unfold MAX_LINE_LEN in *. lia.
  - rewrite str_take_long; [exact Hk|]. unfold MAX_LINE_LEN in *. lia.
Qed.

Lemma reader_delivers_lines_witness :
  reader_lines 3 (stream_of ["{}"; "[1,2]"] ++ "{oops")
    = ["{}" ++ String newline EmptyString;
       "[1,2]" ++ String newline EmptyString; "{oops"]%string.
Proof.
  set (long := spaces (Z.to_nat 9000)).
  assert (H1 : Forall (fun l => line_text l /\
                 Z.of_nat (String.length l) < MAX_LINE_LEN - 1) ["{}"; "[1,2]"])
    by (repeat constructor; vm_compute; reflexivity).
  assert (H2 : line_text "{oops") by (split; reflexivity).
  assert (H3 : Z.of_nat (String.length "{oops") <= MAX_LINE_LEN - 1)
    by (vm_compute; discriminate).
  assert (H4 : lacks newline long = true) by (vm_compute; reflexivity).
  assert (H5 : MAX_LINE_LEN - 1 <= Z.of_nat (String.length long))
    by (vm_compute; discriminate).
  exact (proj1 (reader_delivers_lines ["{}"; "[1,2]"] "{oops" long
                  EmptyString (q_create 4) H1 H2 H3 H4 H5)).
Defined.

(** X28: for every delay [ms >= 0] the timespec built by [sleep_ms] is
    valid, with a nanosecond part in [0, 10^9), and amounts to exactly
    [ms] milliseconds. *)
Theorem sleep_ms_spec (ms : Z) :
  0 <= ms ->
  let '(sec, nsec) := sleep_ms ms in
  0 <= sec /\ 0 <= nsec < 1000000000 /\
  sec * 1000000000 + nsec = ms * 1000000.
Proof.
  intros Hms. unfold sleep_ms.
  rewrite Z.quot_div_nonneg, Z.rem_mod_nonneg by lia.
  pose proof (Z.div_mod ms 1000 ltac:(lia)).
  pose proof (Z.mod_pos_bound ms 1000 ltac:(lia)).
  pose proof (Z.div_pos ms 1000 Hms ltac:(lia)). lia.
Qed.

Lemma sleep_ms_spec_witness :
  let '(sec, nsec) := sleep_ms 1025 in
  0 <= sec /\ 0 <= nsec < 1000000000 /\
  sec * 1000000000 + nsec = 1025 * 1000000.
Proof. apply (sleep_ms_spec 1025). lia. Defined.
